(** * Elemental IR emitter of XLA: a shallow embedding and its properties

    The development follows
    [tensorflow/compiler/xla/service/elemental_ir_emitter.cc].  The emitter
    builds LLVM instructions through an [IRBuilder]; here every [Create*]
    call is given the run-time meaning of the instruction it builds, so an
    emitter function becomes the function computed by the code it emits.
    Where a generator is called inside a conditional block or a loop body,
    the status it returns (kept at emission, [emit_block]) is told apart
    from the value its code computes when the block runs.

    Layout of the file:
    - [Outcome]: the result of a call ([StatusOr] plus fatal aborts);
    - [Value], [IrType] and the integer and floating-point instructions;
    - the HLO data model ([Shape], [HloInstruction], [Index]);
    - the emitters, in the order of the source file;
    - the theorems. *)

From Stdlib Require Import ZArith Lia List String Bool.
From Stdlib Require Import Floats.SpecFloat.
From stdpp Require Import base option gmap list.

Local Open Scope Z_scope.

(** ** Results of calls *)

(** [tensorflow::error::Code], restricted to the codes the emitter uses. *)
Inductive StatusCode : Type :=
| UNIMPLEMENTED
| INVALID_ARGUMENT
| INTERNAL.

Record Status : Type := MkStatus {
  code : StatusCode;
  error_message : string
}.

Definition Unimplemented (msg : string) : Status := MkStatus UNIMPLEMENTED msg.
Definition InvalidArgument (msg : string) : Status :=
  MkStatus INVALID_ARGUMENT msg.

(** A call of the emitter has three possible results: a value, a [Status]
    that is not OK (these two are the source's [StatusOr<T>]), or the
    process is lost: a failed [CHECK], [LOG(FATAL)], a key missing from
    [operand_to_generator.at], an ill-typed instruction, or undefined
    behaviour of the emitted instruction (division by zero, signed division
    overflow). *)
Inductive Outcome (A : Type) : Type :=
| Ok (a : A)
| Fails (s : Status)
| Aborts.

Arguments Ok {A} a.
Arguments Fails {A} s.
Arguments Aborts {A}.

#[export] Instance Outcome_ret : MRet Outcome := fun A a => Ok a.

(** [TF_ASSIGN_OR_RETURN(x, e); k] is [x ← e; k]. *)
#[export] Instance Outcome_bind : MBind Outcome := fun A B f m =>
  match m with
  | Ok a => f a
  | Fails s => Fails s
  | Aborts => Aborts
  end.

Definition is_Ok {A : Type} (m : Outcome A) : bool :=
  match m with Ok _ => true | _ => false end.

(** ** LLVM types and values *)

Inductive FPType : Type := HalfTy | FloatTy | DoubleTy.

Inductive IrType : Type :=
| IntegerTy (bits : Z)
| FPTy (k : FPType)
| StructTy (t0 t1 : IrType).

(** A scalar is a typed bit pattern: an integer of [bits] bits is the
    number [0 <= v < 2 ^ bits], a float is its IEEE encoding, and a complex
    number is the two-field struct [{re, im}].  [VPoison] is LLVM's poison
    value: it may be passed around and discarded by a [select], and every
    other use of it is undefined behaviour. *)
Inductive Value : Type :=
| VInt (bits : Z) (v : Z)
| VFP (k : FPType) (v : Z)
| VStruct (v0 v1 : Value)
| VPoison (ty : IrType).

Fixpoint getType (v : Value) : IrType :=
  match v with
  | VInt bits _ => IntegerTy bits
  | VFP k _ => FPTy k
  | VStruct v0 v1 => StructTy (getType v0) (getType v1)
  | VPoison ty => ty
  end.

Definition FPType_eqb (a b : FPType) : bool :=
  match a, b with
  | HalfTy, HalfTy | FloatTy, FloatTy | DoubleTy, DoubleTy => true
  | _, _ => false
  end.

Fixpoint IrType_eqb (a b : IrType) : bool :=
  match a, b with
  | IntegerTy x, IntegerTy y => x =? y
  | FPTy x, FPTy y => FPType_eqb x y
  | StructTy a0 a1, StructTy b0 b1 => IrType_eqb a0 b0 && IrType_eqb a1 b1
  | _, _ => false
  end.

(** ** Integer instructions *)

Module Int.

(** Two's complement at [bits] bits. *)
Definition wrap (bits z : Z) : Z := z mod 2 ^ bits.

Definition signed (bits z : Z) : Z :=
  if z <? 2 ^ (bits - 1) then z else z - 2 ^ bits.

Definition min_signed (bits : Z) : Z := - 2 ^ (bits - 1).

Definition all_ones (bits : Z) : Z := 2 ^ bits - 1.

End Int.

(** [llvm::ConstantInt::get(type, n)]: the constant [n] truncated to the
    width of [type]; [llvm::cast<IntegerType>] asserts on other types. *)
Definition ConstantInt (ty : IrType) (n : Z) : Outcome Value :=
  match ty with
  | IntegerTy bits => Ok (VInt bits (Int.wrap bits n))
  | _ => Aborts
  end.

Definition getInt1 (b : bool) : Value := VInt 1 (if b then 1 else 0).

(** Both operands of a binary integer instruction have one integer type. *)
Definition int_binop (f : Z -> Z -> Z -> Outcome Z) (a b : Value)
  : Outcome Value :=
  match a, b with
  | VInt wa x, VInt wb y =>
      if wa =? wb then r ← f wa x y; Ok (VInt wa r) else Aborts
  | _, _ => Aborts
  end.

Definition CreateAdd : Value -> Value -> Outcome Value :=
  int_binop (fun w x y => Ok (Int.wrap w (x + y))).
Definition CreateSub : Value -> Value -> Outcome Value :=
  int_binop (fun w x y => Ok (Int.wrap w (x - y))).
Definition CreateMul : Value -> Value -> Outcome Value :=
  int_binop (fun w x y => Ok (Int.wrap w (x * y))).
Definition CreateAnd : Value -> Value -> Outcome Value :=
  int_binop (fun _ x y => Ok (Z.land x y)).
Definition CreateOr : Value -> Value -> Outcome Value :=
  int_binop (fun _ x y => Ok (Z.lor x y)).
Definition CreateXor : Value -> Value -> Outcome Value :=
  int_binop (fun _ x y => Ok (Z.lxor x y)).

(** Division instructions: a zero divisor is undefined behaviour, and so is
    the signed quotient [INT_MIN / -1] (for [sdiv] and for [srem]). *)
Definition CreateUDiv : Value -> Value -> Outcome Value :=
  int_binop (fun _ x y => if y =? 0 then Aborts else Ok (x / y)).
Definition CreateURem : Value -> Value -> Outcome Value :=
  int_binop (fun _ x y => if y =? 0 then Aborts else Ok (x mod y)).

Definition sdiv_overflows (w x y : Z) : bool :=
  (Int.signed w x =? Int.min_signed w) && (Int.signed w y =? -1).

Definition CreateSDiv : Value -> Value -> Outcome Value :=
  int_binop (fun w x y =>
    if (y =? 0) || sdiv_overflows w x y then Aborts
    else Ok (Int.wrap w (Z.quot (Int.signed w x) (Int.signed w y)))).
Definition CreateSRem : Value -> Value -> Outcome Value :=
  int_binop (fun w x y =>
    if (y =? 0) || sdiv_overflows w x y then Aborts
    else Ok (Int.wrap w (Z.rem (Int.signed w x) (Int.signed w y)))).

(** Shifts: an amount of [bits] or more gives a poison value. *)
Definition int_shift (f : Z -> Z -> Z -> Z) (a b : Value) : Outcome Value :=
  match a, b with
  | VInt wa x, VInt wb y =>
      if wa =? wb
      then Ok (if y <? wa then VInt wa (f wa x y) else VPoison (IntegerTy wa))
      else Aborts
  | _, _ => Aborts
  end.

Definition CreateShl : Value -> Value -> Outcome Value :=
  int_shift (fun w x y => Int.wrap w (Z.shiftl x y)).
Definition CreateLShr : Value -> Value -> Outcome Value :=
  int_shift (fun _ x y => Z.shiftr x y).
Definition CreateAShr : Value -> Value -> Outcome Value :=
  int_shift (fun w x y => Int.wrap w (Z.shiftr (Int.signed w x) y)).

Inductive IntPredicate : Type :=
| ICMP_EQ | ICMP_NE
| ICMP_UGT | ICMP_UGE | ICMP_ULT | ICMP_ULE
| ICMP_SGT | ICMP_SGE | ICMP_SLT | ICMP_SLE.

Definition icmp (p : IntPredicate) (w x y : Z) : bool :=
  match p with
  | ICMP_EQ => x =? y
  | ICMP_NE => negb (x =? y)
  | ICMP_UGT => y <? x
  | ICMP_UGE => y <=? x
  | ICMP_ULT => x <? y
  | ICMP_ULE => x <=? y
  | ICMP_SGT => Int.signed w y <? Int.signed w x
  | ICMP_SGE => Int.signed w y <=? Int.signed w x
  | ICMP_SLT => Int.signed w x <? Int.signed w y
  | ICMP_SLE => Int.signed w x <=? Int.signed w y
  end.

Definition CreateICmp (p : IntPredicate) (a b : Value) : Outcome Value :=
  match a, b with
  | VInt wa x, VInt wb y =>
      if wa =? wb then Ok (getInt1 (icmp p wa x y)) else Aborts
  | _, _ => Aborts
  end.

(** [select i1 c, T a, T b]. *)
Definition CreateSelect (c a b : Value) : Outcome Value :=
  match c with
  | VInt 1 cv =>
      if IrType_eqb (getType a) (getType b)
      then Ok (if cv =? 0 then b else a)
      else Aborts
  | _ => Aborts
  end.

(** [llvm_ir::EmitIfThenElse] on the condition [cond], where the true block
    and the false block each store a value into one stack slot that is
    read in the after block. *)
Definition IfThenElse (cond true_value false_value : Value) : Outcome Value :=
  match cond with
  | VInt 1 cv => Ok (if cv =? 0 then false_value else true_value)
  | _ => Aborts
  end.

(** A generator that is called while a block of a branch or the body of a
    loop is emitted acts at two times.  A [Status] it returns is returned
    by the emitter at once ([TF_ASSIGN_OR_RETURN]), whether or not the
    block is ever entered.  The instructions it emits run only when control
    reaches the block: the result [Aborts] of a generator stands for
    undefined behaviour of these instructions (a read outside of the
    operand, say), which is met only then.  [emit_block call] is what the
    emission keeps of [call]: its status. *)
Definition emit_block {A : Type} (call : Outcome A) : Outcome unit :=
  match call with
  | Fails s => Fails s
  | _ => Ok tt
  end.

(** [llvm_ir::EmitIfThenElse] on the condition [cond], where each block
    computes a value and stores it into one stack slot that is read in the
    after block: only the block that is entered runs. *)
Definition IfThenElseBlocks (cond : Value)
    (true_block false_block : Outcome Value) : Outcome Value :=
  match cond with
  | VInt 1 cv => if cv =? 0 then false_block else true_block
  | _ => Aborts
  end.

(** [trunc] to a narrower integer type keeps the low bits; [IRBuilder]
    returns the operand itself when the type does not change. *)
Definition CreateTrunc (v : Value) (ty : IrType) : Outcome Value :=
  match v, ty with
  | VInt w x, IntegerTy w' =>
      if w' =? w then Ok v
      else if (0 <? w') && (w' <? w) then Ok (VInt w' (Int.wrap w' x))
      else Aborts
  | _, _ => Aborts
  end.

Definition CreateZExt (v : Value) (ty : IrType) : Outcome Value :=
  match v, ty with
  | VInt w x, IntegerTy w' =>
      if w' =? w then Ok v
      else if w <? w' then Ok (VInt w' x)
      else Aborts
  | _, _ => Aborts
  end.

(** ** Integer division and remainder (elemental_ir_emitter.cc) *)

Definition GetOne (type : IrType) : Outcome Value := ConstantInt type 1.

Definition GetZero (type : IrType) : Outcome Value := ConstantInt type 0.

(** [llvm::APInt::getSignedMinValue(bits)]: only the sign bit set. *)
Definition GetIntSMin (type : IrType) : Outcome Value :=
  match type with
  | IntegerTy bits => Ok (VInt bits (2 ^ (bits - 1)))
  | _ => Aborts
  end.

(** [llvm::APInt::getAllOnesValue(bits)]. *)
Definition GetMinusOne (type : IrType) : Outcome Value :=
  match type with
  | IntegerTy bits => Ok (VInt bits (Int.all_ones bits))
  | _ => Aborts
  end.

Definition IsZero (v : Value) : Outcome Value :=
  zero ← ConstantInt (getType v) 0;
  CreateICmp ICMP_EQ v zero.

Definition IsIntMinDivisionOverflow (lhs rhs : Value) : Outcome Value :=
  smin ← GetIntSMin (getType lhs);
  lhs_is_min ← CreateICmp ICMP_EQ lhs smin;
  minus_one ← GetMinusOne (getType rhs);
  rhs_is_minus_one ← CreateICmp ICMP_EQ rhs minus_one;
  CreateAnd lhs_is_min rhs_is_minus_one.

Definition Select (cond if_true if_false : Value) : Outcome Value :=
  CreateSelect cond if_true if_false.

(** The divisor handed to the division instruction of [EmitIntegerDivide]
    and [EmitIntegerRemainder] ([safe_rhs] in the source): [1] when the
    division would be unsafe, the original divisor otherwise. *)
Definition safe_rhs (lhs rhs : Value) (is_signed : bool) : Outcome Value :=
  if negb is_signed then
    udiv_is_unsafe ← IsZero rhs;
    one ← GetOne (getType lhs);
    Select udiv_is_unsafe one rhs
  else
    has_zero_divisor ← IsZero rhs;
    has_int_min_overflow ← IsIntMinDivisionOverflow lhs rhs;
    sdiv_is_unsafe ← CreateOr has_int_min_overflow has_zero_divisor;
    one ← GetOne (getType lhs);
    Select sdiv_is_unsafe one rhs.

(** Integer division overflow behavior:
    [X / 0 == -1], [INT_SMIN /s -1 = INT_SMIN]. *)
Definition EmitIntegerDivide (lhs rhs : Value) (is_signed : bool)
  : Outcome Value :=
  if negb is_signed then
    udiv_is_unsafe ← IsZero rhs;
    safe_rhs ← safe_rhs lhs rhs false;
    safe_div ← CreateUDiv lhs safe_rhs;
    minus_one ← GetMinusOne (getType lhs);
    Select udiv_is_unsafe minus_one safe_div
  else
    has_zero_divisor ← IsZero rhs;
    has_int_min_overflow ← IsIntMinDivisionOverflow lhs rhs;
    safe_rhs ← safe_rhs lhs rhs true;
    safe_div ← CreateSDiv lhs safe_rhs;
    minus_one ← GetMinusOne (getType lhs);
    smin ← GetIntSMin (getType lhs);
    inner ← Select has_int_min_overflow smin safe_div;
    Select has_zero_divisor minus_one inner.

(** Integer remainder overflow behavior:
    [X % 0 == X], [INT_SMIN %s -1 = 0]. *)
Definition EmitIntegerRemainder (lhs rhs : Value) (is_signed : bool)
  : Outcome Value :=
  if negb is_signed then
    urem_is_unsafe ← IsZero rhs;
    safe_rhs ← safe_rhs lhs rhs false;
    safe_rem ← CreateURem lhs safe_rhs;
    Select urem_is_unsafe lhs safe_rem
  else
    has_zero_divisor ← IsZero rhs;
    has_int_min_overflow ← IsIntMinDivisionOverflow lhs rhs;
    safe_rhs ← safe_rhs lhs rhs true;
    safe_rem ← CreateSRem lhs safe_rhs;
    zero ← GetZero (getType lhs);
    inner ← Select has_int_min_overflow zero safe_rem;
    Select has_zero_divisor lhs inner.


(** ** Floating-point instructions *)

(** A float is kept as its IEEE 754 bit pattern.  Arithmetic decodes the
    operands to [spec_float], applies the correctly rounded operation of
    the Standard Library at the precision of the type, and encodes the
    result; a NaN result is the canonical quiet NaN. *)
Module FP.

Definition ebits (k : FPType) : Z :=
  match k with HalfTy => 5 | FloatTy => 8 | DoubleTy => 11 end.

Definition mbits (k : FPType) : Z :=
  match k with HalfTy => 10 | FloatTy => 23 | DoubleTy => 52 end.

Definition width (k : FPType) : Z := 1 + ebits k + mbits k.

Definition prec (k : FPType) : Z := mbits k + 1.

Definition emax (k : FPType) : Z := 2 ^ (ebits k - 1).

Definition sign_field (k : FPType) (v : Z) : bool :=
  Z.testbit v (ebits k + mbits k).

Definition exponent_field (k : FPType) (v : Z) : Z :=
  Z.shiftr v (mbits k) mod 2 ^ ebits k.

Definition mantissa_field (k : FPType) (v : Z) : Z := v mod 2 ^ mbits k.

Definition is_nan (k : FPType) (v : Z) : bool :=
  (exponent_field k v =? 2 ^ ebits k - 1) && negb (mantissa_field k v =? 0).

Definition is_finite (k : FPType) (v : Z) : bool :=
  negb (exponent_field k v =? 2 ^ ebits k - 1).

Definition decode (k : FPType) (v : Z) : spec_float :=
  let s := sign_field k v in
  let e := exponent_field k v in
  let m := mantissa_field k v in
  if e =? 0 then
    match m with
    | Z.pos p => S754_finite s p (emin (prec k) (emax k))
    | _ => S754_zero s
    end
  else if e =? 2 ^ ebits k - 1 then
    if m =? 0 then S754_infinity s else S754_nan
  else
    match m + 2 ^ mbits k with
    | Z.pos p => S754_finite s p (e - (emax k - 1) - mbits k)
    | _ => S754_nan
    end.

Definition sign_bit (k : FPType) (s : bool) : Z :=
  if s then 2 ^ (ebits k + mbits k) else 0.

Definition infinity (k : FPType) (s : bool) : Z :=
  sign_bit k s + Z.shiftl (2 ^ ebits k - 1) (mbits k).

Definition quiet_nan (k : FPType) : Z :=
  infinity k false + 2 ^ (mbits k - 1).

Definition encode (k : FPType) (x : spec_float) : Z :=
  match x with
  | S754_zero s => sign_bit k s
  | S754_infinity s => infinity k s
  | S754_nan => quiet_nan k
  | S754_finite s m e =>
      if Z.pos m <? 2 ^ mbits k then sign_bit k s + Z.pos m
      else sign_bit k s + Z.shiftl (e + (emax k - 1) + mbits k) (mbits k)
           + (Z.pos m - 2 ^ mbits k)
  end.

(** Rounding of a value of another format to the format of [k]. *)
Definition round (k : FPType) (x : spec_float) : spec_float :=
  match x with
  | S754_finite s m e => binary_round (prec k) (emax k) s m e
  | _ => x
  end.

(** The correctly rounded operations on bit patterns. *)
Definition lift2 (f : Z -> Z -> spec_float -> spec_float -> spec_float)
    (k : FPType) (x y : Z) : Z :=
  encode k (f (prec k) (emax k) (decode k x) (decode k y)).

Definition add : FPType -> Z -> Z -> Z := lift2 SFadd.
Definition sub : FPType -> Z -> Z -> Z := lift2 SFsub.
Definition mul : FPType -> Z -> Z -> Z := lift2 SFmul.
Definition div : FPType -> Z -> Z -> Z := lift2 SFdiv.

End FP.

Definition fp_binop (f : Z -> Z -> spec_float -> spec_float -> spec_float)
    (a b : Value) : Outcome Value :=
  match a, b with
  | VFP ka x, VFP kb y =>
      if FPType_eqb ka kb then Ok (VFP ka (FP.lift2 f ka x y)) else Aborts
  | _, _ => Aborts
  end.

Definition CreateFAdd : Value -> Value -> Outcome Value := fp_binop SFadd.
Definition CreateFSub : Value -> Value -> Outcome Value := fp_binop SFsub.
Definition CreateFMul : Value -> Value -> Outcome Value := fp_binop SFmul.
Definition CreateFDiv : Value -> Value -> Outcome Value := fp_binop SFdiv.

(** [llvm.fabs]: the sign bit is cleared. *)
Definition EmitFabs (v : Value) : Outcome Value :=
  match v with
  | VFP k x => Ok (VFP k (x mod 2 ^ (FP.ebits k + FP.mbits k)))
  | _ => Aborts
  end.

(** [llvm::ConstantFP::get(type, d)] for a C++ [double] [d], given as the
    [spec_float] it denotes: [d] rounded to the format of [type]. *)
Definition ConstantFP (ty : IrType) (d : spec_float) : Outcome Value :=
  match ty with
  | FPTy k => Ok (VFP k (FP.encode k (FP.round k d)))
  | _ => Aborts
  end.

Definition ConstantFP_getInfinity (ty : IrType) : Outcome Value :=
  match ty with
  | FPTy k => Ok (VFP k (FP.infinity k false))
  | _ => Aborts
  end.

(** The C++ literals of type [double] that the emitter uses. *)
Definition double_of_Z (n : Z) : spec_float := binary_normalize 53 1024 n 0 false.
Definition double_1_0 : spec_float := double_of_Z 1.
Definition double_0_5 : spec_float := SFdiv 53 1024 (double_of_Z 1) (double_of_Z 2).
Definition double_1em4 : spec_float := SFdiv 53 1024 (double_of_Z 1) (double_of_Z 10000).
Definition double_1em5 : spec_float := SFdiv 53 1024 (double_of_Z 1) (double_of_Z 100000).

Inductive FloatPredicate : Type :=
| FCMP_OEQ | FCMP_OGT | FCMP_OGE | FCMP_OLT | FCMP_OLE | FCMP_ONE | FCMP_ORD
| FCMP_UNO | FCMP_UEQ | FCMP_UGT | FCMP_UGE | FCMP_ULT | FCMP_ULE | FCMP_UNE.

(** An ordered predicate holds when neither operand is a NaN and the
    relation holds; an unordered one when an operand is a NaN or the
    relation holds. *)
Definition fcmp (p : FloatPredicate) (x y : spec_float) : bool :=
  match SFcompare x y with
  | None =>
      match p with
      | FCMP_UNO | FCMP_UEQ | FCMP_UGT | FCMP_UGE
      | FCMP_ULT | FCMP_ULE | FCMP_UNE => true
      | _ => false
      end
  | Some Eq =>
      match p with
      | FCMP_OEQ | FCMP_OGE | FCMP_OLE | FCMP_ORD
      | FCMP_UEQ | FCMP_UGE | FCMP_ULE => true
      | _ => false
      end
  | Some Lt =>
      match p with
      | FCMP_OLT | FCMP_OLE | FCMP_ONE | FCMP_ORD
      | FCMP_ULT | FCMP_ULE | FCMP_UNE => true
      | _ => false
      end
  | Some Gt =>
      match p with
      | FCMP_OGT | FCMP_OGE | FCMP_ONE | FCMP_ORD
      | FCMP_UGT | FCMP_UGE | FCMP_UNE => true
      | _ => false
      end
  end.

Definition CreateFCmp (p : FloatPredicate) (a b : Value) : Outcome Value :=
  match a, b with
  | VFP ka x, VFP kb y =>
      if FPType_eqb ka kb
      then Ok (getInt1 (fcmp p (FP.decode ka x) (FP.decode ka y)))
      else Aborts
  | _, _ => Aborts
  end.

(** [bitcast] between a float type and the integer type of its width. *)
Definition CreateBitCast (v : Value) (ty : IrType) : Outcome Value :=
  match v, ty with
  | VFP k x, IntegerTy w => if w =? FP.width k then Ok (VInt w x) else Aborts
  | VInt w x, FPTy k => if w =? FP.width k then Ok (VFP k x) else Aborts
  | VInt w x, IntegerTy w' => if w =? w' then Ok v else Aborts
  | VFP k x, FPTy k' => if FPType_eqb k k' then Ok v else Aborts
  | _, _ => Aborts
  end.

(** [uitofp]: an unsigned integer rounded to the float type. *)
Definition CreateUIToFP (v : Value) (ty : IrType) : Outcome Value :=
  match v, ty with
  | VInt _ x, FPTy k =>
      Ok (VFP k (FP.encode k (binary_normalize (FP.prec k) (FP.emax k) x 0 false)))
  | _, _ => Aborts
  end.

(** [fptrunc] to a narrower float type. *)
Definition CreateFPTrunc (v : Value) (ty : IrType) : Outcome Value :=
  match v, ty with
  | VFP k x, FPTy k' =>
      if FP.width k' <? FP.width k
      then Ok (VFP k' (FP.encode k' (FP.round k' (FP.decode k x))))
      else Aborts
  | _, _ => Aborts
  end.

(** [fneg]: the sign bit is flipped. *)
Definition CreateFNeg (v : Value) : Outcome Value :=
  match v with
  | VFP k x => Ok (VFP k (Z.lxor x (2 ^ (FP.ebits k + FP.mbits k))))
  | _ => Aborts
  end.

(** [extractvalue] and [insertvalue] on the two-field struct of a complex
    number. *)
Definition CreateExtractValue (v : Value) (i : nat) : Outcome Value :=
  match v, i with
  | VStruct v0 _, O => Ok v0
  | VStruct _ v1, S O => Ok v1
  | _, _ => Aborts
  end.

Definition CreateInsertValue (agg v : Value) (i : nat) : Outcome Value :=
  match agg, i with
  | VStruct v0 v1, O =>
      if IrType_eqb (getType v0) (getType v) then Ok (VStruct v v1) else Aborts
  | VStruct v0 v1, S O =>
      if IrType_eqb (getType v1) (getType v) then Ok (VStruct v0 v) else Aborts
  | _, _ => Aborts
  end.

(** [llvm::Constant::getNullValue(type)]: integer zero, [+0.0], or the
    struct of null fields. *)
Fixpoint getNullValue (ty : IrType) : Value :=
  match ty with
  | IntegerTy bits => VInt bits 0
  | FPTy k => VFP k 0
  | StructTy t0 t1 => VStruct (getNullValue t0) (getNullValue t1)
  end.

(** ** The HLO data model *)

(** [xla::PrimitiveType] (xla_data.proto). *)
Inductive PrimitiveType : Type :=
| PRIMITIVE_TYPE_INVALID
| PRED
| S8 | S16 | S32 | S64
| U8 | U16 | U32 | U64
| F16 | F32 | BF16 | F64
| C64
| TUPLE
| OPAQUE.

Definition PrimitiveType_eqb (a b : PrimitiveType) : bool :=
  match a, b with
  | PRIMITIVE_TYPE_INVALID, PRIMITIVE_TYPE_INVALID
  | PRED, PRED | S8, S8 | S16, S16 | S32, S32 | S64, S64
  | U8, U8 | U16, U16 | U32, U32 | U64, U64
  | F16, F16 | F32, F32 | BF16, BF16 | F64, F64
  | C64, C64 | TUPLE, TUPLE | OPAQUE, OPAQUE => true
  | _, _ => false
  end.

(** Modelled from the spec: the predicates of [primitive_util], which is
    not among the sources.  The spec lists the scalar families: signed and
    unsigned integers of a fixed width, IEEE floats of 16/32/64 bits plus
    one custom truncated 16-bit float, a boolean, and a composite
    real+imaginary pair for complex types. *)
Module primitive_util.

Definition IsSignedIntegralType (t : PrimitiveType) : bool :=
  match t with S8 | S16 | S32 | S64 => true | _ => false end.

Definition IsUnsignedIntegralType (t : PrimitiveType) : bool :=
  match t with U8 | U16 | U32 | U64 => true | _ => false end.

Definition IsIntegralType (t : PrimitiveType) : bool :=
  IsSignedIntegralType t || IsUnsignedIntegralType t.

Definition IsFloatingPointType (t : PrimitiveType) : bool :=
  match t with F16 | F32 | BF16 | F64 => true | _ => false end.

Definition IsComplexType (t : PrimitiveType) : bool :=
  match t with C64 => true | _ => false end.

Definition ComplexComponentType (t : PrimitiveType) : Outcome PrimitiveType :=
  match t with C64 => Ok F32 | _ => Aborts end.

End primitive_util.

(** Modelled from the spec: [llvm_ir::PrimitiveTypeToIrType] of
    llvm_util.cc, which is not among the sources.  A boolean is stored in a
    byte, the truncated 16-bit float in a 16-bit integer, and a complex
    number is a pair of 32-bit floats; tuples and opaque values have no
    scalar type. *)
Definition PrimitiveTypeToIrType (t : PrimitiveType) : Outcome IrType :=
  match t with
  | PRED | S8 | U8 => Ok (IntegerTy 8)
  | S16 | U16 | BF16 => Ok (IntegerTy 16)
  | S32 | U32 => Ok (IntegerTy 32)
  | S64 | U64 => Ok (IntegerTy 64)
  | F16 => Ok (FPTy HalfTy)
  | F32 => Ok (FPTy FloatTy)
  | F64 => Ok (FPTy DoubleTy)
  | C64 => Ok (StructTy (FPTy FloatTy) (FPTy FloatTy))
  | PRIMITIVE_TYPE_INVALID | TUPLE | OPAQUE => Aborts
  end.

(** [xla::Shape] of an array: element type, extents, and the
    minor-to-major order of the layout. *)
Record Shape : Type := MkShape {
  element_type : PrimitiveType;
  dimensions : list Z;
  minor_to_major : list Z
}.

Module ShapeUtil.

Definition Rank (s : Shape) : Z := Z.of_nat (length (dimensions s)).

Definition IsScalar (s : Shape) : bool :=
  match dimensions s with [] => true | _ => false end.

Definition ElementIsIntegral (s : Shape) : bool :=
  primitive_util.IsIntegralType (element_type s).

Definition ElementIsComplex (s : Shape) : bool :=
  primitive_util.IsComplexType (element_type s).

End ShapeUtil.

(** [HloOpcode]: the opcodes that [MakeElementGenerator] and the operator
    switches name, and [kOtherOpcode] for every other opcode of
    hlo_opcode.h (convolution, reduce, tuple, while, ...), identified by its
    name. *)
Inductive HloOpcode : Type :=
| kAbs | kRoundNearestAfz | kCeil | kClz | kConvert | kBitcastConvert | kCopy
| kCos | kExp | kExpm1 | kFloor | kImag | kIsFinite | kLog | kLog1p | kNegate
| kNot | kReal | kSign | kSin | kTanh
| kAdd | kAnd | kAtan2 | kComplex | kDivide | kEq | kGe | kGt | kLe | kLt
| kMaximum | kMinimum | kMultiply | kNe | kOr | kXor | kPower | kRemainder
| kShiftLeft | kShiftRightArithmetic | kShiftRightLogical | kSubtract
| kSelect | kClamp | kReducePrecision | kConcatenate | kReverse | kBroadcast
| kSlice | kDynamicSlice | kGather | kDynamicUpdateSlice | kBitcast | kReshape
| kTranspose | kRng | kPad | kDot
| kOtherOpcode (name : string).

Record PaddingConfigDimension : Type := MkPaddingConfigDimension {
  edge_padding_low : Z;
  edge_padding_high : Z;
  interior_padding : Z
}.

Record DotDimensionNumbers : Type := MkDotDimensionNumbers {
  lhs_contracting_dimensions : list Z;
  rhs_contracting_dimensions : list Z
}.

Inductive RandomDistribution : Type :=
| RNG_INVALID
| RNG_UNIFORM
| RNG_NORMAL.

(** An instruction: the pointer identity [unique_id] is the key of the
    operand-generator map; [hlo_dimensions] is the source's
    [hlo->dimensions()]. *)
#[warnings="-register-all"]
Inductive HloInstruction : Type := MkHloInstruction {
  unique_id : positive;
  opcode : HloOpcode;
  shape : Shape;
  operands : list HloInstruction;
  padding_config : list PaddingConfigDimension;
  dot_dimension_numbers : DotDimensionNumbers;
  hlo_dimensions : list Z;
  exponent_bits : Z;
  mantissa_bits : Z;
  random_distribution : RandomDistribution;
  IsFused : bool
}.

(** Element [i] of a [std::vector] or of a repeated protobuf field; reading
    past the end is lost. *)
Definition at_index {A : Type} (l : list A) (i : Z) : Outcome A :=
  if i <? 0 then Aborts
  else match l !! Z.to_nat i with
       | Some a => Ok a
       | None => Aborts
       end.

Definition operand (hlo : HloInstruction) (i : Z) : Outcome HloInstruction :=
  at_index (operands hlo) i.

(** Modelled from the spec: [llvm_ir::IrArray::Index] of ir_array.h, which
    is not among the sources: "an ordered sequence of per-dimension
    integer-valued expressions of a fixed bit-width index type, one per
    rank dimension of some shape, plus an optional equivalent linearized
    scalar form".  Changing the multi-dimensional form drops the linear
    form. *)
Record Index : Type := MkIndex {
  multidim : list Value;
  linear : option Value;
  GetType : IrType
}.

Module IrArray.

(** [Index(index_ty)]: the empty coordinate. *)
Definition EmptyIndex (index_ty : IrType) : Index := MkIndex [] None index_ty.

Definition size (index : Index) : nat := length (multidim index).

(** [index[i]] *)
Definition get (index : Index) (i : Z) : Outcome Value :=
  at_index (multidim index) i.

(** [index[i] = v] *)
Definition set (index : Index) (i : nat) (v : Value) : Outcome Index :=
  if (i <? length (multidim index))%nat
  then Ok (MkIndex (<[i := v]> (multidim index)) None (GetType index))
  else Aborts.

Definition push_back (index : Index) (v : Value) : Index :=
  MkIndex (multidim index ++ [v]) None (GetType index).

(** [InsertAt(i, v)] checks [i <= size()]. *)
Definition InsertAt (index : Index) (i : Z) (v : Value) : Outcome Index :=
  if (0 <=? i) && (i <=? Z.of_nat (size index))
  then Ok (MkIndex (take (Z.to_nat i) (multidim index) ++ v
                      :: drop (Z.to_nat i) (multidim index))
             None (GetType index))
  else Aborts.

Definition GetConstantWithIndexType (index : Index) (c : Z) : Outcome Value :=
  ConstantInt (GetType index) c.

End IrArray.

(** [llvm_ir::ElementGenerator] and
    [ElementalIrEmitter::HloToElementGeneratorMap]. *)
Definition ElementGenerator : Type := Index -> Outcome Value.

Abbreviation HloToElementGeneratorMap := (gmap positive ElementGenerator).

(** [operand_to_generator.at(hlo)]: a missing key throws. *)
Definition generator_at (operand_to_generator : HloToElementGeneratorMap)
    (hlo : HloInstruction) : Outcome ElementGenerator :=
  match operand_to_generator !! unique_id hlo with
  | Some g => Ok g
  | None => Aborts
  end.

(** ** Collaborators *)

Inductive Intrinsic : Type :=
| intrinsic_fabs | intrinsic_exp | intrinsic_log | intrinsic_sin
| intrinsic_cos | intrinsic_pow | intrinsic_sqrt | intrinsic_floor
| intrinsic_ceil | intrinsic_round.

(** What the emitter takes from code that is not part of the sources: the
    math library behind the LLVM intrinsics, helpers of [ShapeUtil],
    [LayoutUtil], [HloInstruction], [IrArray::Index] and llvm_util, the
    standard library's Mersenne twister, and the emitters of this file that
    no property below depends on. *)
Class Collaborators : Type := {
  HloOpcodeString : HloOpcode -> string;
  IsElementwise : HloInstruction -> bool;
  CompatibleIgnoringElementType : Shape -> Shape -> bool;
  LayoutUtil_Equal : Shape -> Shape -> bool;
  libm : Intrinsic -> list Value -> Outcome Value;
  CreateFRem : Value -> Value -> Outcome Value;
  llvm_ir_EmitFloatMax : Value -> Value -> Outcome Value;
  llvm_ir_EmitFloatMin : Value -> Value -> Outcome Value;
  Linearize : Index -> list Z -> Outcome Value;
  SourceIndexOfBroadcast : Index -> Shape -> Shape -> list Z -> Outcome Index;
  SourceIndexOfSlice : Index -> HloInstruction -> Outcome Index;
  SourceIndexOfBitcast : Index -> Shape -> Shape -> Outcome Index;
  SourceIndexOfReshape : Index -> Shape -> Shape -> Outcome Index;
  SourceIndexOfTranspose : Index -> Shape -> Shape -> list Z -> Outcome Index;
  mt19937_64 : Type;
  mt19937_64_next : mt19937_64 -> Z * mt19937_64;
  EmitIntegerUnaryOp : HloInstruction -> Value -> Outcome Value;
  EmitComplexUnaryOp : HloInstruction -> Value -> Outcome Value;
  EmitFloatConvert : HloInstruction -> Value -> Outcome Value;
  EmitFloatBitcastConvert : HloInstruction -> Value -> Outcome Value;
  EmitElementalClamp :
    HloInstruction -> HloToElementGeneratorMap -> Index -> Outcome Value;
  EmitElementalConcatenate :
    HloInstruction -> HloToElementGeneratorMap -> Index -> Outcome Value;
  EmitElementalDynamicSlice :
    HloInstruction -> HloToElementGeneratorMap -> Index -> Outcome Value;
  EmitElementalGather :
    HloInstruction -> HloToElementGeneratorMap -> Index -> Outcome Value;
  EmitElementalDynamicUpdateSlice :
    HloInstruction -> HloToElementGeneratorMap -> Index -> Outcome Value
}.

(** [llvm_ir::EmitCallToIntrinsic]; [llvm.fabs] is exact. *)
Definition EmitCallToIntrinsic `{Collaborators} (f : Intrinsic)
    (args : list Value) : Outcome Value :=
  match f, args with
  | intrinsic_fabs, [v] => EmitFabs v
  | intrinsic_fabs, _ => Aborts
  | _, _ => libm f args
  end.

(** ** Precision reduction (elemental_ir_emitter.cc, anonymous namespace) *)

Definition uint32_t (z : Z) : Z := Int.wrap 32 z.

(** [no_nans] is [b->getFastMathFlags().noNaNs()]. *)
Definition EmitReducePrecisionFloat (no_nans : bool) (x : Value)
    (exponent_bits mantissa_bits : Z) : Outcome Value :=
  (* Integer and float types for casting and constant generation. *)
  let float_type := getType x in
  let int_type := IntegerTy 32 in
  (* Cast the input value to an integer for bitwise manipulation. *)
  x_as_int ← CreateBitCast x int_type;
  x_as_int ←
    (if mantissa_bits <? 23 then
       (* Last remaining mantissa bit. *)
       let last_mantissa_bit_mask := uint32_t (Z.shiftl 1 (23 - mantissa_bits)) in
       (* Rounding bias for round-to-nearest with ties to even: 0111...
          plus one bit if the last remaining mantissa bit is 1. *)
       let base_rounding_bias :=
         uint32_t (Z.shiftr last_mantissa_bit_mask 1 - 1) in
       mask ← ConstantInt int_type last_mantissa_bit_mask;
       masked ← CreateAnd x_as_int mask;
       shift ← ConstantInt int_type (23 - mantissa_bits);
       x_last_mantissa_bit ← CreateLShr masked shift;
       base ← ConstantInt int_type base_rounding_bias;
       x_rounding_bias ← CreateAdd x_last_mantissa_bit base;
       (* Add rounding bias, and mask out truncated bits. *)
       let truncation_mask := uint32_t (Z.lnot (last_mantissa_bit_mask - 1)) in
       x_as_int ← CreateAdd x_as_int x_rounding_bias;
       tmask ← ConstantInt int_type truncation_mask;
       CreateAnd x_as_int tmask
     else Ok x_as_int);
  x_as_int ←
    (if exponent_bits <? 8 then
       (* Masks for f32 values. *)
       let f32_sign_bit_mask := uint32_t (Z.shiftl 1 31) in
       let f32_exp_bits_mask := uint32_t (Z.shiftl 255 23) in
       let f32_exponent_bias := uint32_t (Z.shiftl 1 7 - 1) in
       let reduced_exponent_bias :=
         uint32_t (Z.shiftl 1 (exponent_bits - 1) - 1) in
       let reduced_max_exponent :=
         uint32_t (f32_exponent_bias + reduced_exponent_bias) in
       let reduced_min_exponent :=
         uint32_t (f32_exponent_bias - reduced_exponent_bias) in
       (* Do we overflow or underflow? *)
       exp_mask ← ConstantInt int_type f32_exp_bits_mask;
       x_exponent ← CreateAnd x_as_int exp_mask;
       max_c ← ConstantInt int_type (uint32_t (Z.shiftl reduced_max_exponent 23));
       x_overflows ← CreateICmp ICMP_UGT x_exponent max_c;
       min_c ← ConstantInt int_type (uint32_t (Z.shiftl reduced_min_exponent 23));
       x_underflows ← CreateICmp ICMP_ULE x_exponent min_c;
       (* Compute appropriately-signed values of zero and infinity. *)
       sign_mask ← ConstantInt int_type f32_sign_bit_mask;
       x_signed_zero ← CreateAnd x_as_int sign_mask;
       x_signed_inf ← CreateOr x_signed_zero exp_mask;
       (* Force to zero or infinity if overflow or underflow. *)
       x_as_int ← CreateSelect x_overflows x_signed_inf x_as_int;
       CreateSelect x_underflows x_signed_zero x_as_int
     else Ok x_as_int);
  (* Cast the result back to a floating-point type. *)
  result ← CreateBitCast x_as_int float_type;
  (* Correct result for NaN inputs. *)
  if negb no_nans then
    x_is_nan ← CreateFCmp FCMP_UNO x x;
    if 0 <? mantissa_bits then
      CreateSelect x_is_nan x result
    else
      inf ← ConstantFP_getInfinity float_type;
      CreateSelect x_is_nan inf result
  else Ok result.

Definition sf_is_nan (x : spec_float) : bool :=
  match x with S754_nan => true | _ => false end.

(** The bit-level function of [EmitReducePrecisionFloat] on a 32-bit
    pattern [x], in arithmetic form: rounding of the mantissa to
    [mantissa_bits] bits, saturation of the exponent to [exponent_bits]
    bits, and the NaN correction. *)
Module ReducePrecision.

Definition round_mantissa (mantissa_bits x : Z) : Z :=
  if mantissa_bits <? 23 then
    let k := 23 - mantissa_bits in
    let s := Int.wrap 32 (x + ((x / 2 ^ k) mod 2 + (2 ^ (k - 1) - 1))) in
    s - s mod 2 ^ k
  else x.

Definition saturate_exponent (exponent_bits y : Z) : Z :=
  if exponent_bits <? 8 then
    let x_exponent := Z.land y 2139095040 in
    let x_signed_zero := Z.land y 2147483648 in
    if x_exponent <=? (127 - (2 ^ (exponent_bits - 1) - 1)) * 2 ^ 23
    then x_signed_zero
    else if (127 + (2 ^ (exponent_bits - 1) - 1)) * 2 ^ 23 <? x_exponent
         then Z.lor x_signed_zero 2139095040
         else y
  else y.

Definition bits (no_nans : bool) (exponent_bits mantissa_bits x : Z) : Z :=
  let r := saturate_exponent exponent_bits (round_mantissa mantissa_bits x) in
  if no_nans then r
  else if FP.is_nan FloatTy x
       then if 0 <? mantissa_bits then x else FP.infinity FloatTy false
       else r.

End ReducePrecision.

(** ** Scalar operators (elemental_ir_emitter.cc) *)

Section ScalarOperators.

Context `{Collaborators}.

Definition EmitExtractReal (value : Value) : Outcome Value :=
  CreateExtractValue value 0.

Definition EmitExtractImag (value : Value) : Outcome Value :=
  CreateExtractValue value 1.

(** [imag] is [None] for the source's [nullptr]. *)
Definition EmitComposeComplex (op : HloInstruction) (real : Value)
    (imag : option Value) : Outcome Value :=
  cplx_type ← PrimitiveTypeToIrType (element_type (shape op));
  complex ← CreateInsertValue (getNullValue cplx_type) real 0;
  match imag with
  | Some imag => CreateInsertValue complex imag 1
  | None => Ok complex
  end.

(** Modelled from the spec: [llvm_ir::EmitComparison] of llvm_util.cc,
    which is not among the sources: the comparison instruction with the
    given predicate, its one-bit result stored in the byte of a boolean. *)
Definition EmitComparison (predicate : IntPredicate + FloatPredicate)
    (lhs_value rhs_value : Value) : Outcome Value :=
  comparison_result ←
    match predicate with
    | inl p => CreateICmp p lhs_value rhs_value
    | inr p => CreateFCmp p lhs_value rhs_value
    end;
  pred_type ← PrimitiveTypeToIrType PRED;
  CreateZExt comparison_result pred_type.

Definition EmitLog (prim_type : PrimitiveType) (value : Value) : Outcome Value :=
  EmitCallToIntrinsic intrinsic_log [value].

Definition EmitLog1p (prim_type : PrimitiveType) (value : Value)
  : Outcome Value :=
  let x := value in
  type ← PrimitiveTypeToIrType prim_type;
  one ← ConstantFP type double_1_0;
  negative_half ← ConstantFP type (SFopp double_0_5);
  (* When x is large, the naive evaluation of ln(x + 1) is more accurate
     than the Taylor series. *)
  x_plus_one ← CreateFAdd x one;
  for_large_x ← EmitLog prim_type x_plus_one;
  (* The Taylor series for ln(x+1) is x - x^2/2 - x^3/3 + .... *)
  t ← CreateFMul negative_half x;
  t ← CreateFAdd t one;
  for_small_x ← CreateFMul t x;
  let kAntilogarithmIsSmallThreshold := double_1em4 in
  abs_x ← EmitCallToIntrinsic intrinsic_fabs [value];
  threshold ← ConstantFP type kAntilogarithmIsSmallThreshold;
  x_is_small ← CreateFCmp FCMP_OLT abs_x threshold;
  Select x_is_small for_small_x for_large_x.

Definition EmitSin (prim_type : PrimitiveType) (value : Value) : Outcome Value :=
  EmitCallToIntrinsic intrinsic_sin [value].

Definition EmitCos (prim_type : PrimitiveType) (value : Value) : Outcome Value :=
  EmitCallToIntrinsic intrinsic_cos [value].

Definition EmitExp (prim_type : PrimitiveType) (value : Value) : Outcome Value :=
  EmitCallToIntrinsic intrinsic_exp [value].

Definition EmitExpm1 (prim_type : PrimitiveType) (value : Value)
  : Outcome Value :=
  let x := value in
  type ← PrimitiveTypeToIrType prim_type;
  one ← ConstantFP type double_1_0;
  half ← ConstantFP type double_0_5;
  (* When the exponent is large, the naive evaluation of e^(x) - 1 is more
     accurate than the Taylor series. *)
  exp_x ← EmitExp prim_type value;
  for_large_x ← CreateFSub exp_x one;
  (* The Taylor series for exp(x) is 1 + x + x^2/2 + x^3/6 + ....
     We want exp(x)-1 which is x + x^2/2 + x^3/6 + .... *)
  x_squared ← CreateFAdd x x;
  x_squared_over_two ← CreateFMul x_squared half;
  for_small_x ← CreateFAdd x x_squared_over_two;
  let kExponentIsSmallThreshold := double_1em5 in
  abs_x ← EmitCallToIntrinsic intrinsic_fabs [value];
  threshold ← ConstantFP type kExponentIsSmallThreshold;
  x_is_small ← CreateFCmp FCMP_OLT abs_x threshold;
  Select x_is_small for_small_x for_large_x.

Definition EmitPow (prim_type : PrimitiveType) (lhs rhs : Value)
  : Outcome Value :=
  EmitCallToIntrinsic intrinsic_pow [lhs; rhs].

Definition EmitAtan2 (prim_type : PrimitiveType) (lhs rhs : Value)
  : Outcome Value :=
  Fails (Unimplemented "atan2").

Definition EmitTanh (prim_type : PrimitiveType) (value : Value)
  : Outcome Value :=
  Fails (Unimplemented "tanh").

Definition EmitReducePrecision (no_nans : bool) (hlo : HloInstruction)
    (x : Value) : Outcome Value :=
  op0 ← operand hlo 0;
  if negb (PrimitiveType_eqb (element_type (shape op0)) F32) then
    Fails (Unimplemented "reduce-precision only implemented for F32")
  else
    EmitReducePrecisionFloat no_nans x (exponent_bits hlo) (mantissa_bits hlo).

Definition EmitFloatMax (lhs_value rhs_value : Value) : Outcome Value :=
  llvm_ir_EmitFloatMax lhs_value rhs_value.

Definition EmitFloatMin (lhs_value rhs_value : Value) : Outcome Value :=
  llvm_ir_EmitFloatMin lhs_value rhs_value.

(** The [float] literals of [EmitErfInv], as bit patterns. *)
Definition getFloat (pattern : Z) : Value := VFP FloatTy pattern.

Definition erfinv_lq : list Z :=
  [854680968; 884493110; 3060560727; 3063110337; 962933467; 3131331592;
   3146310895; 1048350563; 1069559343].

Definition erfinv_gq : list Z :=
  [3109154971; 953398635; 984669298; 3144728039; 1002181243; 3153708503;
   1008379262; 1065367259; 1077235582].

Fixpoint multiply_add_loop (coefficients : list Z) (w p : Value)
  : Outcome Value :=
  match coefficients with
  | [] => Ok p
  | coefficient :: rest =>
      pw ← CreateFMul p w;
      p ← CreateFAdd pw (getFloat coefficient);
      multiply_add_loop rest w p
  end.

Definition multiply_add (coefficients : list Z) (w : Value) : Outcome Value :=
  match coefficients with
  | [] => Aborts
  | front :: rest => multiply_add_loop rest w (getFloat front)
  end.

(** Approximation for inverse error function from Giles, M.,
    "Approximating the erfinv function". *)
Definition EmitErfInv (prim_type : PrimitiveType) (x : Value) : Outcome Value :=
  if negb (PrimitiveType_eqb prim_type F32) then
    Fails (Unimplemented
             "Inverse erf is only implemented for element type F32.")
  else
    one_minus_x ← CreateFSub (getFloat 1065353216) x;
    one_plus_x ← CreateFAdd (getFloat 1065353216) x;
    product ← CreateFMul one_minus_x one_plus_x;
    log_product ← libm intrinsic_log [product];
    w ← CreateFNeg log_product;
    w_less_than_five ← CreateFCmp FCMP_OLT w (getFloat 1084227584);
    (* true block *)
    lw ← CreateFSub w (getFloat 1075838976);
    p_true ← multiply_add erfinv_lq lw;
    (* false block *)
    sqrt_w ← libm intrinsic_sqrt [w];
    gw ← CreateFSub sqrt_w (getFloat 1077936128);
    p_false ← multiply_add erfinv_gq gw;
    (* after block *)
    p ← IfThenElse w_less_than_five p_true p_false;
    CreateFMul p x.

(** [erfcinv(value) = erfinv(1.0 - value)]. *)
Definition EmitErfcInv (prim_type : PrimitiveType) (value : Value)
  : Outcome Value :=
  type ← PrimitiveTypeToIrType prim_type;
  one ← ConstantFP type double_1_0;
  one_minus_value ← CreateFSub one value;
  EmitErfInv prim_type one_minus_value.

Definition EmitFloatUnaryOp (op : HloInstruction) (operand_value : Value)
  : Outcome Value :=
  match opcode op with
  | kConvert => EmitFloatConvert op operand_value
  | kBitcastConvert => EmitFloatBitcastConvert op operand_value
  | kExp => EmitExp (element_type (shape op)) operand_value
  | kExpm1 => EmitExpm1 (element_type (shape op)) operand_value
  | kLog => EmitLog (element_type (shape op)) operand_value
  | kLog1p => EmitLog1p (element_type (shape op)) operand_value
  | kCos => EmitCos (element_type (shape op)) operand_value
  | kSin => EmitSin (element_type (shape op)) operand_value
  | kTanh => EmitTanh (element_type (shape op)) operand_value
  | kFloor => EmitCallToIntrinsic intrinsic_floor [operand_value]
  | kCeil => EmitCallToIntrinsic intrinsic_ceil [operand_value]
  | kAbs => EmitCallToIntrinsic intrinsic_fabs [operand_value]
  | kRoundNearestAfz => EmitCallToIntrinsic intrinsic_round [operand_value]
  | kSign =>
      let type := getType operand_value in
      zero ← ConstantFP type (S754_zero false);
      oeq ← CreateFCmp FCMP_OEQ operand_value zero;
      olt ← CreateFCmp FCMP_OLT operand_value zero;
      minus_one ← ConstantFP type (SFopp double_1_0);
      one ← ConstantFP type double_1_0;
      inner ← Select olt minus_one one;
      Select oeq zero inner
  | kIsFinite =>
      (* abs(x) o!= inf: false if either operand is NaN. *)
      let type := getType operand_value in
      abs_value ← EmitCallToIntrinsic intrinsic_fabs [operand_value];
      infinity ← ConstantFP_getInfinity type;
      not_infinite ← CreateFCmp FCMP_ONE abs_value infinity;
      pred_type ← PrimitiveTypeToIrType PRED;
      CreateZExt not_infinite pred_type
  | kNegate => CreateFNeg operand_value
  | kReal => Ok operand_value
  | kImag => ConstantFP (getType operand_value) (S754_zero false)
  | _ =>
      Fails (Unimplemented
               (String.append "unary floating-point op '"
                  (String.append (HloOpcodeString (opcode op)) "'")))
  end.

Definition EmitUnaryOp (op : HloInstruction) (operand_value : Value)
  : Outcome Value :=
  match opcode op with
  | kCopy => Ok operand_value
  | _ =>
      op0 ← operand op 0;
      if ShapeUtil.ElementIsIntegral (shape op0)
         || PrimitiveType_eqb (element_type (shape op0)) PRED
      then EmitIntegerUnaryOp op operand_value
      else if ShapeUtil.ElementIsComplex (shape op0)
      then EmitComplexUnaryOp op operand_value
      else EmitFloatUnaryOp op operand_value
  end.

Definition EmitFloatBinaryOp (op : HloInstruction)
    (lhs_value rhs_value : Value) : Outcome Value :=
  match opcode op with
  | kComplex => EmitComposeComplex op lhs_value (Some rhs_value)
  | kAdd => CreateFAdd lhs_value rhs_value
  | kSubtract => CreateFSub lhs_value rhs_value
  | kMultiply => CreateFMul lhs_value rhs_value
  | kDivide => CreateFDiv lhs_value rhs_value
  | kRemainder => CreateFRem lhs_value rhs_value
  (* Ordered comparisons for everything except kNe, where the comparison
     is unordered: x != y is equivalent to !(x == y). *)
  | kEq => EmitComparison (inr FCMP_OEQ) lhs_value rhs_value
  | kNe => EmitComparison (inr FCMP_UNE) lhs_value rhs_value
  | kLt => EmitComparison (inr FCMP_OLT) lhs_value rhs_value
  | kGt => EmitComparison (inr FCMP_OGT) lhs_value rhs_value
  | kLe => EmitComparison (inr FCMP_OLE) lhs_value rhs_value
  | kGe => EmitComparison (inr FCMP_OGE) lhs_value rhs_value
  | kMaximum => EmitFloatMax lhs_value rhs_value
  | kMinimum => EmitFloatMin lhs_value rhs_value
  | kPower => EmitPow (element_type (shape op)) lhs_value rhs_value
  | kAtan2 => EmitAtan2 (element_type (shape op)) lhs_value rhs_value
  | _ =>
      Fails (Unimplemented
               (String.append "binary floating point op '"
                  (String.append (HloOpcodeString (opcode op)) "'")))
  end.

End ScalarOperators.

Section BinaryOperators.

Context `{Collaborators}.

Definition EmitComplexBinaryOp (op : HloInstruction)
    (lhs_value rhs_value : Value) : Outcome Value :=
  match opcode op with
  | kAdd =>
      a ← EmitExtractReal lhs_value; c ← EmitExtractReal rhs_value;
      re ← CreateFAdd a c;
      b ← EmitExtractImag lhs_value; d ← EmitExtractImag rhs_value;
      im ← CreateFAdd b d;
      EmitComposeComplex op re (Some im)
  | kSubtract =>
      a ← EmitExtractReal lhs_value; c ← EmitExtractReal rhs_value;
      re ← CreateFSub a c;
      b ← EmitExtractImag lhs_value; d ← EmitExtractImag rhs_value;
      im ← CreateFSub b d;
      EmitComposeComplex op re (Some im)
  | kMultiply =>
      a ← EmitExtractReal lhs_value; c ← EmitExtractReal rhs_value;
      b ← EmitExtractImag lhs_value; d ← EmitExtractImag rhs_value;
      ac ← CreateFMul a c; bd ← CreateFMul b d; re ← CreateFSub ac bd;
      ad ← CreateFMul a d; bc ← CreateFMul b c; im ← CreateFAdd ad bc;
      EmitComposeComplex op re (Some im)
  | kDivide =>
      (* (a+bi) / (c+di) = ((ac + bd) + (bc - ad)i) / (c^2 + d^2) *)
      a ← EmitExtractReal lhs_value; c ← EmitExtractReal rhs_value;
      b ← EmitExtractImag lhs_value; d ← EmitExtractImag rhs_value;
      cc ← CreateFMul c c; dd ← CreateFMul d d;
      rhs_sum_sq ← CreateFAdd cc dd;
      let type := getType rhs_sum_sq in
      zero ← ConstantFP type (S754_zero false);
      oeq ← CreateFCmp FCMP_OEQ rhs_sum_sq zero;
      real_inf_or_nan ← CreateFDiv a zero;
      imag_inf_or_nan ← CreateFDiv b zero;
      if_zero ← EmitComposeComplex op real_inf_or_nan (Some imag_inf_or_nan);
      ac ← CreateFMul a c; bd ← CreateFMul b d; num_re ← CreateFAdd ac bd;
      re ← CreateFDiv num_re rhs_sum_sq;
      bc ← CreateFMul b c; ad ← CreateFMul a d; num_im ← CreateFSub bc ad;
      im ← CreateFDiv num_im rhs_sum_sq;
      otherwise ← EmitComposeComplex op re (Some im);
      Select oeq if_zero otherwise
  | kEq =>
      a ← EmitExtractReal lhs_value; c ← EmitExtractReal rhs_value;
      re_eq ← EmitComparison (inr FCMP_OEQ) a c;
      b ← EmitExtractImag lhs_value; d ← EmitExtractImag rhs_value;
      im_eq ← EmitComparison (inr FCMP_OEQ) b d;
      CreateAnd re_eq im_eq
  | kNe =>
      a ← EmitExtractReal lhs_value; c ← EmitExtractReal rhs_value;
      re_ne ← EmitComparison (inr FCMP_UNE) a c;
      b ← EmitExtractImag lhs_value; d ← EmitExtractImag rhs_value;
      im_ne ← EmitComparison (inr FCMP_UNE) b d;
      CreateOr re_ne im_ne
  | kPower =>
      (* (a+bi)^(c+di) =
           (a*a+b*b)^(0.5c) * exp(-d*atan2(b,a)) * (cos(q) + i*sin(q)),
         where q = c*atan2(b,a)+0.5d*ln(a*a+b*b) *)
      component_type ←
        primitive_util.ComplexComponentType (element_type (shape op));
      a ← EmitExtractReal lhs_value; b ← EmitExtractImag lhs_value;
      c ← EmitExtractReal rhs_value; d ← EmitExtractImag rhs_value;
      aa ← CreateFMul a a; bb ← CreateFMul b b; aa_p_bb ← CreateFAdd aa bb;
      one_half ← ConstantFP (getType a) double_0_5;
      half_c ← CreateFMul one_half c;
      aa_p_bb_to_half_c ← EmitPow component_type aa_p_bb half_c;
      neg_d ← CreateFNeg d;
      arg_lhs ← EmitAtan2 component_type b a;
      neg_d_arg_lhs ← CreateFMul neg_d arg_lhs;
      e_to_neg_d_arg_lhs ← EmitExp component_type neg_d_arg_lhs;
      coeff ← CreateFMul aa_p_bb_to_half_c e_to_neg_d_arg_lhs;
      ln_aa_p_bb ← EmitLog component_type aa_p_bb;
      half_d ← CreateFMul one_half d;
      c_arg ← CreateFMul c arg_lhs; hd_ln ← CreateFMul half_d ln_aa_p_bb;
      q ← CreateFAdd c_arg hd_ln;
      cos_q ← EmitCos component_type q;
      sin_q ← EmitSin component_type q;
      re ← CreateFMul coeff cos_q; im ← CreateFMul coeff sin_q;
      EmitComposeComplex op re (Some im)
  | _ =>
      Fails (Unimplemented
               (String.append "binary complex op '"
                  (String.append (HloOpcodeString (opcode op)) "'")))
  end.

Definition SaturateShiftIfNecessary (lhs rhs shift_result : Value)
    (saturate_to_sign_bit : bool) : Outcome Value :=
  match getType lhs with
  | IntegerTy integer_bitsize =>
      let integer_type := IntegerTy integer_bitsize in
      integer_bitsize_constant ← ConstantInt integer_type integer_bitsize;
      zero ← ConstantInt integer_type 0;
      minus_one ← ConstantInt integer_type (-1);
      saturated_value ←
        (if saturate_to_sign_bit then
           lhs_negative ← CreateICmp ICMP_SLT lhs zero;
           CreateSelect lhs_negative minus_one zero
         else Ok zero);
      shift_amt_in_range ← CreateICmp ICMP_ULT rhs integer_bitsize_constant;
      CreateSelect shift_amt_in_range shift_result saturated_value
  | _ => Aborts
  end.

Definition EmitIntegralMax (lhs_value rhs_value : Value) (is_signed : bool)
  : Outcome Value :=
  c ← CreateICmp (if is_signed then ICMP_SGE else ICMP_UGE) lhs_value rhs_value;
  Select c lhs_value rhs_value.

Definition EmitIntegralMin (lhs_value rhs_value : Value) (is_signed : bool)
  : Outcome Value :=
  c ← CreateICmp (if is_signed then ICMP_SLE else ICMP_ULE) lhs_value rhs_value;
  Select c lhs_value rhs_value.

Definition EmitIntegerBinaryOp (op : HloInstruction)
    (lhs_value rhs_value : Value) (is_signed : bool) : Outcome Value :=
  match opcode op with
  | kAdd => CreateAdd lhs_value rhs_value
  | kSubtract => CreateSub lhs_value rhs_value
  | kMultiply => CreateMul lhs_value rhs_value
  | kDivide => EmitIntegerDivide lhs_value rhs_value is_signed
  | kRemainder => EmitIntegerRemainder lhs_value rhs_value is_signed
  | kEq => EmitComparison (inl ICMP_EQ) lhs_value rhs_value
  | kNe => EmitComparison (inl ICMP_NE) lhs_value rhs_value
  | kLt =>
      EmitComparison (inl (if is_signed then ICMP_SLT else ICMP_ULT))
        lhs_value rhs_value
  | kGt =>
      EmitComparison (inl (if is_signed then ICMP_SGT else ICMP_UGT))
        lhs_value rhs_value
  | kLe =>
      EmitComparison (inl (if is_signed then ICMP_SLE else ICMP_ULE))
        lhs_value rhs_value
  | kGe =>
      EmitComparison (inl (if is_signed then ICMP_SGE else ICMP_UGE))
        lhs_value rhs_value
  | kMinimum => EmitIntegralMin lhs_value rhs_value is_signed
  | kMaximum => EmitIntegralMax lhs_value rhs_value is_signed
  | kAnd => CreateAnd lhs_value rhs_value
  | kOr => CreateOr lhs_value rhs_value
  | kXor => CreateXor lhs_value rhs_value
  (* Shifting out bits >= the number of bits in the type being shifted
     produces a poison value, replaced with a constant. *)
  | kShiftRightArithmetic =>
      shift_result ← CreateAShr lhs_value rhs_value;
      SaturateShiftIfNecessary lhs_value rhs_value shift_result true
  | kShiftLeft =>
      shift_result ← CreateShl lhs_value rhs_value;
      SaturateShiftIfNecessary lhs_value rhs_value shift_result false
  | kShiftRightLogical =>
      shift_result ← CreateLShr lhs_value rhs_value;
      SaturateShiftIfNecessary lhs_value rhs_value shift_result false
  | _ =>
      Fails (Unimplemented
               (String.append "binary integer op '"
                  (String.append (HloOpcodeString (opcode op)) "'")))
  end.

Definition EmitBinaryOp (op : HloInstruction) (lhs_value rhs_value : Value)
  : Outcome Value :=
  op0 ← operand op 0;
  let operand_type := element_type (shape op0) in
  if ShapeUtil.ElementIsIntegral (shape op0)
     || PrimitiveType_eqb operand_type PRED
  then EmitIntegerBinaryOp op lhs_value rhs_value
         (primitive_util.IsSignedIntegralType operand_type)
  else if primitive_util.IsComplexType operand_type
  then EmitComplexBinaryOp op lhs_value rhs_value
  else EmitFloatBinaryOp op lhs_value rhs_value.

(** ** Index of an operand of an elementwise operation *)

Definition ElementwiseSourceIndex (target_index : Index)
    (hlo : HloInstruction) (operand_no : Z) : Outcome Index :=
  if negb (IsElementwise hlo) then Aborts
  else
    op ← operand hlo operand_no;
    let operand_shape := shape op in
    (* If the operand is scalar, the source index is always {}. *)
    if ShapeUtil.IsScalar operand_shape then
      Ok (IrArray.EmptyIndex (GetType target_index))
    (* If no implicit broadcast is needed for this operand, returns the
       target index as the source index. *)
    else if CompatibleIgnoringElementType operand_shape (shape hlo)
            && LayoutUtil_Equal operand_shape (shape hlo)
    then Ok target_index
    (* If implicit broadcast is needed, the source dimensions that are
       broadcast have index 0. *)
    else if negb (ShapeUtil.Rank operand_shape =? ShapeUtil.Rank (shape hlo))
    then Aborts
    else
      foldl
        (fun (acc : Outcome Index) (i : nat) =>
           source_index ← acc;
           hlo_dim ← at_index (dimensions (shape hlo)) (Z.of_nat i);
           operand_dim ← at_index (dimensions operand_shape) (Z.of_nat i);
           if hlo_dim =? operand_dim then
             v ← IrArray.get target_index (Z.of_nat i);
             Ok (IrArray.push_back source_index v)
           else if negb (1 =? operand_dim) then Aborts
           else
             zero ← IrArray.GetConstantWithIndexType target_index 0;
             Ok (IrArray.push_back source_index zero))
        (Ok (IrArray.EmptyIndex (GetType target_index)))
        (seq 0 (Z.to_nat (ShapeUtil.Rank (shape hlo)))).

End BinaryOperators.

(** ** Random numbers (the Philox 4x32_10 generator) *)

(** What an emitter instance carries besides the instruction: the
    fast-math flag of the builder, the seed of the module configuration,
    the value loaded from the global Philox state variable, and the
    contents of the stack slot ["sample"] (four 32-bit words) when the
    generator is entered. *)
Record Emitter : Type := MkEmitter {
  no_nans : bool;
  hlo_module_config_seed : Z;
  rng_state_value : Value;
  sample_alloca : list Value
}.

Section Rng.

Context `{Collaborators}.

(** The two random engines: the one of the module ([RandomNew64]) and the
    process-wide one of [GlobalRandomValue]. *)
Record RandomState : Type := MkRandomState {
  module_rng : mt19937_64;
  global_rng : mt19937_64
}.

Definition RandomNew64 (st : RandomState) : Z * RandomState :=
  let '(v, rng) := mt19937_64_next (module_rng st) in
  (v, MkRandomState rng (global_rng st)).

Definition GlobalRandomValue (st : RandomState) : Z * RandomState :=
  let '(v, rng) := mt19937_64_next (global_rng st) in
  (v, MkRandomState (module_rng st) rng).

Definition ConvertValueForDistribution (hlo : HloInstruction)
    (operand_to_generator : HloToElementGeneratorMap) (index : Index)
    (raw_value : Value) : Outcome Value :=
  op0 ← operand hlo 0;
  g0 ← generator_at operand_to_generator op0;
  a_or_mean ← g0 index;
  op1 ← operand hlo 1;
  g1 ← generator_at operand_to_generator op1;
  b_or_sigma ← g1 index;
  let elem_prim_ty := element_type (shape hlo) in
  elem_ir_ty ← PrimitiveTypeToIrType elem_prim_ty;
  let is_float := match elem_ir_ty with FPTy _ => true | _ => false end in
  (* Convert raw integer to float in range [0, 1) if the element is a
     float. *)
  elem_value ←
    (if is_float then
       match getType raw_value with
       | IntegerTy raw_value_size_in_bits =>
           if negb ((raw_value_size_in_bits =? 32)
                    || (raw_value_size_in_bits =? 64)) then Aborts
           else
             let ty := if raw_value_size_in_bits =? 32
                       then FPTy FloatTy else FPTy DoubleTy in
             v ← CreateUIToFP raw_value ty;
             exp2 ← ConstantFP ty
                      (binary_normalize 53 1024 1 raw_value_size_in_bits false);
             v ← CreateFDiv v exp2;
             if IrType_eqb elem_ir_ty (getType v) then Ok v
             else CreateFPTrunc v elem_ir_ty
       | _ => Aborts
       end
     else Ok raw_value);
  (* Convert the value for the requested distribution. *)
  match random_distribution hlo with
  | RNG_UNIFORM =>
      if is_float then
        range ← CreateFSub b_or_sigma a_or_mean;
        scaled ← CreateFMul range elem_value;
        CreateFAdd scaled a_or_mean
      else
        (* a + raw_value % range, biased when range is not a power of 2 *)
        range ← CreateSub b_or_sigma a_or_mean;
        r ← CreateURem elem_value range;
        CreateAdd a_or_mean r
  | RNG_NORMAL =>
      two ← ConstantFP elem_ir_ty (double_of_Z 2);
      two_u ← CreateFMul two elem_value;
      r ← EmitErfcInv elem_prim_ty two_u;
      scaled ← CreateFMul r b_or_sigma;
      CreateFAdd scaled a_or_mean
  | RNG_INVALID =>
      Fails (InvalidArgument "unhandled distribution RNG_INVALID")
  end.

(** The number of elements in each 128 bit sample; [LOG(FATAL)] for a type
    the random operation does not support. *)
Definition GetNumberOfElementsPerPhiloxRngSample (elem_prim_ty : PrimitiveType)
  : Outcome Z :=
  match elem_prim_ty with
  | U32 | S32 | F32 | F16 => Ok 4
  | U64 | S64 | F64 => Ok 2
  | _ => Aborts
  end.

(** Modelled from the spec: [llvm_ir::SplitInt64ToInt32s] and
    [llvm_ir::UMulLowHigh32] of llvm_util.cc, which is not among the
    sources: the low and the high 32-bit word of a 64-bit value, and the
    "multiply-high-low" step, the two words of the 64-bit product of two
    32-bit values. *)
Definition SplitInt64ToInt32s (value_64bits : Value) : Outcome (Value * Value) :=
  low_32bits ← CreateTrunc value_64bits (IntegerTy 32);
  shifted ← CreateLShr value_64bits (VInt 64 32);
  high_32bits ← CreateTrunc shifted (IntegerTy 32);
  Ok (low_32bits, high_32bits).

Definition UMulLowHigh32 (src0 src1 : Value) : Outcome (Value * Value) :=
  src0_64 ← CreateZExt src0 (IntegerTy 64);
  src1_64 ← CreateZExt src1 (IntegerTy 64);
  mul_64 ← CreateMul src0_64 src1_64;
  SplitInt64ToInt32s mul_64.

(** The four counters and the two key words of the generator. *)
Record PhiloxState : Type := MkPhiloxState {
  counter_0 : Value; counter_1 : Value; counter_2 : Value; counter_3 : Value;
  key_0 : Value; key_1 : Value
}.

(** A single round of computation of the counter values, and the raising
    of the key. *)
Definition philox_round (s : PhiloxState) : Outcome PhiloxState :=
  let philoxW32A := VInt 32 2654435769 in      (* 0x9E3779B9 *)
  let philoxW32B := VInt 32 3144134277 in      (* 0xBB67AE85 *)
  let philoxM4xW32A := VInt 32 3528531795 in   (* 0xD2511F53 *)
  let philoxM4xW32B := VInt 32 3449720151 in   (* 0xCD9E8D57 *)
  '(lo0, hi0) ← UMulLowHigh32 philoxM4xW32A (counter_0 s);
  '(lo1, hi1) ← UMulLowHigh32 philoxM4xW32B (counter_2 s);
  t0 ← CreateXor (counter_1 s) (key_0 s);
  c0 ← CreateXor hi1 t0;
  t2 ← CreateXor (counter_3 s) (key_1 s);
  c2 ← CreateXor hi0 t2;
  k0 ← CreateAdd (key_0 s) philoxW32A;
  k1 ← CreateAdd (key_1 s) philoxW32B;
  Ok (MkPhiloxState c0 lo1 c2 lo0 k0 k1).

Fixpoint philox_rounds (n : nat) (s : PhiloxState) : Outcome PhiloxState :=
  match n with
  | O => Ok s
  | S n => s ← philox_round s; philox_rounds n s
  end.

(** Calculates the four uint32 values for the 128-bit Philox sample. *)
Definition CalculateSampleValues (sample_idx hlo_random_value
    global_random_number rng_state : Value) : Outcome (list Value) :=
  (* Use the sample index to initialize counter[0] and counter[1]. *)
  '(c0, c1) ←
    match getType sample_idx with
    | IntegerTy 32 => Ok (sample_idx, VInt 32 0)
    | IntegerTy 64 => SplitInt64ToInt32s sample_idx
    | _ => Aborts
    end;
  (* Xor the global state variable with the global random number seed and
     use the result to initialize counter[2] and counter[3]. *)
  mixed ← CreateXor rng_state global_random_number;
  '(c2, c3) ← SplitInt64ToInt32s mixed;
  (* Use a module random number to initialize the key. *)
  '(k0, k1) ← SplitInt64ToInt32s hlo_random_value;
  s ← philox_rounds 10 (MkPhiloxState c0 c1 c2 c3 k0 k1);
  Ok [counter_0 s; counter_1 s; counter_2 s; counter_3 s].

(** The stack slot ["sample"]: four 32-bit words.  A store outside of it
    and a load outside of it are undefined.  A 64-bit load through the
    pointer cast reads two adjacent words, the low word first
    (little-endian targets). *)
Definition store_sample (sample : list Value) (idx : nat) (v : Value)
  : Outcome (list Value) :=
  if (idx <? length sample)%nat then Ok (<[idx := v]> sample) else Aborts.

Definition load_sample (sample : list Value) (raw_value_ty : IrType)
    (elem_offset : Value) : Outcome Value :=
  match elem_offset, raw_value_ty with
  | VInt _ off, IntegerTy 32 => at_index sample off
  | VInt _ off, IntegerTy 64 =>
      lo ← at_index sample (2 * off);
      hi ← at_index sample (2 * off + 1);
      match lo, hi with
      | VInt 32 l, VInt 32 h => Ok (VInt 64 (l + Z.shiftl h 32))
      | _, _ => Aborts
      end
  | _, _ => Aborts
  end.

(** The closure returned by [MakePhiloxRngElementGenerator], with what it
    captures made explicit. *)
Definition PhiloxRngElement (em : Emitter) (hlo : HloInstruction)
    (operand_to_generator : HloToElementGeneratorMap)
    (hlo_random_value global_random_number : Value) (elems_per_sample : Z)
    (index : Index) : Outcome Value :=
  let index_ty := GetType index in
  (* Calculate the linear element index. *)
  elem_idx ←
    match linear index with
    | Some l => Ok l
    | None => Linearize index (dimensions (shape hlo))
    end;
  (* Calculate the index for the 128 bit sample and the offset of the
     current element within the sample. *)
  elems_per_sample_value ← ConstantInt index_ty elems_per_sample;
  sample_idx ← CreateUDiv elem_idx elems_per_sample_value;
  elem_offset ← CreateURem elem_idx elems_per_sample_value;
  counter_values ←
    CalculateSampleValues sample_idx hlo_random_value global_random_number
      (rng_state_value em);
  (* Store the four counter_values into the sample_address alloca so we
     can load the elem_offset'th one below. *)
  sample ←
    foldl (fun (acc : Outcome (list Value)) (idx : nat) =>
             sample ← acc;
             v ← at_index counter_values (Z.of_nat idx);
             store_sample sample idx v)
          (Ok (sample_alloca em)) (seq 0 4);
  if negb ((elems_per_sample =? 2) || (elems_per_sample =? 4)) then Aborts
  else
    let raw_value_ty :=
      if elems_per_sample =? 2 then IntegerTy 64 else IntegerTy 32 in
    (* Retrieve the raw value for the current element from the current
       sample. *)
    raw_elem_value ← load_sample sample raw_value_ty elem_offset;
    ConvertValueForDistribution hlo operand_to_generator index raw_elem_value.

(** Precondition: the RNG instruction is not fused. *)
Definition MakePhiloxRngElementGenerator (em : Emitter) (hlo : HloInstruction)
    (operand_to_generator : HloToElementGeneratorMap) (st : RandomState)
  : Outcome (ElementGenerator * RandomState) :=
  if IsFused hlo then Aborts
  else
    (* A random number generated by the per module random number
       generator. *)
    let '(r, st) := RandomNew64 st in
    let hlo_random_value := VInt 64 (Int.wrap 64 r) in
    (* A value specified by the configuration or generated by a global
       random number generator. *)
    let '(g, st) :=
      if negb (hlo_module_config_seed em =? 0)
      then (hlo_module_config_seed em, st)
      else GlobalRandomValue st in
    let global_random_number := VInt 64 (Int.wrap 64 g) in
    elems_per_sample ←
      GetNumberOfElementsPerPhiloxRngSample (element_type (shape hlo));
    Ok (PhiloxRngElement em hlo operand_to_generator hlo_random_value
          global_random_number elems_per_sample, st).

End Rng.

(** ** Structured operators *)

Section StructuredOperators.

Context `{Collaborators}.

Definition EmitElementalSelect (hlo : HloInstruction)
    (operand_to_generator : HloToElementGeneratorMap) (index : Index)
  : Outcome Value :=
  op0 ← operand hlo 0;
  g0 ← generator_at operand_to_generator op0;
  i0 ← ElementwiseSourceIndex index hlo 0;
  pred_value ← g0 i0;
  op1 ← operand hlo 1;
  g1 ← generator_at operand_to_generator op1;
  i1 ← ElementwiseSourceIndex index hlo 1;
  on_true_value ← g1 i1;
  op2 ← operand hlo 2;
  g2 ← generator_at operand_to_generator op2;
  i2 ← ElementwiseSourceIndex index hlo 2;
  on_false_value ← g2 i2;
  cond ← CreateTrunc pred_value (IntegerTy 1);
  Select cond on_true_value on_false_value.

(** One iteration of the loop of [EmitElementalPad] over the dimensions:
    the coordinate [i] of the index is replaced and the three tests are
    added to [in_bounds]. *)
Definition pad_dimension (hlo : HloInstruction) (acc : Outcome (Index * Value))
    (i : nat) : Outcome (Index * Value) :=
  '(index, in_bounds) ← acc;
  index_i ← IrArray.get index (Z.of_nat i);
  let index_typed_const := ConstantInt (getType index_i) in
  pad_dim ← at_index (padding_config hlo) (Z.of_nat i);
  low ← index_typed_const (edge_padding_low pad_dim);
  index_i ← CreateSub index_i low;
  index ← IrArray.set index i index_i;
  zero ← index_typed_const 0;
  nonneg ← CreateICmp ICMP_SGE index_i zero;
  in_bounds ← CreateAnd in_bounds nonneg;
  stride ← index_typed_const (interior_padding pad_dim + 1);
  rem ← CreateURem index_i stride;
  on_stride ← CreateICmp ICMP_EQ zero rem;
  in_bounds ← CreateAnd in_bounds on_stride;
  index_i ← CreateSDiv index_i stride;
  index ← IrArray.set index i index_i;
  op0 ← operand hlo 0;
  extent ← at_index (dimensions (shape op0)) (Z.of_nat i);
  extent ← index_typed_const extent;
  below ← CreateICmp ICMP_SLT index_i extent;
  in_bounds ← CreateAnd in_bounds below;
  Ok (index, in_bounds).

Definition EmitElementalPad (hlo : HloInstruction)
    (operand_to_generator : HloToElementGeneratorMap) (padded_index : Index)
  : Outcome Value :=
  '(index, in_bounds) ←
    foldl (pad_dimension hlo) (Ok (padded_index, getInt1 true))
      (seq 0 (IrArray.size padded_index));
  (* if (in_bounds) { ret_value = operand0[index]; }   // source
     else           { ret_value = *operand1; }         // padding *)
  (* true block *)
  op0 ← operand hlo 0;
  g0 ← generator_at operand_to_generator op0;
  let operand_value := g0 index in
  emit_block operand_value;;
  (* false block *)
  op1 ← operand hlo 1;
  g1 ← generator_at operand_to_generator op1;
  let padding_value := g1 (IrArray.EmptyIndex (GetType index)) in
  emit_block padding_value;;
  IfThenElseBlocks in_bounds operand_value padding_value.

(** Modelled from the spec: [llvm_ir::ForLoop] of llvm_loop.cc, which is
    not among the sources: "iterate ... in a local loop from 0 to the
    contraction extent".  The header leaves the loop when the induction
    variable has reached [end_index] (unsigned comparison); otherwise the
    body runs and the induction variable advances by [step].  [fuel] bounds
    the number of iterations. *)
Fixpoint ForLoop {S : Type} (fuel : nat) (indvar end_index step : Value)
    (body : Value -> S -> Outcome S) (s : S) : Outcome S :=
  match fuel with
  | O => Aborts
  | Datatypes.S fuel =>
      exit_cond ← CreateICmp ICMP_UGE indvar end_index;
      match exit_cond with
      | VInt 1 0 =>
          s ← body indvar s;
          next ← CreateAdd indvar step;
          ForLoop fuel next end_index step body s
      | VInt 1 _ => Ok s
      | _ => Aborts
      end
  end.

(** The first [n] coordinates of [index], starting at [from], appended to
    [acc] by [push_back]. *)
Definition push_back_range (index : Index) (from : Z) (n : Z) (acc : Index)
  : Outcome Index :=
  foldl (fun (acc : Outcome Index) (i : nat) =>
           acc ← acc;
           v ← IrArray.get index (from + Z.of_nat i);
           Ok (IrArray.push_back acc v))
        (Ok acc) (seq 0 (Z.to_nat n)).

(** The body of the inner reduction loop of [EmitElementalDot]: one
    multiply-accumulate step. *)
Definition dot_accumulate (primitive_type : PrimitiveType)
    (current_accumulator lhs_value rhs_value : Value) : Outcome Value :=
  if primitive_util.IsComplexType primitive_type then
    lr ← EmitExtractReal lhs_value; rr ← EmitExtractReal rhs_value;
    li ← EmitExtractImag lhs_value; ri ← EmitExtractImag rhs_value;
    lr_rr ← CreateFMul lr rr; li_ri ← CreateFMul li ri;
    product_real ← CreateFSub lr_rr li_ri;
    lr_ri ← CreateFMul lr ri; li_rr ← CreateFMul li rr;
    product_imag ← CreateFAdd lr_ri li_rr;
    acc_re ← EmitExtractReal current_accumulator;
    re ← CreateFAdd acc_re product_real;
    next_accumulator ← CreateInsertValue current_accumulator re 0;
    acc_im ← EmitExtractImag current_accumulator;
    im ← CreateFAdd acc_im product_imag;
    CreateInsertValue next_accumulator im 1
  else if primitive_util.IsFloatingPointType primitive_type then
    product ← CreateFMul lhs_value rhs_value;
    CreateFAdd current_accumulator product
  else
    product ← CreateMul lhs_value rhs_value;
    CreateAdd current_accumulator product.

(** The operand coordinates of the loop body for the value [t] of the
    induction variable. *)
Definition dot_lhs_index (hlo : HloInstruction) (dot_result_index : Index)
    (index_type : IrType) (t : Value) : Outcome Index :=
  op0 ← operand hlo 0;
  let lhs_dims := ShapeUtil.Rank (shape op0) in
  lhs_contracting_dim ←
    at_index (lhs_contracting_dimensions (dot_dimension_numbers hlo)) 0;
  lhs_index ←
    push_back_range dot_result_index 0 (lhs_dims - 1)
      (IrArray.EmptyIndex index_type);
  IrArray.InsertAt lhs_index lhs_contracting_dim t.

Definition dot_rhs_index (hlo : HloInstruction) (dot_result_index : Index)
    (index_type : IrType) (t : Value) : Outcome Index :=
  op0 ← operand hlo 0;
  op1 ← operand hlo 1;
  let lhs_dims := ShapeUtil.Rank (shape op0) in
  let rhs_dims := ShapeUtil.Rank (shape op1) in
  rhs_contracting_dim ←
    at_index (rhs_contracting_dimensions (dot_dimension_numbers hlo)) 0;
  rhs_index ←
    push_back_range dot_result_index (lhs_dims - 1) (rhs_dims - 1)
      (IrArray.EmptyIndex index_type);
  IrArray.InsertAt rhs_index rhs_contracting_dim t.

Definition EmitElementalDot (hlo : HloInstruction)
    (operand_to_generator : HloToElementGeneratorMap)
    (dot_result_index : Index) : Outcome Value :=
  op0 ← operand hlo 0;
  lhs_generator ← generator_at operand_to_generator op0;
  op1 ← operand hlo 1;
  rhs_generator ← generator_at operand_to_generator op1;
  lhs_contracting_dim ←
    at_index (lhs_contracting_dimensions (dot_dimension_numbers hlo)) 0;
  contracted_dim_size ← at_index (dimensions (shape op0)) lhs_contracting_dim;
  first ← IrArray.get dot_result_index 0;
  let index_type := getType first in
  let index_typed_const := ConstantInt index_type in
  start ← index_typed_const 0;
  end_index ← index_typed_const contracted_dim_size;
  step ← index_typed_const 1;
  let primitive_type := element_type (shape hlo) in
  primitive_type_llvm ← PrimitiveTypeToIrType primitive_type;
  let accumulator := getNullValue primitive_type_llvm in
  (* This is the inner reduction loop for a dot operation that produces
     one element in the output.  If the operands to the dot operation have
     shapes [A,B,C,T] and [D,T,E], the result has a shape [A,B,C,D,E].
     Given an output index [a,b,c,d,e] in the result, we compute:
       sum(lhs[a,b,c,t]*rhs[d,t,e] for t in [0, T)) *)
  let body := fun indvar current_accumulator =>
    lhs_index ← dot_lhs_index hlo dot_result_index index_type indvar;
    rhs_index ← dot_rhs_index hlo dot_result_index index_type indvar;
    lhs_value ← lhs_generator lhs_index;
    rhs_value ← rhs_generator rhs_index;
    dot_accumulate primitive_type current_accumulator lhs_value rhs_value in
  (* The body is emitted once, whatever the extent: the two coordinates are
     built and the two generators are called for the induction variable,
     which stands at its initial value here. *)
  lhs_index ← dot_lhs_index hlo dot_result_index index_type start;
  rhs_index ← dot_rhs_index hlo dot_result_index index_type start;
  emit_block (lhs_generator lhs_index);;
  emit_block (rhs_generator rhs_index);;
  ForLoop (Datatypes.S (Z.to_nat contracted_dim_size)) start end_index step
    body accumulator.

End StructuredOperators.

(** ** The dispatch table *)

Section Dispatch.

Context `{Collaborators}.

Definition ElementsIn (s : Shape) : Z := foldr Z.mul 1 (dimensions s).

Definition unary_generator (hlo : HloInstruction)
    (operand_to_generator : HloToElementGeneratorMap) : ElementGenerator :=
  fun index =>
    op0 ← operand hlo 0;
    g0 ← generator_at operand_to_generator op0;
    i0 ← ElementwiseSourceIndex index hlo 0;
    operand_value ← g0 i0;
    EmitUnaryOp hlo operand_value.

Definition binary_generator (hlo : HloInstruction)
    (operand_to_generator : HloToElementGeneratorMap) : ElementGenerator :=
  fun index =>
    lhs ← operand hlo 0;
    rhs ← operand hlo 1;
    g0 ← generator_at operand_to_generator lhs;
    i0 ← ElementwiseSourceIndex index hlo 0;
    lhs_value ← g0 i0;
    g1 ← generator_at operand_to_generator rhs;
    i1 ← ElementwiseSourceIndex index hlo 1;
    rhs_value ← g1 i1;
    EmitBinaryOp hlo lhs_value rhs_value.

Definition reverse_generator (hlo : HloInstruction)
    (operand_to_generator : HloToElementGeneratorMap) : ElementGenerator :=
  fun target_index =>
    op ← operand hlo 0;
    source_index ←
      foldl (fun (acc : Outcome Index) (dim : Z) =>
               source_index ← acc;
               t ← IrArray.get target_index dim;
               extent ← at_index (dimensions (shape hlo)) dim;
               last ← ConstantInt (getType t) (extent - 1);
               v ← CreateSub last t;
               if dim <? 0 then Aborts
               else IrArray.set source_index (Z.to_nat dim) v)
            (Ok target_index) (hlo_dimensions hlo);
    g ← generator_at operand_to_generator op;
    g source_index.

Definition index_mapped_generator (hlo : HloInstruction)
    (operand_to_generator : HloToElementGeneratorMap)
    (source_index_of : Index -> HloInstruction -> Outcome Index)
  : ElementGenerator :=
  fun index =>
    op ← operand hlo 0;
    source_index ← source_index_of index op;
    g ← generator_at operand_to_generator op;
    g source_index.

Definition unhandled_opcode_generator (hlo : HloInstruction)
  : ElementGenerator :=
  fun index =>
    Fails (Unimplemented
             (String.append "Unhandled opcode for elemental IR emission: "
                (HloOpcodeString (opcode hlo)))).

(** [MakeElementGenerator] returns the generator; only the [kRng] case
    draws from the random engines, and only [CHECK]s can stop it. *)
Definition MakeElementGenerator (em : Emitter) (hlo : HloInstruction)
    (operand_to_generator : HloToElementGeneratorMap) (st : RandomState)
  : Outcome (ElementGenerator * RandomState) :=
  match opcode hlo with
  | kAbs | kRoundNearestAfz | kCeil | kClz | kConvert | kBitcastConvert
  | kCopy | kCos | kExp | kExpm1 | kFloor | kImag | kIsFinite | kLog
  | kLog1p | kNegate | kNot | kReal | kSign | kSin | kTanh =>
      Ok (unary_generator hlo operand_to_generator, st)
  | kAdd | kAnd | kAtan2 | kComplex | kDivide | kEq | kGe | kGt | kLe | kLt
  | kMaximum | kMinimum | kMultiply | kNe | kOr | kXor | kPower | kRemainder
  | kShiftLeft | kShiftRightArithmetic | kShiftRightLogical | kSubtract =>
      Ok (binary_generator hlo operand_to_generator, st)
  | kSelect =>
      Ok (fun index => EmitElementalSelect hlo operand_to_generator index, st)
  | kClamp =>
      Ok (fun index => EmitElementalClamp hlo operand_to_generator index, st)
  | kReducePrecision =>
      Ok (fun index =>
            op0 ← operand hlo 0;
            g0 ← generator_at operand_to_generator op0;
            i0 ← ElementwiseSourceIndex index hlo 0;
            operand_value ← g0 i0;
            EmitReducePrecision (no_nans em) hlo operand_value, st)
  | kConcatenate =>
      Ok (fun target_index =>
            EmitElementalConcatenate hlo operand_to_generator target_index, st)
  | kReverse => Ok (reverse_generator hlo operand_to_generator, st)
  | kBroadcast =>
      Ok (index_mapped_generator hlo operand_to_generator
            (fun target_index op =>
               SourceIndexOfBroadcast target_index (shape hlo) (shape op)
                 (hlo_dimensions hlo)), st)
  | kSlice =>
      Ok (index_mapped_generator hlo operand_to_generator
            (fun index _ => SourceIndexOfSlice index hlo), st)
  | kDynamicSlice =>
      Ok (fun index => EmitElementalDynamicSlice hlo operand_to_generator index,
          st)
  | kGather =>
      Ok (fun index => EmitElementalGather hlo operand_to_generator index, st)
  | kDynamicUpdateSlice =>
      Ok (fun index =>
            EmitElementalDynamicUpdateSlice hlo operand_to_generator index, st)
  | kBitcast =>
      op ← operand hlo 0;
      if negb (ElementsIn (shape hlo) =? ElementsIn (shape op)) then Aborts
      else
        Ok (index_mapped_generator hlo operand_to_generator
              (fun index op =>
                 SourceIndexOfBitcast index (shape hlo) (shape op)), st)
  | kReshape =>
      op ← operand hlo 0;
      if negb (ElementsIn (shape hlo) =? ElementsIn (shape op)) then Aborts
      else
        Ok (index_mapped_generator hlo operand_to_generator
              (fun index op =>
                 SourceIndexOfReshape index (shape hlo) (shape op)), st)
  | kTranspose =>
      Ok (index_mapped_generator hlo operand_to_generator
            (fun target_index op =>
               SourceIndexOfTranspose target_index (shape hlo) (shape op)
                 (hlo_dimensions hlo)), st)
  | kRng => MakePhiloxRngElementGenerator em hlo operand_to_generator st
  | kPad =>
      Ok (fun padded_index =>
            EmitElementalPad hlo operand_to_generator padded_index, st)
  | kDot =>
      Ok (fun dot_result_index =>
            EmitElementalDot hlo operand_to_generator dot_result_index, st)
  | kOtherOpcode _ => Ok (unhandled_opcode_generator hlo, st)
  end.

End Dispatch.

(** ** The spec's formula for expm1 *)

(** The 2-term Taylor expansion of [exp(x) - 1] in the words of the spec:
    [x + x^2/2], evaluated in the float type of [x]. *)
Definition Expm1Taylor2 (x : Value) : Outcome Value :=
  half ← ConstantFP (getType x) double_0_5;
  x_squared ← CreateFMul x x;
  x_squared_over_two ← CreateFMul x_squared half;
  CreateFAdd x x_squared_over_two.

(** ** Collaborators of the examples *)

Definition example_HloOpcodeString (op : HloOpcode) : string :=
  match op with
  | kAbs => "abs" | kRoundNearestAfz => "round-nearest-afz" | kCeil => "ceil"
  | kClz => "count-leading-zeros" | kConvert => "convert"
  | kBitcastConvert => "bitcast-convert" | kCopy => "copy" | kCos => "cosine"
  | kExp => "exponential" | kExpm1 => "exponential-minus-one"
  | kFloor => "floor" | kImag => "imag" | kIsFinite => "is-finite"
  | kLog => "log" | kLog1p => "log-plus-one" | kNegate => "negate"
  | kNot => "not" | kReal => "real" | kSign => "sign" | kSin => "sine"
  | kTanh => "tanh" | kAdd => "add" | kAnd => "and" | kAtan2 => "atan2"
  | kComplex => "complex" | kDivide => "divide" | kEq => "equal-to"
  | kGe => "greater-than-or-equal-to" | kGt => "greater-than"
  | kLe => "less-than-or-equal-to" | kLt => "less-than"
  | kMaximum => "maximum" | kMinimum => "minimum" | kMultiply => "multiply"
  | kNe => "not-equal-to" | kOr => "or" | kXor => "xor" | kPower => "power"
  | kRemainder => "remainder" | kShiftLeft => "shift-left"
  | kShiftRightArithmetic => "shift-right-arithmetic"
  | kShiftRightLogical => "shift-right-logical" | kSubtract => "subtract"
  | kSelect => "select" | kClamp => "clamp"
  | kReducePrecision => "reduce-precision" | kConcatenate => "concatenate"
  | kReverse => "reverse" | kBroadcast => "broadcast" | kSlice => "slice"
  | kDynamicSlice => "dynamic-slice" | kGather => "gather"
  | kDynamicUpdateSlice => "dynamic-update-slice" | kBitcast => "bitcast"
  | kReshape => "reshape" | kTranspose => "transpose" | kRng => "rng"
  | kPad => "pad" | kDot => "dot"
  | kOtherOpcode name => name
  end.

Definition example_IsElementwise (hlo : HloInstruction) : bool :=
  match opcode hlo with
  | kConcatenate | kReverse | kBroadcast | kSlice | kDynamicSlice | kGather
  | kDynamicUpdateSlice | kBitcast | kReshape | kTranspose | kRng | kPad
  | kDot | kOtherOpcode _ => false
  | _ => true
  end.

(** Row-major linearization of a coordinate. *)
Definition example_Linearize (index : Index) (dims : list Z) : Outcome Value :=
  zero ← ConstantInt (GetType index) 0;
  foldl (fun (acc : Outcome Value) '(i, d) =>
           acc ← acc;
           d ← ConstantInt (GetType index) d;
           scaled ← CreateMul acc d;
           CreateAdd scaled i)
        (Ok zero) (zip (multidim index) dims).

(** Stand-ins for the examples: the math library returns its first
    argument, the random engine is a counter, and the emitters and index
    maps that the examples do not reach report that. *)
Definition example_collaborators : Collaborators := {|
  HloOpcodeString := example_HloOpcodeString;
  IsElementwise := example_IsElementwise;
  CompatibleIgnoringElementType :=
    fun a b => bool_decide (dimensions a = dimensions b);
  LayoutUtil_Equal :=
    fun a b => bool_decide (minor_to_major a = minor_to_major b);
  libm := fun _ args => match args with v :: _ => Ok v | [] => Aborts end;
  CreateFRem := fun a _ => Ok a;
  llvm_ir_EmitFloatMax := fun a _ => Ok a;
  llvm_ir_EmitFloatMin := fun a _ => Ok a;
  Linearize := example_Linearize;
  SourceIndexOfBroadcast := fun _ _ _ _ => Aborts;
  SourceIndexOfSlice := fun _ _ => Aborts;
  SourceIndexOfBitcast := fun _ _ _ => Aborts;
  SourceIndexOfReshape := fun _ _ _ => Aborts;
  SourceIndexOfTranspose := fun _ _ _ _ => Aborts;
  mt19937_64 := Z;
  mt19937_64_next := fun s => (s, s + 1);
  EmitIntegerUnaryOp := fun _ _ => Fails (Unimplemented "not modelled");
  EmitComplexUnaryOp := fun _ _ => Fails (Unimplemented "not modelled");
  EmitFloatConvert := fun _ _ => Fails (Unimplemented "not modelled");
  EmitFloatBitcastConvert := fun _ _ => Fails (Unimplemented "not modelled");
  EmitElementalClamp := fun _ _ _ => Fails (Unimplemented "not modelled");
  EmitElementalConcatenate := fun _ _ _ => Fails (Unimplemented "not modelled");
  EmitElementalDynamicSlice := fun _ _ _ => Fails (Unimplemented "not modelled");
  EmitElementalGather := fun _ _ _ => Fails (Unimplemented "not modelled");
  EmitElementalDynamicUpdateSlice :=
    fun _ _ _ => Fails (Unimplemented "not modelled")
|}.

(** An instruction with the given opcode, shape and operands, and no
    attributes. *)
Definition example_instruction (id : positive) (op : HloOpcode) (s : Shape)
    (ops : list HloInstruction) : HloInstruction :=
  MkHloInstruction id op s ops [] (MkDotDimensionNumbers [] []) [] 0 0
    RNG_INVALID false.

(** ** Pad in the words of the spec *)

Module PadSpec.

(** [pre[d] = output[d] - edge_low[d]] *)
Definition pre (output : Z) (pad_dim : PaddingConfigDimension) : Z :=
  output - edge_padding_low pad_dim.

(** In-bounds in one dimension: [pre >= 0], [pre mod (interior+1) == 0]
    and [pre / (interior+1) < operand_extent]. *)
Definition dim_in_bounds (output : Z) (pad_dim : PaddingConfigDimension)
    (operand_extent : Z) : bool :=
  (0 <=? pre output pad_dim)
  && (pre output pad_dim mod (interior_padding pad_dim + 1) =? 0)
  && (pre output pad_dim / (interior_padding pad_dim + 1) <? operand_extent).

Fixpoint in_bounds (output : list Z) (config : list PaddingConfigDimension)
    (operand_extents : list Z) : bool :=
  match output, config, operand_extents with
  | o :: output, c :: config, e :: operand_extents =>
      dim_in_bounds o c e && in_bounds output config operand_extents
  | _, _, _ => true
  end.

(** The operand coordinate in one dimension, as the [w]-bit quotient that
    the emitted division leaves; it is [pre / (interior+1)] when
    [pre >= 0]. *)
Definition operand_coordinate (w : Z) (output : Z)
    (pad_dim : PaddingConfigDimension) : Z :=
  Int.wrap w (Z.quot (pre output pad_dim) (interior_padding pad_dim + 1)).

Fixpoint operand_coordinates (w : Z) (output : list Z)
    (config : list PaddingConfigDimension) : list Z :=
  match output, config with
  | o :: output, c :: config =>
      operand_coordinate w o c :: operand_coordinates w output config
  | _, _ => []
  end.

(** Coordinates, paddings and extents fit the signed range of the index
    type. *)
Definition dim_fits (w : Z) (output : Z) (pad_dim : PaddingConfigDimension)
    (operand_extent : Z) : Prop :=
  0 <= output < 2 ^ (w - 1) /\
  - 2 ^ (w - 1) <= pre output pad_dim < 2 ^ (w - 1) /\
  0 < interior_padding pad_dim + 1 < 2 ^ (w - 1) /\
  0 <= operand_extent < 2 ^ (w - 1).

Fixpoint fits (w : Z) (output : list Z) (config : list PaddingConfigDimension)
    (operand_extents : list Z) : Prop :=
  match output, config, operand_extents with
  | o :: output, c :: config, e :: operand_extents =>
      dim_fits w o c e /\ fits w output config operand_extents
  | [], [], [] => True
  | _, _, _ => False
  end.

End PadSpec.

(** ** Dot in the words of the spec *)

Module DotSpec.

(** One term of [sum(lhs[...,t,...] * rhs[...,t,...])] added to the
    accumulator, with the add/multiply semantics of the type family:
    wrap-around for integers, rounded for floats, and for complex numbers
    the real and the imaginary part accumulated separately. *)
Definition multiply_accumulate (acc lhs rhs : Value) : Value :=
  match acc, lhs, rhs with
  | VInt w a, VInt _ x, VInt _ y => VInt w (Int.wrap w (a + x * y))
  | VFP k a, VFP _ x, VFP _ y => VFP k (FP.add k a (FP.mul k x y))
  | VStruct (VFP k ar) (VFP _ ai), VStruct (VFP _ xr) (VFP _ xi),
    VStruct (VFP _ yr) (VFP _ yi) =>
      VStruct
        (VFP k (FP.add k ar (FP.sub k (FP.mul k xr yr) (FP.mul k xi yi))))
        (VFP k (FP.add k ai (FP.add k (FP.mul k xr yi) (FP.mul k xi yr))))
  | _, _, _ => acc
  end.

(** [sum over t in [0, T)] of the products, from the zero of the type. *)
Definition sum (zero : Value) (lhs rhs : Z -> Value) (T : Z) : Value :=
  foldl (fun acc t => multiply_accumulate acc (lhs (Z.of_nat t)) (rhs (Z.of_nat t)))
    zero (seq 0 (Z.to_nat T)).

(** [v] is a scalar of the element type [ty]; the truncated 16-bit float,
    which LLVM stores as an integer, has no arithmetic of its own. *)
Definition has_type (t : IrType) (v : Value) : bool :=
  match t, v with
  | IntegerTy w, VInt w' _ => w =? w'
  | FPTy k, VFP k' _ => FPType_eqb k k'
  | StructTy (FPTy k0) (FPTy k1), VStruct (VFP k0' _) (VFP k1' _) =>
      FPType_eqb k0 k0' && FPType_eqb k1 k1'
  | _, _ => false
  end.

Definition scalar_of (ty : PrimitiveType) (v : Value) : bool :=
  match ty, PrimitiveTypeToIrType ty with
  | BF16, _ => false
  | _, Ok t => has_type t v
  | _, _ => false
  end.

(** The operand coordinates for the value [t] of the contracted
    dimension: the leading [lhs_rank - 1] result coordinates with [t]
    inserted at the contracting dimension, and the following
    [rhs_rank - 1] result coordinates likewise. *)
Definition insert_at (i : Z) (t : Value) (l : list Value) : list Value :=
  take (Z.to_nat i) l ++ t :: drop (Z.to_nat i) l.

Definition lhs_index (result : list Value) (lhs_rank lhs_contracting_dim : Z)
    (index_type : IrType) (t : Value) : Index :=
  MkIndex (insert_at lhs_contracting_dim t (take (Z.to_nat (lhs_rank - 1)) result))
    None index_type.

Definition rhs_index (result : list Value)
    (lhs_rank rhs_rank rhs_contracting_dim : Z) (index_type : IrType)
    (t : Value) : Index :=
  MkIndex (insert_at rhs_contracting_dim t
             (take (Z.to_nat (rhs_rank - 1))
                (drop (Z.to_nat (lhs_rank - 1)) result)))
    None index_type.

End DotSpec.

(** ** The seeds of the random generator *)

Section RngSeeds.

Context `{Collaborators}.

(** The module random value and the global seed that
    [MakePhiloxRngElementGenerator] captures when it is run in the state
    [st] of the random engines. *)
Definition captured_hlo_random_value (st : RandomState) : Value :=
  VInt 64 (Int.wrap 64 (fst (RandomNew64 st))).

Definition captured_global_random_number (em : Emitter) (st : RandomState)
  : Value :=
  VInt 64 (Int.wrap 64
             (if negb (hlo_module_config_seed em =? 0)
              then hlo_module_config_seed em
              else fst (GlobalRandomValue (snd (RandomNew64 st))))).

End RngSeeds.

(** ** Conversions to and from the truncated 16-bit float
       (elemental_ir_emitter.cc, anonymous namespace) *)

(** Modelled from the spec: [primitive_util::kBFloat16ExponentBits] and
    [primitive_util::kBFloat16MantissaBits], which are not among the
    sources: the conversion applies "ReducePrecision with (8 exponent
    bits, 7 mantissa bits)". *)
Definition kBFloat16ExponentBits : Z := 8.
Definition kBFloat16MantissaBits : Z := 7.

(** [IRBuilder::CreateLShr(v, n)] and [CreateShl(v, n)] with a C++ integer
    [n] shift by the constant [n] of the type of [v]. *)
Definition EmitF32ToBF16 (no_nans : bool) (f32_value : Value) : Outcome Value :=
  reduced_precision ←
    EmitReducePrecisionFloat no_nans f32_value kBFloat16ExponentBits
      kBFloat16MantissaBits;
  as_int32 ← CreateBitCast reduced_precision (IntegerTy 32);
  sixteen ← ConstantInt (getType as_int32) 16;
  shifted ← CreateLShr as_int32 sixteen;
  truncated ← CreateTrunc shifted (IntegerTy 16);
  CreateBitCast truncated (IntegerTy 16).

Definition EmitBF16ToF32 (bf16_value : Value) : Outcome Value :=
  as_int16 ← CreateBitCast bf16_value (IntegerTy 16);
  as_int32 ← CreateZExt as_int16 (IntegerTy 32);
  sixteen ← ConstantInt (getType as_int32) 16;
  shifted ← CreateShl as_int32 sixteen;
  CreateBitCast shifted (FPTy FloatTy).

(** The bit pattern of [llvm::ConstantFP::get(type, d)] for the float type
    [k]. *)
Definition fp_constant (k : FPType) (d : spec_float) : Z :=
  FP.encode k (FP.round k d).

From Stdlib Require Import DecimalString.

(** ** More instructions *)

(** [sext] to a wider integer type keeps the signed value. *)
Definition CreateSExt (v : Value) (ty : IrType) : Outcome Value :=
  match v, ty with
  | VInt w x, IntegerTy w' =>
      if w' =? w then Ok v
      else if w <? w' then Ok (VInt w' (Int.wrap w' (Int.signed w x)))
      else Aborts
  | _, _ => Aborts
  end.

(** [IRBuilder::CreateIntCast(v, type, is_signed)]: a truncation to a
    narrower type, otherwise an extension by the sign or by zeros. *)
Definition CreateIntCast (v : Value) (ty : IrType) (is_signed : bool)
  : Outcome Value :=
  match v, ty with
  | VInt w _, IntegerTy w' =>
      if w' <? w then CreateTrunc v ty
      else if is_signed then CreateSExt v ty else CreateZExt v ty
  | _, _ => Aborts
  end.

Definition CreateSExtOrTrunc (v : Value) (ty : IrType) : Outcome Value :=
  match v, ty with
  | VInt w _, IntegerTy w' =>
      if w' <? w then CreateTrunc v ty else CreateSExt v ty
  | _, _ => Aborts
  end.

(** [IRBuilder::CreateNeg(v)] is [sub 0, v] and [CreateNot(v)] is
    [xor v, -1]. *)
Definition CreateNeg (v : Value) : Outcome Value :=
  zero ← ConstantInt (getType v) 0;
  CreateSub zero v.

Definition CreateNot (v : Value) : Outcome Value :=
  minus_one ← GetMinusOne (getType v);
  CreateXor v minus_one.

(** [sitofp]: a signed integer rounded to the float type. *)
Definition CreateSIToFP (v : Value) (ty : IrType) : Outcome Value :=
  match v, ty with
  | VInt w x, FPTy k =>
      Ok (VFP k (FP.encode k (binary_normalize (FP.prec k) (FP.emax k)
                                (Int.signed w x) 0 false)))
  | _, _ => Aborts
  end.

(** [llvm.ctlz(v, is_zero_undef = false)]: the number of leading zero bits,
    the width of the type for [0]. *)
Definition EmitCtlz (v : Value) : Outcome Value :=
  match v with
  | VInt w x => Ok (VInt w (if x =? 0 then w else w - 1 - Z.log2 x))
  | _ => Aborts
  end.

(** Tables of [primitive_util], [ShapeUtil] and of the protobuf enum
    [PrimitiveType] that are not part of the sources; [decimal] is the
    conversion of [%d] and [%u]. *)
Class TypeTables : Type := {
  PrimitiveType_Name : PrimitiveType -> string;
  PrimitiveType_number : PrimitiveType -> Z;
  BitWidth : PrimitiveType -> Z;
  ElementIsSigned : Shape -> bool;
  decimal : Z -> string
}.

(** ** The emitters that the dispatch takes as collaborators
       (elemental_ir_emitter.cc) *)

Module ElementalIrEmitter.

Section Emitters.

Context {collaborators : Collaborators} {tables : TypeTables}.

Definition EmitIntegralToFloating (integer_value : Value)
    (from_type to_type : PrimitiveType) : Outcome Value :=
  if primitive_util.IsSignedIntegralType from_type then
    ty ← PrimitiveTypeToIrType to_type;
    CreateSIToFP integer_value ty
  else if negb (primitive_util.IsUnsignedIntegralType from_type
                || PrimitiveType_eqb from_type PRED) then Aborts
  else
    ty ← PrimitiveTypeToIrType to_type;
    CreateUIToFP integer_value ty.

(** [no_nans] is the fast-math flag of the builder, which the conversion
    to the truncated 16-bit float reads. *)
Definition EmitIntegerUnaryOp (no_nans : bool) (op : HloInstruction)
    (operand_value : Value) : Outcome Value :=
  match opcode op with
  | kConvert =>
      op0 ← operand op 0;
      let from_type := element_type (shape op0) in
      let to_type := element_type (shape op) in
      if negb (primitive_util.IsIntegralType from_type
               || PrimitiveType_eqb from_type PRED) then Aborts
      else if PrimitiveType_eqb from_type to_type then Ok operand_value
      else if PrimitiveType_eqb to_type PRED then
        zero ← ConstantInt (getType operand_value) 0;
        ne ← CreateICmp ICMP_NE operand_value zero;
        pred_type ← PrimitiveTypeToIrType PRED;
        CreateZExt ne pred_type
      else if primitive_util.IsIntegralType to_type then
        ty ← PrimitiveTypeToIrType to_type;
        CreateIntCast operand_value ty
          (primitive_util.IsSignedIntegralType from_type)
      else if primitive_util.IsFloatingPointType to_type then
        if PrimitiveType_eqb to_type BF16 then
          f32 ← EmitIntegralToFloating operand_value from_type F32;
          EmitF32ToBF16 no_nans f32
        else EmitIntegralToFloating operand_value from_type to_type
      else
        let unimplemented :=
          Fails (Unimplemented
                   (String.append "conversion from primitive type "
                      (String.append (PrimitiveType_Name from_type)
                         (String.append " to "
                            (PrimitiveType_Name to_type))))) in
        if primitive_util.IsComplexType to_type then
          component_type ← primitive_util.ComplexComponentType to_type;
          to_ir_component_type ← PrimitiveTypeToIrType component_type;
          if primitive_util.IsSignedIntegralType from_type then
            real ← CreateSIToFP operand_value to_ir_component_type;
            EmitComposeComplex op real None
          else if primitive_util.IsUnsignedIntegralType from_type
                  || PrimitiveType_eqb from_type PRED then
            real ← CreateUIToFP operand_value to_ir_component_type;
            EmitComposeComplex op real None
          else unimplemented
        else unimplemented
  | kBitcastConvert =>
      op0 ← operand op 0;
      let from_type := element_type (shape op0) in
      let to_type := element_type (shape op) in
      if negb (primitive_util.IsIntegralType from_type) then Aborts
      else if PrimitiveType_eqb from_type to_type then Ok operand_value
      else if BitWidth from_type =? BitWidth to_type then
        ty ← PrimitiveTypeToIrType to_type;
        CreateBitCast operand_value ty
      else
        Fails (InvalidArgument
                 (String.append "bitcast conversion from primitive type "
                    (String.append (PrimitiveType_Name from_type)
                       (String.append " to "
                          (String.append (PrimitiveType_Name to_type)
                             (String.append " with unequal bit-widths ("
                                (String.append (decimal (BitWidth from_type))
                                   (String.append " versus "
                                      (String.append
                                         (decimal (BitWidth to_type))
                                         ") ")))))))))
  | kAbs =>
      let is_signed :=
        primitive_util.IsSignedIntegralType (element_type (shape op)) in
      if is_signed then
        type ← PrimitiveTypeToIrType (element_type (shape op));
        zero ← GetZero type;
        cmp ← CreateICmp ICMP_SGE operand_value zero;
        negated ← CreateNeg operand_value;
        Select cmp operand_value negated
      else Ok operand_value
  | kClz => EmitCtlz operand_value
  | kSign =>
      let is_signed :=
        primitive_util.IsSignedIntegralType (element_type (shape op)) in
      type ← PrimitiveTypeToIrType (element_type (shape op));
      zero ← GetZero type;
      cmp ← CreateICmp ICMP_EQ operand_value zero;
      if is_signed then
        match type with
        | IntegerTy bits =>
            amount ← ConstantInt (getType operand_value) (bits - 1);
            ashr ← CreateAShr operand_value amount;
            one ← ConstantInt (getType ashr) 1;
            or_one ← CreateOr ashr one;
            Select cmp zero or_one
        | _ => Aborts
        end
      else
        one ← GetOne type;
        Select cmp zero one
  | kNegate => CreateNeg operand_value
  | kNot =>
      let type := element_type (shape op) in
      if PrimitiveType_eqb type PRED then
        (* It is not sufficient to just call CreateNot() here because a
           PRED is represented as an i8 and the truth value is stored only
           in the bottom bit. *)
        truncated ← CreateTrunc operand_value (IntegerTy 1);
        negated ← CreateNot truncated;
        pred_type ← PrimitiveTypeToIrType PRED;
        CreateZExt negated pred_type
      else if primitive_util.IsIntegralType type then CreateNot operand_value
      else
        Fails (Unimplemented
                 (String.append "unary op Not is not defined for type '"
                    (String.append (decimal (PrimitiveType_number type)) "'")))
  | _ =>
      Fails (Unimplemented
               (String.append "unary integer op '"
                  (String.append (HloOpcodeString (opcode op)) "'")))
  end.

Definition EmitElementalClamp (hlo : HloInstruction)
    (operand_to_generator : HloToElementGeneratorMap) (index : Index)
  : Outcome Value :=
  op0 ← operand hlo 0;
  g0 ← generator_at operand_to_generator op0;
  i0 ← ElementwiseSourceIndex index hlo 0;
  min_value ← g0 i0;
  op1 ← operand hlo 1;
  g1 ← generator_at operand_to_generator op1;
  i1 ← ElementwiseSourceIndex index hlo 1;
  arg_value ← g1 i1;
  op2 ← operand hlo 2;
  g2 ← generator_at operand_to_generator op2;
  i2 ← ElementwiseSourceIndex index hlo 2;
  max_value ← g2 i2;
  let prim_type := element_type (shape hlo) in
  if primitive_util.IsFloatingPointType prim_type then
    lower ← EmitFloatMax min_value arg_value;
    EmitFloatMin max_value lower
  else if primitive_util.IsIntegralType prim_type then
    let is_signed := primitive_util.IsSignedIntegralType prim_type in
    lower ← EmitIntegralMax min_value arg_value is_signed;
    EmitIntegralMin max_value lower is_signed
  else
    Fails (Unimplemented
             (String.append "Clamp unimplemented for "
                (PrimitiveType_Name prim_type))).

(** The start index of dimension [i] of a dynamic slice, read from
    [start_hlo] and clamped so that a region of [region_shape] fits into
    [input_hlo]:
    [clamp(start_index, 0, input_dim_size - region_dim_size)]. *)
Definition clamped_start_index (operand_to_generator : HloToElementGeneratorMap)
    (input_hlo start_hlo : HloInstruction) (region_shape : Shape)
    (index_type : IrType) (i : nat) : Outcome Value :=
  c_i ← ConstantInt index_type (Z.of_nat i);
  let dim_index := MkIndex [c_i] None (getType c_i) in
  g ← generator_at operand_to_generator start_hlo;
  start_index_value ← g dim_index;
  start_index_value ← CreateSExtOrTrunc start_index_value index_type;
  input_dim ← at_index (dimensions (shape input_hlo)) (Z.of_nat i);
  region_dim ← at_index (dimensions region_shape) (Z.of_nat i);
  let largest_valid_start_index := input_dim - region_dim in
  if largest_valid_start_index <? 0 then Aborts
  else
    let is_signed := ElementIsSigned (shape start_hlo) in
    largest ← ConstantInt index_type largest_valid_start_index;
    zero ← ConstantInt index_type 0;
    lower ← EmitIntegralMax zero start_index_value is_signed;
    EmitIntegralMin largest lower is_signed.

(** The two loops over the dimensions fill indices of rank [rank] entry by
    entry, in order; the lists below grow by one entry per iteration. *)
Definition EmitElementalDynamicSlice (hlo : HloInstruction)
    (operand_to_generator : HloToElementGeneratorMap) (index : Index)
  : Outcome Value :=
  (* Emit IR to read dynamic start indices from hlo->operand(1). *)
  input_hlo ← operand hlo 0;
  let rank := ShapeUtil.Rank (shape input_hlo) in
  (* Use the same index type for all tensor accesses in the same kernel. *)
  let index_type := GetType index in
  slice_start_index ←
    foldl (fun (acc : Outcome (list Value)) (i : nat) =>
             slice_start_index ← acc;
             start_hlo ← operand hlo 1;
             start_index_value ←
               clamped_start_index operand_to_generator input_hlo start_hlo
                 (shape hlo) index_type i;
             Ok (slice_start_index ++ [start_index_value]))
          (Ok []) (seq 0 (Z.to_nat rank));
  input_index ←
    foldl (fun (acc : Outcome (list Value)) (i : nat) =>
             input_index ← acc;
             (* input_index = start_index + offset_index *)
             start ← at_index slice_start_index (Z.of_nat i);
             offset ← IrArray.get index (Z.of_nat i);
             sum ← CreateAdd start offset;
             Ok (input_index ++ [sum]))
          (Ok []) (seq 0 (Z.to_nat rank));
  g ← generator_at operand_to_generator input_hlo;
  g (MkIndex input_index None index_type).

(** One iteration of the first loop of [EmitElementalDynamicUpdateSlice]:
    the clamped start index of dimension [i] and the two tests added to
    [slice_intersection]. *)
Definition update_slice_dimension (hlo input_hlo update_hlo start_hlo : HloInstruction)
    (operand_to_generator : HloToElementGeneratorMap) (index : Index)
    (acc : Outcome (list Value * Value)) (i : nat)
  : Outcome (list Value * Value) :=
  '(slice_start_index, slice_intersection) ← acc;
  index_0 ← IrArray.get index 0;
  let index_type := getType index_0 in
  start_index_value ←
    clamped_start_index operand_to_generator input_hlo start_hlo
      (shape update_hlo) index_type i;
  update_dim ← at_index (dimensions (shape update_hlo)) (Z.of_nat i);
  update_dim_size ← ConstantInt index_type update_dim;
  slice_limit ← CreateAdd start_index_value update_dim_size;
  index_i ← IrArray.get index (Z.of_nat i);
  not_before ← CreateICmp ICMP_SGE index_i start_index_value;
  slice_intersection ← CreateAnd slice_intersection not_before;
  not_after ← CreateICmp ICMP_SLT index_i slice_limit;
  slice_intersection ← CreateAnd slice_intersection not_after;
  Ok (slice_start_index ++ [start_index_value], slice_intersection).

Definition EmitElementalDynamicUpdateSlice (hlo : HloInstruction)
    (operand_to_generator : HloToElementGeneratorMap) (index : Index)
  : Outcome Value :=
  input_hlo ← operand hlo 0;
  update_hlo ← operand hlo 1;
  start_hlo ← operand hlo 2;
  (* Calculate slice start/end indices. *)
  let rank := ShapeUtil.Rank (shape input_hlo) in
  (* Slice intersection gathers (ANDs) conditions on all ranks for which
     'input' is set to 'update'. *)
  '(slice_start_index, slice_intersection) ←
    foldl (update_slice_dimension hlo input_hlo update_hlo start_hlo
             operand_to_generator index)
          (Ok ([], getInt1 true)) (seq 0 (Z.to_nat rank));
  (* if (slice_intersection) -> return data from 'update'.
     else                    -> return data from 'input'. *)
  (* Handle true BB (return data from 'update') *)
  (* Compute update index for intersection case. *)
  update_index ←
    foldl (fun (acc : Outcome (list Value)) (i : nat) =>
             update_index ← acc;
             index_i ← IrArray.get index (Z.of_nat i);
             start ← at_index slice_start_index (Z.of_nat i);
             difference ← CreateSub index_i start;
             Ok (update_index ++ [difference]))
          (Ok []) (seq 0 (Z.to_nat rank));
  g_update ← generator_at operand_to_generator update_hlo;
  let true_value := g_update (MkIndex update_index None (GetType index)) in
  emit_block true_value;;
  (* Handle false BB (return data from 'input') *)
  g_input ← generator_at operand_to_generator input_hlo;
  let false_value := g_input index in
  emit_block false_value;;
  IfThenElseBlocks slice_intersection true_value false_value.

(** [output->addIncoming(value, block)]: the value that reaches the PHI
    node has the type of the node. *)
Definition check_incoming (value : Outcome Value) (output_type : IrType)
  : Outcome unit :=
  match value with
  | Ok v => if IrType_eqb (getType v) output_type then Ok tt else Aborts
  | _ => Ok tt
  end.

(** One operand of [EmitElementalConcatenate].  The emitted code branches
    on [source_index[concat_dim] < concat_dim_size]: the true block
    computes the element of this operand and jumps to the exit block, the
    false block subtracts the size and goes on with the next operand.
    [output] is what reaches the PHI node of the exit block: the element of
    the first operand whose test holds, computed in the block of this
    operand only. *)
Definition concatenate_operand (hlo : HloInstruction)
    (operand_to_generator : HloToElementGeneratorMap) (concat_dim : Z)
    (output_type : IrType) (acc : Outcome (Index * option (Outcome Value)))
    (operand_idx : nat) : Outcome (Index * option (Outcome Value)) :=
  '(source_index, output) ← acc;
  op ← operand hlo (Z.of_nat operand_idx);
  source_i ← IrArray.get source_index concat_dim;
  operand_dim ← at_index (dimensions (shape op)) concat_dim;
  concat_dim_size ← ConstantInt (getType source_i) operand_dim;
  from_operand ← CreateICmp ICMP_ULT source_i concat_dim_size;
  (* true block *)
  g ← generator_at operand_to_generator op;
  let value := g source_index in
  emit_block value;;
  check_incoming value output_type;;
  (* false block: subtract the size of the concat dimension of the current
     operand from the source index. *)
  difference ← CreateSub source_i concat_dim_size;
  source_index ← IrArray.set source_index (Z.to_nat concat_dim) difference;
  Ok (source_index,
      match output with
      | Some _ => output
      | None =>
          match from_operand with VInt 1 1 => Some value | _ => None end
      end).

(** After the last operand the emitted code is [unreachable]. *)
Definition EmitElementalConcatenate (hlo : HloInstruction)
    (operand_to_generator : HloToElementGeneratorMap) (target_index : Index)
  : Outcome Value :=
  concat_dim ← at_index (hlo_dimensions hlo) 0;
  output_type ← PrimitiveTypeToIrType (element_type (shape hlo));
  '(_, output) ←
    foldl (concatenate_operand hlo operand_to_generator concat_dim output_type)
          (Ok (target_index, None)) (seq 0 (length (operands hlo)));
  match output with
  | Some value => value
  | None => Aborts
  end.

End Emitters.

End ElementalIrEmitter.

(** The collaborators with the emitters above in the place of the ones
    that were taken as given. *)
Definition with_emitters (base : Collaborators) (tables : TypeTables)
    (no_nans : bool) : Collaborators := {|
  HloOpcodeString := @HloOpcodeString base;
  IsElementwise := @IsElementwise base;
  CompatibleIgnoringElementType := @CompatibleIgnoringElementType base;
  LayoutUtil_Equal := @LayoutUtil_Equal base;
  libm := @libm base;
  CreateFRem := @CreateFRem base;
  llvm_ir_EmitFloatMax := @llvm_ir_EmitFloatMax base;
  llvm_ir_EmitFloatMin := @llvm_ir_EmitFloatMin base;
  Linearize := @Linearize base;
  SourceIndexOfBroadcast := @SourceIndexOfBroadcast base;
  SourceIndexOfSlice := @SourceIndexOfSlice base;
  SourceIndexOfBitcast := @SourceIndexOfBitcast base;
  SourceIndexOfReshape := @SourceIndexOfReshape base;
  SourceIndexOfTranspose := @SourceIndexOfTranspose base;
  mt19937_64 := @mt19937_64 base;
  mt19937_64_next := @mt19937_64_next base;
  EmitIntegerUnaryOp :=
    ElementalIrEmitter.EmitIntegerUnaryOp (collaborators := base)
      (tables := tables) no_nans;
  EmitComplexUnaryOp := @EmitComplexUnaryOp base;
  EmitFloatConvert := @EmitFloatConvert base;
  EmitFloatBitcastConvert := @EmitFloatBitcastConvert base;
  EmitElementalClamp :=
    ElementalIrEmitter.EmitElementalClamp (collaborators := base)
      (tables := tables);
  EmitElementalConcatenate :=
    ElementalIrEmitter.EmitElementalConcatenate;
  EmitElementalDynamicSlice :=
    ElementalIrEmitter.EmitElementalDynamicSlice (tables := tables);
  EmitElementalGather := @EmitElementalGather base;
  EmitElementalDynamicUpdateSlice :=
    ElementalIrEmitter.EmitElementalDynamicUpdateSlice (tables := tables)
|}.

(** Tables for the examples: the names and numbers of xla_data.proto and
    the widths of the types. *)
Definition example_type_tables : TypeTables := {|
  PrimitiveType_Name := fun t =>
    match t with
    | PRIMITIVE_TYPE_INVALID => "PRIMITIVE_TYPE_INVALID" | PRED => "PRED"
    | S8 => "S8" | S16 => "S16" | S32 => "S32" | S64 => "S64"
    | U8 => "U8" | U16 => "U16" | U32 => "U32" | U64 => "U64"
    | F16 => "F16" | F32 => "F32" | BF16 => "BF16" | F64 => "F64"
    | C64 => "C64" | TUPLE => "TUPLE" | OPAQUE => "OPAQUE"
    end%string;
  PrimitiveType_number := fun t =>
    match t with
    | PRIMITIVE_TYPE_INVALID => 0 | PRED => 1
    | S8 => 2 | S16 => 3 | S32 => 4 | S64 => 5
    | U8 => 6 | U16 => 7 | U32 => 8 | U64 => 9
    | F16 => 10 | F32 => 11 | F64 => 12 | TUPLE => 13 | OPAQUE => 14
    | C64 => 15 | BF16 => 16
    end;
  BitWidth := fun t =>
    match t with
    | PRED => 1 | S8 | U8 => 8 | S16 | U16 | F16 | BF16 => 16
    | S32 | U32 | F32 => 32 | S64 | U64 | F64 | C64 => 64
    | _ => 0
    end;
  ElementIsSigned := fun s =>
    primitive_util.IsSignedIntegralType (element_type s)
    || primitive_util.IsFloatingPointType (element_type s);
  decimal := fun z => NilZero.string_of_int (Z.to_int z)
|}.

(** ** Dynamic slices in arithmetic form *)

Module DynamicSliceSpec.

(** A start index of [from_bits] bits brought to the index type of [w]
    bits: truncated, or extended by its sign. *)
Definition extended (w from_bits start : Z) : Z :=
  if w <? from_bits then Int.wrap w start
  else if w =? from_bits then start
  else Int.wrap w (Int.signed from_bits start).

(** [clamp(start, 0, largest)] in the signed or in the unsigned order of
    [w]-bit numbers. *)
Definition clamp (is_signed : bool) (w largest start : Z) : Z :=
  let order := fun v => if is_signed then Int.signed w v else v in
  let lower := if order start <=? order 0 then 0 else start in
  if order largest <=? order lower then largest else lower.

(** The clamped start index of a region of extent [region_extent] in an
    input of extent [input_extent]. *)
Definition start_index (is_signed : bool) (w from_bits : Z)
    (input_extent region_extent start : Z) : Z :=
  clamp is_signed w (Int.wrap w (input_extent - region_extent))
    (extended w from_bits start).

End DynamicSliceSpec.

(** ** Concatenation in arithmetic form *)

Module ConcatenateSpec.

(** Where operand [j] begins in the concatenated dimension: the sum of
    the extents of the operands before it. *)
Fixpoint offset (extent : nat -> Z) (j : nat) : Z :=
  match j with
  | O => 0
  | S j' => offset extent j' + extent j'
  end.

(** The first of the operands [0 .. m-1] that ends after coordinate [t]. *)
Fixpoint selected (extent : nat -> Z) (t : Z) (m : nat) : option nat :=
  match m with
  | O => None
  | S m' =>
      match selected extent t m' with
      | Some j => Some j
      | None => if t <? offset extent (S m') then Some m' else None
      end
  end.

End ConcatenateSpec.

(** A scalar select whose predicate byte is [2]. *)
Definition example_select : HloInstruction :=
  example_instruction 4 kSelect (MkShape S32 [] [])
    [example_instruction 1 kCopy (MkShape PRED [] []) [];
     example_instruction 2 kCopy (MkShape S32 [] []) [];
     example_instruction 3 kCopy (MkShape S32 [] []) []].

Definition example_select_generators : HloToElementGeneratorMap :=
  <[1%positive := fun _ => Ok (VInt 8 2)]>
    (<[2%positive := fun _ => Ok (VInt 32 10)]>
       (<[3%positive := fun _ => Ok (VInt 32 20)]> ∅)).

(** The spec's pad: an operand of shape [3] with the values [7, 8, 9],
    padded by one element on each side with the value [0]. *)
Definition example_pad_operand : HloInstruction :=
  example_instruction 1 kCopy (MkShape S32 [3] [0]) [].

Definition example_pad_value : HloInstruction :=
  example_instruction 2 kCopy (MkShape S32 [] []) [].

Definition example_pad : HloInstruction :=
  MkHloInstruction 3 kPad (MkShape S32 [5] [0])
    [example_pad_operand; example_pad_value]
    [MkPaddingConfigDimension 1 1 0] (MkDotDimensionNumbers [] []) [] 0 0
    RNG_INVALID false.

(** A generator that reads a one-dimensional buffer of 32-bit integers;
    a read outside of the buffer is undefined. *)
Definition buffer_generator (buffer : list Z) : ElementGenerator :=
  fun index =>
    match multidim index with
    | [VInt _ i] =>
        if i <? Z.of_nat (length buffer)
        then Ok (VInt 32 (nth (Z.to_nat i) buffer 0)) else Aborts
    | _ => Aborts
    end.

Definition example_pad_generators : HloToElementGeneratorMap :=
  <[1%positive := buffer_generator [7; 8; 9]]>
    (<[2%positive := fun _ => Ok (VInt 32 0)]> ∅).

Definition example_index (coordinates : list Z) : Index :=
  MkIndex (map (VInt 64) coordinates) None (IntegerTy 64).

(** The spec's dot: a [2,3] matrix times a [3,4] matrix of 32-bit
    integers, contracting dimension 1 of the left with dimension 0 of the
    right. *)
Definition matrix_entry (columns : Z) (buffer : list Z) (i j : Z) : Z :=
  if i * columns + j <? Z.of_nat (length buffer)
  then nth (Z.to_nat (i * columns + j)) buffer 0 else 0.

(** A generator that reads a row-major matrix; a read outside of the
    matrix is undefined. *)
Definition matrix_generator (columns : Z) (buffer : list Z) : ElementGenerator :=
  fun index =>
    match multidim index with
    | [VInt _ i; VInt _ j] =>
        if (j <? columns) && (i * columns + j <? Z.of_nat (length buffer))
        then Ok (VInt 32 (matrix_entry columns buffer i j)) else Aborts
    | _ => Aborts
    end.

Definition example_lhs_values : list Z := [1; 2; 3; 4; 5; 6].

Definition example_rhs_values : list Z :=
  [1; 2; 3; 4; 5; 6; 7; 8; 9; 10; 11; 12].

Definition example_dot_lhs : HloInstruction :=
  example_instruction 1 kCopy (MkShape S32 [2; 3] [1; 0]) [].

Definition example_dot_rhs : HloInstruction :=
  example_instruction 2 kCopy (MkShape S32 [3; 4] [1; 0]) [].

Definition example_dot : HloInstruction :=
  MkHloInstruction 3 kDot (MkShape S32 [2; 4] [1; 0])
    [example_dot_lhs; example_dot_rhs] [] (MkDotDimensionNumbers [1] [0]) []
    0 0 RNG_INVALID false.

Definition example_dot_generators : HloToElementGeneratorMap :=
  <[1%positive := matrix_generator 3 example_lhs_values]>
    (<[2%positive := matrix_generator 4 example_rhs_values]> ∅).

(** A dot of two vectors of three 32-bit integers, [1, 2, 3] and
    [4, 5, 6]: the result is a scalar. *)
Definition example_vector_dot : HloInstruction :=
  MkHloInstruction 3 kDot (MkShape S32 [] [])
    [example_instruction 1 kCopy (MkShape S32 [3] [0]) [];
     example_instruction 2 kCopy (MkShape S32 [3] [0]) []]
    [] (MkDotDimensionNumbers [0] [0]) [] 0 0 RNG_INVALID false.

Definition example_vector_dot_generators : HloToElementGeneratorMap :=
  <[1%positive := buffer_generator [1; 2; 3]]>
    (<[2%positive := buffer_generator [4; 5; 6]]> ∅).

(** A random instruction: sixteen unsigned 32-bit numbers, uniform in
    [0, 100). *)
Definition example_rng : HloInstruction :=
  MkHloInstruction 3 kRng (MkShape U32 [16] [0])
    [example_instruction 1 kCopy (MkShape U32 [] []) [];
     example_instruction 2 kCopy (MkShape U32 [] []) []]
    [] (MkDotDimensionNumbers [] []) [] 0 0 RNG_UNIFORM false.

Definition example_rng_generators : HloToElementGeneratorMap :=
  <[1%positive := fun _ => Ok (VInt 32 0)]>
    (<[2%positive := fun _ => Ok (VInt 32 100)]> ∅).

(** An emitter whose configuration carries the seed 42, with a zeroed
    stack slot, and one that has no configured seed and whose stack slot
    holds the words of an earlier sample. *)
Definition example_seeded_emitter : Emitter :=
  MkEmitter false 42 (VInt 64 5) (replicate 4 (VInt 32 0)).

Definition example_unseeded_emitter : Emitter :=
  MkEmitter true 0 (VInt 64 5) [VInt 32 1; VInt 32 2; VInt 32 3; VInt 32 4].

(** Instructions the base emitter does not support: [atan2] and [tanh] on
    32-bit floats, a normal distribution of 64-bit floats, and an opcode
    that has no case in [MakeElementGenerator]. *)
Definition example_atan2 : HloInstruction :=
  example_instruction 3 kAtan2 (MkShape F32 [] [])
    [example_instruction 1 kCopy (MkShape F32 [] []) [];
     example_instruction 2 kCopy (MkShape F32 [] []) []].

Definition example_tanh : HloInstruction :=
  example_instruction 3 kTanh (MkShape F32 [] [])
    [example_instruction 1 kCopy (MkShape F32 [] []) []].

Definition example_convolution : HloInstruction :=
  example_instruction 3 (kOtherOpcode "convolution") (MkShape F32 [] [])
    [example_instruction 1 kCopy (MkShape F32 [] []) [];
     example_instruction 2 kCopy (MkShape F32 [] []) []].

Definition example_float_generators : HloToElementGeneratorMap :=
  <[1%positive := fun _ => Ok (VFP FloatTy 1065353216)]>
    (<[2%positive := fun _ => Ok (VFP FloatTy 1073741824)]> ∅).

Definition example_normal_rng : HloInstruction :=
  MkHloInstruction 3 kRng (MkShape F64 [16] [0])
    [example_instruction 1 kCopy (MkShape F64 [] []) [];
     example_instruction 2 kCopy (MkShape F64 [] []) []]
    [] (MkDotDimensionNumbers [] []) [] 0 0 RNG_NORMAL false.

Definition example_double_generators : HloToElementGeneratorMap :=
  <[1%positive := fun _ => Ok (VFP DoubleTy 0)]>
    (<[2%positive := fun _ => Ok (VFP DoubleTy 4607182418800017408)]> ∅).

(** The seeded emitter once more, at a later value of the Philox state
    variable. *)
Definition example_later_state_emitter : Emitter :=
  MkEmitter false 42 (VInt 64 6) (replicate 4 (VInt 32 0)).

(** A conversion of a scalar from one element type to another. *)
Definition example_convert (from_type to_type : PrimitiveType)
  : HloInstruction :=
  example_instruction 2 kConvert (MkShape to_type [] [])
    [example_instruction 1 kCopy (MkShape from_type [] []) []].

(** A clamp of signed bytes to the bounds given by two scalars. *)
Definition example_clamp : HloInstruction :=
  example_instruction 4 kClamp (MkShape S8 [] [])
    [example_instruction 1 kCopy (MkShape S8 [] []) [];
     example_instruction 2 kCopy (MkShape S8 [] []) [];
     example_instruction 3 kCopy (MkShape S8 [] []) []].

Definition example_clamp_generators (lo x hi : Z) : HloToElementGeneratorMap :=
  <[1%positive := fun _ => Ok (VInt 8 lo)]>
    (<[2%positive := fun _ => Ok (VInt 8 x)]>
       (<[3%positive := fun _ => Ok (VInt 8 hi)]> ∅)).

(** A generator that reads a one-dimensional buffer of [bits]-bit
    integers; a read outside of the buffer is undefined. *)
Definition checked_buffer_generator (bits : Z) (buffer : list Z)
  : ElementGenerator :=
  fun index =>
    match multidim index with
    | [VInt _ i] =>
        if i <? Z.of_nat (length buffer)
        then Ok (VInt bits (nth (Z.to_nat i) buffer 0)) else Aborts
    | _ => Aborts
    end.

(** A slice of three elements of the buffer [10, 11, 12, 13, 14] that
    starts at a dynamic index. *)
Definition example_dynamic_slice : HloInstruction :=
  example_instruction 3 kDynamicSlice (MkShape S32 [3] [0])
    [example_instruction 1 kCopy (MkShape S32 [5] [0]) [];
     example_instruction 2 kCopy (MkShape S32 [1] [0]) []].

Definition example_dynamic_slice_generators (start : Z)
  : HloToElementGeneratorMap :=
  <[1%positive := checked_buffer_generator 32 [10; 11; 12; 13; 14]]>
    (<[2%positive := checked_buffer_generator 32 [start]]> ∅).

(** The buffer [10, 11, 12, 13, 14] with the two elements [70, 71]
    written at a dynamic index. *)
Definition example_dynamic_update_slice : HloInstruction :=
  example_instruction 4 kDynamicUpdateSlice (MkShape S32 [5] [0])
    [example_instruction 1 kCopy (MkShape S32 [5] [0]) [];
     example_instruction 2 kCopy (MkShape S32 [2] [0]) [];
     example_instruction 3 kCopy (MkShape S32 [1] [0]) []].

Definition example_dynamic_update_slice_generators (start : Z)
  : HloToElementGeneratorMap :=
  <[1%positive := checked_buffer_generator 32 [10; 11; 12; 13; 14]]>
    (<[2%positive := checked_buffer_generator 32 [70; 71]]>
       (<[3%positive := checked_buffer_generator 32 [start]]> ∅)).

(** The concatenation of [10, 11] and [20, 21, 22]. *)
Definition example_concatenate : HloInstruction :=
  MkHloInstruction 3 kConcatenate (MkShape S32 [5] [0])
    [example_instruction 1 kCopy (MkShape S32 [2] [0]) [];
     example_instruction 2 kCopy (MkShape S32 [3] [0]) []]
    [] (MkDotDimensionNumbers [] []) [0] 0 0 RNG_INVALID false.

Definition example_concatenate_generators : HloToElementGeneratorMap :=
  <[1%positive := checked_buffer_generator 32 [10; 11]]>
    (<[2%positive := checked_buffer_generator 32 [20; 21; 22]]> ∅).

(** Generators of the bounds of a uniform distribution of 32-bit
    integers. *)
Definition example_bounds_generators (a b : Z) : HloToElementGeneratorMap :=
  <[1%positive := fun _ => Ok (VInt 32 a)]>
    (<[2%positive := fun _ => Ok (VInt 32 b)]> ∅).

(** The reversal of the buffer [10, 11, 12]. *)
Definition example_reverse : HloInstruction :=
  MkHloInstruction 2 kReverse (MkShape S32 [3] [0])
    [example_instruction 1 kCopy (MkShape S32 [3] [0]) []]
    [] (MkDotDimensionNumbers [] []) [0] 0 0 RNG_INVALID false.

Definition example_reverse_generators : HloToElementGeneratorMap :=
  <[1%positive := checked_buffer_generator 32 [10; 11; 12]]> ∅.

(** A reinterpretation of the bits of a scalar as another element type. *)
Definition example_bitcast_convert (from_type to_type : PrimitiveType)
  : HloInstruction :=
  example_instruction 2 kBitcastConvert (MkShape to_type [] [])
    [example_instruction 1 kCopy (MkShape from_type [] []) []].
(* ================================================================= *)
(** * Theorems *)

Lemma pow2_pos (w : Z) : 0 <= w -> 0 < 2 ^ w.
Proof. intros. apply Z.pow_pos_nonneg; lia. Qed.

Lemma pow2_half (w : Z) : 0 < w -> 2 ^ w = 2 * 2 ^ (w - 1).
Proof.
  intros. replace w with (Z.succ (w - 1)) at 1 by lia.
  rewrite Z.pow_succ_r by lia. reflexivity.
Qed.

Lemma wrap_small (w x : Z) : 0 <= x < 2 ^ w -> Int.wrap w x = x.
Proof. intros. unfold Int.wrap. apply Z.mod_small. assumption. Qed.

Lemma wrap_0 (w : Z) : Int.wrap w 0 = 0.
Proof. unfold Int.wrap. apply Zmod_0_l. Qed.

Lemma wrap_1 (w : Z) : 0 < w -> Int.wrap w 1 = 1.
Proof.
  intros. apply wrap_small. pose proof (pow2_half w H).
  pose proof (pow2_pos (w - 1)). lia.
Qed.

Lemma bind_Ok {A B} (a : A) (f : A -> Outcome B) : (Ok a ≫= f) = f a.
Proof. reflexivity. Qed.

Lemma int_binop_same f w x y :
  int_binop f (VInt w x) (VInt w y) = (f w x y ≫= fun r => Ok (VInt w r)).
Proof. unfold int_binop. rewrite Z.eqb_refl. reflexivity. Qed.

Lemma CreateICmp_same p w x y :
  CreateICmp p (VInt w x) (VInt w y) = Ok (getInt1 (icmp p w x y)).
Proof. unfold CreateICmp. rewrite Z.eqb_refl. reflexivity. Qed.

Lemma IrType_eqb_refl t : IrType_eqb t t = true.
Proof.
  induction t as [b|k|t0 IH0 t1 IH1]; simpl.
  - apply Z.eqb_refl.
  - destruct k; reflexivity.
  - rewrite IH0, IH1. reflexivity.
Qed.

Lemma CreateSelect_int c w x y :
  CreateSelect (getInt1 c) (VInt w x) (VInt w y) = Ok (VInt w (if c then x else y)).
Proof.
  unfold CreateSelect, getInt1. simpl getType. rewrite IrType_eqb_refl.
  destruct c; reflexivity.
Qed.

Lemma IsZero_int w x : IsZero (VInt w x) = Ok (getInt1 (x =? 0)).
Proof.
  unfold IsZero. simpl. rewrite Z.eqb_refl, wrap_0. reflexivity.
Qed.

Lemma getInt1_and a b : CreateAnd (getInt1 a) (getInt1 b) = Ok (getInt1 (a && b)).
Proof. destruct a, b; reflexivity. Qed.
Lemma getInt1_or a b : CreateOr (getInt1 a) (getInt1 b) = Ok (getInt1 (a || b)).
Proof. destruct a, b; reflexivity. Qed.

Lemma IsIntMinDivisionOverflow_int w x y :
  IsIntMinDivisionOverflow (VInt w x) (VInt w y) =
  Ok (getInt1 ((x =? 2 ^ (w - 1)) && (y =? Int.all_ones w))).
Proof.
  unfold IsIntMinDivisionOverflow. simpl. rewrite !Z.eqb_refl. simpl.
  apply getInt1_and.
Qed.

Lemma safe_rhs_int w x y s :
  0 < w ->
  safe_rhs (VInt w x) (VInt w y) s =
  Ok (VInt w (if (if s then (x =? 2 ^ (w - 1)) && (y =? Int.all_ones w) || (y =? 0) else (y =? 0)) then 1 else y)).
Proof.
  intros Hw. unfold safe_rhs, Select, GetOne. destruct s; simpl negb; cbv iota.
  - rewrite IsZero_int, IsIntMinDivisionOverflow_int. rewrite !bind_Ok.
    rewrite getInt1_or, bind_Ok. cbn [getType ConstantInt]. rewrite bind_Ok, CreateSelect_int, wrap_1 by lia. reflexivity.
  - rewrite IsZero_int, bind_Ok. cbn [getType ConstantInt]. rewrite bind_Ok, CreateSelect_int, wrap_1 by lia. reflexivity.
Qed.


Lemma signed_small w x : 0 <= x < 2 ^ (w - 1) -> Int.signed w x = x.
Proof. intros. unfold Int.signed. destruct (Z.ltb_spec x (2 ^ (w - 1))); lia. Qed.

Lemma signed_big w x : 2 ^ (w - 1) <= x -> Int.signed w x = x - 2 ^ w.
Proof. intros. unfold Int.signed. destruct (Z.ltb_spec x (2 ^ (w - 1))); lia. Qed.

Lemma signed_is_min w x :
  0 < w -> 0 <= x < 2 ^ w ->
  (Int.signed w x =? Int.min_signed w) = (x =? 2 ^ (w - 1)).
Proof.
  intros Hw Hx. pose proof (pow2_half w Hw). pose proof (pow2_pos (w - 1)).
  unfold Int.min_signed.
  destruct (Z.lt_ge_cases x (2 ^ (w - 1))).
  - rewrite signed_small by lia. destruct (Z.eqb_spec x (- 2 ^ (w - 1))), (Z.eqb_spec x (2 ^ (w - 1))); lia.
  - rewrite signed_big by lia. destruct (Z.eqb_spec (x - 2 ^ w) (- 2 ^ (w - 1))), (Z.eqb_spec x (2 ^ (w - 1))); lia.
Qed.

Lemma signed_is_minus_one w y :
  1 < w -> 0 <= y < 2 ^ w ->
  (Int.signed w y =? -1) = (y =? Int.all_ones w).
Proof.
  intros Hw Hy. pose proof (pow2_half w ltac:(lia)). pose proof (pow2_pos (w - 1)).
  pose proof (pow2_half (w - 1) ltac:(lia)). pose proof (pow2_pos (w - 1 - 1)).
  unfold Int.all_ones.
  destruct (Z.lt_ge_cases y (2 ^ (w - 1))).
  - rewrite signed_small by lia. destruct (Z.eqb_spec y (-1)), (Z.eqb_spec y (2 ^ w - 1)); lia.
  - rewrite signed_big by lia. destruct (Z.eqb_spec (y - 2 ^ w) (-1)), (Z.eqb_spec y (2 ^ w - 1)); lia.
Qed.

(** The divisor that reaches [sdiv]/[srem] never triggers undefined
    behaviour. *)
Lemma safe_divisor_defined w x y :
  1 < w -> 0 <= x < 2 ^ w -> 0 <= y < 2 ^ w ->
  let unsafe := (x =? 2 ^ (w - 1)) && (y =? Int.all_ones w) || (y =? 0) in
  let d := if unsafe then 1 else y in
  (d =? 0) || sdiv_overflows w x d = false.
Proof.
  intros Hw Hx Hy unsafe d. unfold sdiv_overflows.
  assert (H1 : 0 <= 1 < 2 ^ w).
  { pose proof (pow2_half w ltac:(lia)). pose proof (pow2_pos (w - 1)). lia. }
  assert (Hd : 0 <= d < 2 ^ w) by (subst d; destruct unsafe; lia).
  rewrite signed_is_min, signed_is_minus_one by lia.
  subst d unsafe. unfold Int.all_ones in *.
  pose proof (pow2_half w ltac:(lia)). pose proof (pow2_pos (w - 1)).
  pose proof (pow2_half (w - 1) ltac:(lia)). pose proof (pow2_pos (w - 1 - 1)).
  destruct (Z.eqb_spec x (2 ^ (w - 1))), (Z.eqb_spec y (2 ^ w - 1)),
    (Z.eqb_spec y 0); cbn [andb orb];
    repeat match goal with
           | |- context [?a =? ?b] => destruct (Z.eqb_spec a b)
           end; cbn [andb orb]; try reflexivity; lia.
Qed.

Lemma EmitIntegerDivide_unsigned w x y :
  0 < w ->
  EmitIntegerDivide (VInt w x) (VInt w y) false =
  Ok (VInt w (if y =? 0 then Int.all_ones w else x / y)).
Proof.
  intros Hw. unfold EmitIntegerDivide. simpl negb. cbv iota.
  rewrite IsZero_int, bind_Ok, safe_rhs_int, bind_Ok by lia.
  unfold CreateUDiv. rewrite int_binop_same.
  destruct (Z.eqb_spec y 0) as [->|Hy].
  - change (1 =? 0) with false. cbv iota. rewrite !bind_Ok.
    cbn [getType GetMinusOne]. rewrite bind_Ok.
    unfold Select. rewrite (CreateSelect_int true). reflexivity.
  - destruct (Z.eqb_spec y 0); [contradiction|]. rewrite !bind_Ok.
    cbn [getType GetMinusOne]. rewrite bind_Ok.
    unfold Select. rewrite (CreateSelect_int false). reflexivity.
Qed.

Lemma EmitIntegerRemainder_unsigned w x y :
  0 < w ->
  EmitIntegerRemainder (VInt w x) (VInt w y) false =
  Ok (VInt w (if y =? 0 then x else x mod y)).
Proof.
  intros Hw. unfold EmitIntegerRemainder. simpl negb. cbv iota.
  rewrite IsZero_int, bind_Ok, safe_rhs_int, bind_Ok by lia.
  unfold CreateURem. rewrite int_binop_same.
  destruct (Z.eqb_spec y 0) as [->|Hy].
  - change (1 =? 0) with false. cbv iota. rewrite !bind_Ok.
    unfold Select. rewrite (CreateSelect_int true). reflexivity.
  - destruct (Z.eqb_spec y 0); [contradiction|]. rewrite !bind_Ok.
    unfold Select. rewrite (CreateSelect_int false). reflexivity.
Qed.

Lemma EmitIntegerDivide_signed w x y :
  1 < w -> 0 <= x < 2 ^ w -> 0 <= y < 2 ^ w ->
  EmitIntegerDivide (VInt w x) (VInt w y) true =
  Ok (VInt w (if y =? 0 then Int.all_ones w
              else if (x =? 2 ^ (w - 1)) && (y =? Int.all_ones w)
                   then 2 ^ (w - 1)
                   else Int.wrap w (Z.quot (Int.signed w x) (Int.signed w y)))).
Proof.
  intros Hw Hx Hy. unfold EmitIntegerDivide. simpl negb. cbv iota.
  rewrite IsZero_int, bind_Ok, IsIntMinDivisionOverflow_int, bind_Ok.
  rewrite safe_rhs_int, bind_Ok by lia.
  unfold CreateSDiv. rewrite int_binop_same.
  pose proof (safe_divisor_defined w x y Hw Hx Hy) as Hsafe. cbv zeta in Hsafe.
  rewrite Hsafe. rewrite !bind_Ok.
  cbn [getType GetMinusOne GetIntSMin]. rewrite !bind_Ok.
  unfold Select. rewrite CreateSelect_int, bind_Ok, CreateSelect_int.
  f_equal. f_equal.
  destruct (y =? 0); [reflexivity|].
  destruct ((x =? 2 ^ (w - 1)) && (y =? Int.all_ones w)); reflexivity.
Qed.

Lemma EmitIntegerRemainder_signed w x y :
  1 < w -> 0 <= x < 2 ^ w -> 0 <= y < 2 ^ w ->
  EmitIntegerRemainder (VInt w x) (VInt w y) true =
  Ok (VInt w (if y =? 0 then x
              else if (x =? 2 ^ (w - 1)) && (y =? Int.all_ones w)
                   then 0
                   else Int.wrap w (Z.rem (Int.signed w x) (Int.signed w y)))).
Proof.
  intros Hw Hx Hy. unfold EmitIntegerRemainder. simpl negb. cbv iota.
  rewrite IsZero_int, bind_Ok, IsIntMinDivisionOverflow_int, bind_Ok.
  rewrite safe_rhs_int, bind_Ok by lia.
  unfold CreateSRem. rewrite int_binop_same.
  pose proof (safe_divisor_defined w x y Hw Hx Hy) as Hsafe. cbv zeta in Hsafe.
  rewrite Hsafe. rewrite !bind_Ok.
  cbn [getType GetZero ConstantInt]. rewrite !bind_Ok, wrap_0.
  unfold Select. rewrite CreateSelect_int, bind_Ok, CreateSelect_int.
  f_equal. f_equal.
  destruct (y =? 0); [reflexivity|].
  destruct ((x =? 2 ^ (w - 1)) && (y =? Int.all_ones w)); reflexivity.
Qed.

(** ** Integer division and remainder *)

(** C1. For every unsigned dividend [x] of an integer type of [w] bits,
    [Divide] by zero returns the all-ones maximum of the type and
    [Remainder] by zero returns [x]; for signed integers [INT_MIN / -1]
    returns [INT_MIN] and [INT_MIN % -1] returns [0]. *)
Theorem divide_remainder_overflow_policy (w x : Z) :
  1 < w -> 0 <= x < 2 ^ w ->
  EmitIntegerDivide (VInt w x) (VInt w 0) false = Ok (VInt w (Int.all_ones w)) /\
  EmitIntegerRemainder (VInt w x) (VInt w 0) false = Ok (VInt w x) /\
  EmitIntegerDivide (VInt w (2 ^ (w - 1))) (VInt w (Int.all_ones w)) true
    = Ok (VInt w (2 ^ (w - 1))) /\
  EmitIntegerRemainder (VInt w (2 ^ (w - 1))) (VInt w (Int.all_ones w)) true
    = Ok (VInt w 0).
Proof.
  intros Hw Hx.
  pose proof (pow2_half w ltac:(lia)) as Hh. pose proof (pow2_pos (w - 1)) as Hp.
  assert (Hm1 : (Int.all_ones w =? 0) = false).
  { unfold Int.all_ones. apply Z.eqb_neq. lia. }
  repeat split.
  - rewrite EmitIntegerDivide_unsigned by lia. reflexivity.
  - rewrite EmitIntegerRemainder_unsigned by lia. reflexivity.
  - rewrite EmitIntegerDivide_signed by (unfold Int.all_ones; lia).
    rewrite Hm1, !Z.eqb_refl. reflexivity.
  - rewrite EmitIntegerRemainder_signed by (unfold Int.all_ones; lia).
    rewrite Hm1, !Z.eqb_refl. reflexivity.
Qed.

(** The spec's 32-bit instance: [5 / 0 == 0xFFFFFFFF], [5 % 0 == 5],
    [INT_MIN / -1 == INT_MIN], [INT_MIN % -1 == 0]. *)
Lemma divide_remainder_overflow_policy_u32 :
  (1 < 32 /\ 0 <= 5 < 2 ^ 32) /\
  EmitIntegerDivide (VInt 32 5) (VInt 32 0) false = Ok (VInt 32 4294967295) /\
  EmitIntegerRemainder (VInt 32 5) (VInt 32 0) false = Ok (VInt 32 5) /\
  EmitIntegerDivide (VInt 32 2147483648) (VInt 32 4294967295) true
    = Ok (VInt 32 2147483648) /\
  EmitIntegerRemainder (VInt 32 2147483648) (VInt 32 4294967295) true
    = Ok (VInt 32 0).
Proof.
  split; [lia | apply (divide_remainder_overflow_policy 32 5); lia].
Defined.

(** C9. For every signed dividend [x], division by zero returns all ones
    ([-1]) and remainder by zero returns [x]; and on every divide and
    remainder path, signed or not, the division instruction receives the
    divisor [1] whenever the original divisor is unsafe, so that no
    division traps: both emitters return a value on all operands. *)
Theorem signed_division_by_zero_and_no_trap (w x y : Z) (is_signed : bool) :
  1 < w -> 0 <= x < 2 ^ w -> 0 <= y < 2 ^ w ->
  EmitIntegerDivide (VInt w x) (VInt w 0) true = Ok (VInt w (Int.all_ones w)) /\
  EmitIntegerRemainder (VInt w x) (VInt w 0) true = Ok (VInt w x) /\
  (y = 0 \/ (is_signed = true /\ x = 2 ^ (w - 1) /\ y = Int.all_ones w) ->
   safe_rhs (VInt w x) (VInt w y) is_signed = Ok (VInt w 1)) /\
  is_Ok (EmitIntegerDivide (VInt w x) (VInt w y) is_signed) = true /\
  is_Ok (EmitIntegerRemainder (VInt w x) (VInt w y) is_signed) = true.
Proof.
  intros Hw Hx Hy.
  pose proof (pow2_half w ltac:(lia)) as Hh. pose proof (pow2_pos (w - 1)) as Hp.
  repeat split.
  - rewrite EmitIntegerDivide_signed by lia. reflexivity.
  - rewrite EmitIntegerRemainder_signed by lia. reflexivity.
  - intros Hunsafe. rewrite safe_rhs_int by lia.
    destruct Hunsafe as [-> | (-> & -> & ->)].
    + rewrite Z.eqb_refl, orb_true_r. destruct is_signed; reflexivity.
    + rewrite !Z.eqb_refl. reflexivity.
  - destruct is_signed.
    + rewrite EmitIntegerDivide_signed by lia. reflexivity.
    + rewrite EmitIntegerDivide_unsigned by lia. reflexivity.
  - destruct is_signed.
    + rewrite EmitIntegerRemainder_signed by lia. reflexivity.
    + rewrite EmitIntegerRemainder_unsigned by lia. reflexivity.
Qed.

Lemma signed_division_by_zero_and_no_trap_s32 :
  (1 < 32 /\ 0 <= 7 < 2 ^ 32 /\ 0 <= 0 < 2 ^ 32) /\
  EmitIntegerDivide (VInt 32 7) (VInt 32 0) true = Ok (VInt 32 (Int.all_ones 32)) /\
  EmitIntegerRemainder (VInt 32 7) (VInt 32 0) true = Ok (VInt 32 7) /\
  (0 = 0 \/ (true = true /\ 7 = 2 ^ (32 - 1) /\ 0 = Int.all_ones 32) ->
   safe_rhs (VInt 32 7) (VInt 32 0) true = Ok (VInt 32 1)) /\
  is_Ok (EmitIntegerDivide (VInt 32 7) (VInt 32 0) true) = true /\
  is_Ok (EmitIntegerRemainder (VInt 32 7) (VInt 32 0) true) = true.
Proof.
  split; [lia | apply (signed_division_by_zero_and_no_trap 32 7 0 true); lia].
Defined.

(** ** Precision reduction *)

Lemma land_low_mask (s k : Z) :
  0 <= s < 2 ^ 32 -> 0 <= k ->
  Z.land s (Int.wrap 32 (Z.lnot (2 ^ k - 1))) = s - s mod 2 ^ k.
Proof.
  intros Hs Hk. unfold Int.wrap.
  rewrite <- (Z.land_ones _ 32) by lia.
  rewrite Z.land_assoc, (Z.land_comm s), <- Z.land_assoc.
  rewrite (Z.land_ones s 32), (Z.mod_small s) by lia.
  replace (2 ^ k - 1) with (Z.ones k) by (rewrite Z.ones_equiv; lia).
  rewrite Z.land_comm, <- Z.ldiff_land, Z.ldiff_ones_r by lia.
  rewrite Z.shiftl_mul_pow2, Z.shiftr_div_pow2 by lia.
  pose proof (pow2_pos k Hk).
  rewrite (Z.mod_eq s (2 ^ k)) by lia. lia.
Qed.

Lemma land_single_bit (x k : Z) :
  0 <= k -> Z.shiftr (Z.land x (2 ^ k)) k = (x / 2 ^ k) mod 2.
Proof.
  intros Hk. rewrite Z.shiftr_land.
  rewrite (Z.shiftr_div_pow2 (2 ^ k)), Z.div_same by (pose proof (pow2_pos k); lia).
  change 1 with (Z.ones 1). rewrite Z.land_ones by lia.
  rewrite Z.shiftr_div_pow2 by lia. reflexivity.
Qed.

Lemma fcmp_uno_refl (x : spec_float) : fcmp FCMP_UNO x x = sf_is_nan x.
Proof.
  unfold fcmp. destruct x as [[]|[]| |[] m e]; simpl;
    rewrite ?Z.compare_refl, ?Pos.compare_refl; reflexivity.
Qed.

Lemma decode_is_nan (v : Z) :
  sf_is_nan (FP.decode FloatTy v) = FP.is_nan FloatTy v.
Proof.
  unfold FP.decode, FP.is_nan.
  assert (Hm : 0 <= FP.mantissa_field FloatTy v).
  { unfold FP.mantissa_field. apply Z.mod_pos_bound. reflexivity. }
  destruct (Z.eqb_spec (FP.exponent_field FloatTy v) 0) as [E0|E0].
  - rewrite E0. destruct (FP.mantissa_field FloatTy v); reflexivity.
  - destruct (Z.eqb_spec (FP.exponent_field FloatTy v) (2 ^ FP.ebits FloatTy - 1)) as [E1|E1].
    + destruct (Z.eqb_spec (FP.mantissa_field FloatTy v) 0); reflexivity.
    + destruct (FP.mantissa_field FloatTy v + 2 ^ FP.mbits FloatTy) eqn:Em;
        try reflexivity; exfalso; change (2 ^ FP.mbits FloatTy) with 8388608 in Em; lia.
Qed.

Lemma CreateSelect_same (c : bool) (a b : Value) :
  getType a = getType b ->
  CreateSelect (getInt1 c) a b = Ok (if c then a else b).
Proof.
  intros H. unfold CreateSelect, getInt1. rewrite H, IrType_eqb_refl.
  destruct c; reflexivity.
Qed.

Lemma uint32_small (z : Z) : 0 <= z < 2 ^ 32 -> uint32_t z = z.
Proof. apply wrap_small. Qed.

Lemma bitcast_f32_i32 x : CreateBitCast (VFP FloatTy x) (IntegerTy 32) = Ok (VInt 32 x).
Proof. reflexivity. Qed.
Lemma bitcast_i32_f32 x : CreateBitCast (VInt 32 x) (FPTy FloatTy) = Ok (VFP FloatTy x).
Proof. reflexivity. Qed.

Lemma CreateAnd_int w x y : CreateAnd (VInt w x) (VInt w y) = Ok (VInt w (Z.land x y)).
Proof. unfold CreateAnd. rewrite int_binop_same. reflexivity. Qed.
Lemma CreateOr_int w x y : CreateOr (VInt w x) (VInt w y) = Ok (VInt w (Z.lor x y)).
Proof. unfold CreateOr. rewrite int_binop_same. reflexivity. Qed.
Lemma CreateXor_int w x y : CreateXor (VInt w x) (VInt w y) = Ok (VInt w (Z.lxor x y)).
Proof. unfold CreateXor. rewrite int_binop_same. reflexivity. Qed.
Lemma CreateAdd_int w x y : CreateAdd (VInt w x) (VInt w y) = Ok (VInt w (Int.wrap w (x + y))).
Proof. unfold CreateAdd. rewrite int_binop_same. reflexivity. Qed.
Lemma CreateSub_int w x y : CreateSub (VInt w x) (VInt w y) = Ok (VInt w (Int.wrap w (x - y))).
Proof. unfold CreateSub. rewrite int_binop_same. reflexivity. Qed.
Lemma CreateMul_int w x y : CreateMul (VInt w x) (VInt w y) = Ok (VInt w (Int.wrap w (x * y))).
Proof. unfold CreateMul. rewrite int_binop_same. reflexivity. Qed.
Lemma CreateLShr_int w x y :
  y < w -> CreateLShr (VInt w x) (VInt w y) = Ok (VInt w (Z.shiftr x y)).
Proof.
  intros H. unfold CreateLShr, int_shift. rewrite Z.eqb_refl.
  destruct (Z.ltb_spec y w); [reflexivity|lia].
Qed.

Ltac emit_step :=
  repeat (progress (rewrite ?CreateAnd_int, ?CreateOr_int, ?CreateAdd_int,
                      ?CreateSub_int, ?CreateMul_int, ?CreateICmp_same, ?bind_Ok;
                    cbv beta)).

Lemma wrap_uint32 (z : Z) : Int.wrap 32 (uint32_t z) = Int.wrap 32 z.
Proof. unfold uint32_t, Int.wrap. apply Z.mod_mod. discriminate. Qed.

Lemma round_mantissa_range (m x : Z) :
  0 <= m -> 0 <= x < 2 ^ 32 ->
  0 <= ReducePrecision.round_mantissa m x < 2 ^ 32.
Proof.
  intros Hm Hx. unfold ReducePrecision.round_mantissa.
  destruct (Z.ltb_spec m 23); [|lia].
  set (s := Int.wrap 32 _).
  assert (Hs : 0 <= s < 2 ^ 32) by (apply Z.mod_pos_bound; reflexivity).
  pose proof (pow2_pos (23 - m) ltac:(lia)).
  pose proof (Z.mod_pos_bound s (2 ^ (23 - m)) ltac:(lia)).
  pose proof (Z.mod_le s (2 ^ (23 - m)) ltac:(lia) ltac:(lia)). lia.
Qed.

Lemma EmitReducePrecisionFloat_bits (nn : bool) (e m x : Z) :
  0 <= x < 2 ^ 32 -> 1 <= e -> 0 <= m ->
  EmitReducePrecisionFloat nn (VFP FloatTy x) e m
  = Ok (VFP FloatTy (ReducePrecision.bits nn e m x)).
Proof.
  intros Hx He Hm. unfold EmitReducePrecisionFloat.
  cbn [getType]. rewrite bitcast_f32_i32. emit_step.
  match goal with
  | |- (?A ≫= _) = _ =>
      assert (A = Ok (VInt 32 (ReducePrecision.round_mantissa m x))) as ->
  end.
  { unfold ReducePrecision.round_mantissa. destruct (Z.ltb_spec m 23); [|reflexivity].
    cbn [ConstantInt]. emit_step.
    set (k := 23 - m).
    assert (Hk : 1 <= k <= 23) by (subst k; lia). clearbody k.
    assert (Hpk : 2 <= 2 ^ k <= 2 ^ 23).
    { split.
      - change 2 with (2 ^ 1) at 1. apply Z.pow_le_mono_r; lia.
      - apply Z.pow_le_mono_r; lia. }
    change (2 ^ 23) with 8388608 in Hpk.
    assert (Hmask : uint32_t (Z.shiftl 1 k) = 2 ^ k).
    { rewrite Z.shiftl_mul_pow2, Z.mul_1_l by lia. apply uint32_small.
      change (2 ^ 32) with 4294967296. lia. }
    rewrite Hmask.
    assert (Hhalf : Z.shiftr (2 ^ k) 1 = 2 ^ (k - 1)).
    { rewrite Z.shiftr_div_pow2 by lia. rewrite (pow2_half k) by lia.
      change (2 ^ 1) with 2. rewrite Z.mul_comm, Z.div_mul by lia. reflexivity. }
    rewrite Hhalf.
    pose proof (pow2_half k ltac:(lia)) as Hh.
    assert (Hp1 : 1 <= 2 ^ (k - 1)) by (pose proof (pow2_pos (k - 1)); lia).
    rewrite (wrap_small 32 k) by (change (2 ^ 32) with 4294967296; lia).
    rewrite (wrap_small 32 (2 ^ k)) by (change (2 ^ 32) with 4294967296; lia).
    rewrite CreateLShr_int by lia. emit_step.
    rewrite land_single_bit by lia.
    pose proof (Z.mod_pos_bound (x / 2 ^ k) 2 ltac:(lia)) as Hbit.
    rewrite (uint32_small (2 ^ (k - 1) - 1)) by (change (2 ^ 32) with 4294967296; lia).
    rewrite (wrap_small 32 (2 ^ (k - 1) - 1)) by (change (2 ^ 32) with 4294967296; lia).
    rewrite (wrap_small 32 (_ mod 2 + _)) by (change (2 ^ 32) with 4294967296; lia).
    rewrite wrap_uint32.
    rewrite land_low_mask; [reflexivity| |lia].
    unfold Int.wrap. apply Z.mod_pos_bound. reflexivity. }
  emit_step.
  pose proof (round_mantissa_range m x Hm Hx) as Hy.
  unfold ReducePrecision.bits.
  set (y := ReducePrecision.round_mantissa m x) in *. clearbody y.
  match goal with
  | |- (?A ≫= _) = _ =>
      assert (A = Ok (VInt 32 (ReducePrecision.saturate_exponent e y))) as ->
  end.
  { unfold ReducePrecision.saturate_exponent. destruct (Z.ltb_spec e 8); [|reflexivity].
    assert (He' : e = 1 \/ e = 2 \/ e = 3 \/ e = 4 \/ e = 5 \/ e = 6 \/ e = 7) by lia.
    destruct He' as [-> | [-> | [-> | [-> | [-> | [-> | ->]]]]]];
      cbn [ConstantInt]; emit_step;
      rewrite CreateSelect_int; emit_step;
      rewrite CreateSelect_int;
      unfold icmp; 
      repeat match goal with
        | |- context [Int.wrap 32 ?c] =>
            let v := eval vm_compute in (Int.wrap 32 c) in
            change (Int.wrap 32 c) with v
        end.
    all: reflexivity. }
  emit_step. rewrite bitcast_i32_f32. emit_step.
  destruct nn; cbn [negb]; [reflexivity|].
  unfold CreateFCmp. cbn [FPType_eqb]. rewrite fcmp_uno_refl, decode_is_nan. emit_step.
  destruct (0 <? m).
  - rewrite CreateSelect_same by reflexivity. destruct (FP.is_nan FloatTy x); reflexivity.
  - cbn [ConstantFP_getInfinity]. emit_step.
    rewrite CreateSelect_same by reflexivity. destruct (FP.is_nan FloatTy x); reflexivity.
Qed.

Lemma sign_bit_cases (y : Z) :
  0 <= y < 2 ^ 32 -> Z.land y 2147483648 = 0 \/ Z.land y 2147483648 = 2147483648.
Proof.
  intros Hy. change 2147483648 with (2 ^ 31).
  assert (H : Z.land y (2 ^ 31) = 2 ^ 31 * ((y / 2 ^ 31) mod 2)).
  { rewrite <- (land_single_bit y 31) by lia.
    rewrite (Z.shiftr_div_pow2 _ 31) by lia.
    assert (Hd : Z.land y (2 ^ 31) mod 2 ^ 31 = 0).
    { rewrite <- Z.land_ones by lia. rewrite <- Z.land_assoc.
      change (Z.land (2 ^ 31) (Z.ones 31)) with 0. apply Z.land_0_r. }
    rewrite (Z.div_mod (Z.land y (2 ^ 31)) (2 ^ 31)) at 1 by discriminate.
    lia. }
  rewrite H. pose proof (Z.mod_pos_bound (y / 2 ^ 31) 2 ltac:(lia)).
  assert (C : (y / 2 ^ 31) mod 2 = 0 \/ (y / 2 ^ 31) mod 2 = 1) by lia.
  destruct C as [-> | ->]; [left|right]; reflexivity.
Qed.

Lemma multiple_of_low_bits (v k : Z) :
  1 <= k <= 23 -> v mod 2 ^ 23 = 0 -> v mod 2 ^ k = 0.
Proof.
  intros Hk Hv. apply Z.mod_divide in Hv; [|discriminate].
  destruct Hv as [q ->].
  replace 23 with ((23 - k) + k) by lia. rewrite Z.pow_add_r by lia.
  rewrite Z.mul_assoc. apply Z.mod_mul.
  pose proof (pow2_pos k). lia.
Qed.

Lemma round_mantissa_multiple (m x : Z) :
  0 <= m < 23 -> ReducePrecision.round_mantissa m x mod 2 ^ (23 - m) = 0.
Proof.
  intros Hm. unfold ReducePrecision.round_mantissa.
  destruct (Z.ltb_spec m 23); [|lia].
  set (s := Int.wrap 32 _). pose proof (pow2_pos (23 - m) ltac:(lia)).
  rewrite (Z.mod_eq s (2 ^ (23 - m))) by lia.
  replace (s - (s - 2 ^ (23 - m) * (s / 2 ^ (23 - m)))) with (s / 2 ^ (23 - m) * 2 ^ (23 - m)) by lia.
  apply Z.mod_mul. lia.
Qed.

Lemma round_mantissa_fix (m y : Z) :
  0 <= m -> 0 <= y < 2 ^ 32 ->
  (m < 23 -> y mod 2 ^ (23 - m) = 0) ->
  ReducePrecision.round_mantissa m y = y.
Proof.
  intros Hm Hy Hmul. unfold ReducePrecision.round_mantissa.
  destruct (Z.ltb_spec m 23); [|reflexivity].
  specialize (Hmul H). set (k := 23 - m) in *.
  assert (Hk : 1 <= k <= 23) by (subst k; lia). clearbody k.
  pose proof (pow2_pos k ltac:(lia)) as HP.
  pose proof (pow2_half k ltac:(lia)) as Hh.
  pose proof (pow2_pos (k - 1) ltac:(lia)) as HP1.
  pose proof (Z.mod_pos_bound (y / 2 ^ k) 2 ltac:(lia)) as Hbit.
  set (b := (y / 2 ^ k) mod 2 + (2 ^ (k - 1) - 1)) in *.
  assert (Hb : 0 <= b < 2 ^ k) by (subst b; lia).
  apply Z.mod_divide in Hmul; [|lia]. destruct Hmul as [q Hq].
  assert (Htop : y + 2 ^ k <= 2 ^ 32).
  { replace 32 with ((32 - k) + k) in * by lia. rewrite Z.pow_add_r in * by lia.
    pose proof (pow2_pos (32 - k) ltac:(lia)).
    assert (q < 2 ^ (32 - k)) by nia. nia. }
  rewrite (wrap_small 32 (y + b)) by lia.
  assert (Hmod : (y + b) mod 2 ^ k = b).
  { rewrite Hq, Z.add_comm, Z.mod_add by lia. apply Z.mod_small. lia. }
  rewrite Hmod. lia.
Qed.

Lemma round_mantissa_not_nan (m x : Z) :
  0 <= m -> 0 <= x < 2 ^ 32 -> FP.is_finite FloatTy x = true ->
  FP.is_nan FloatTy (ReducePrecision.round_mantissa m x) = false.
Proof.
  intros Hm Hx Hfin. unfold FP.is_finite, FP.is_nan, FP.exponent_field, FP.mantissa_field in *.
  change (FP.mbits FloatTy) with 23 in *. change (FP.ebits FloatTy) with 8 in *.
  rewrite Z.shiftr_div_pow2 in * by lia.
  change (2 ^ 8 - 1) with 255 in *. change (2 ^ 8) with 256 in *.
  change (2 ^ 23) with 8388608 in *.
  apply negb_true_iff, Z.eqb_neq in Hfin.
  unfold ReducePrecision.round_mantissa.
  destruct (Z.ltb_spec m 23).
  2:{ destruct (Z.eqb_spec ((x / 8388608) mod 256) 255); [contradiction|reflexivity]. }
  assert (Hc : m = 0 \/ m = 1 \/ m = 2 \/ m = 3 \/ m = 4 \/ m = 5 \/ m = 6 \/ m = 7 \/
               m = 8 \/ m = 9 \/ m = 10 \/ m = 11 \/ m = 12 \/ m = 13 \/ m = 14 \/
               m = 15 \/ m = 16 \/ m = 17 \/ m = 18 \/ m = 19 \/ m = 20 \/ m = 21 \/
               m = 22) by lia.
  unfold Int.wrap. change (2 ^ 32) with 4294967296 in *.
  repeat match type of Hc with
         | _ \/ _ => destruct Hc as [-> | Hc]
         | _ => subst m
         end;
    cbv beta zeta;
    match goal with
    | |- context [2 ^ ?a] => let v := eval vm_compute in (2 ^ a) in change (2 ^ a) with v
    end;
    match goal with
    | |- context [2 ^ ?a] => let v := eval vm_compute in (2 ^ a) in change (2 ^ a) with v
    end;
    match goal with
    | |- (?a =? 255) && negb (?b =? 0) = false =>
        destruct (Z.eqb_spec a 255); [|reflexivity];
        destruct (Z.eqb_spec b 0); [reflexivity|]; exfalso; Z.to_euclidean_division_equations; lia
    end.
Qed.

(** The saturated value is the argument itself or a signed zero or a
    signed infinity. *)
Lemma saturate_exponent_cases (e y : Z) :
  0 <= y < 2 ^ 32 ->
  let t := ReducePrecision.saturate_exponent e y in
  t = y \/ t = 0 \/ t = 2147483648 \/ t = 2139095040 \/ t = 4286578688.
Proof.
  intros Hy t. subst t. unfold ReducePrecision.saturate_exponent.
  destruct (e <? 8); [|left; reflexivity].
  destruct (_ <=? _).
  - destruct (sign_bit_cases y Hy) as [-> | ->]; tauto.
  - destruct (_ <? _); [|left; reflexivity].
    destruct (sign_bit_cases y Hy) as [-> | ->]; cbn; tauto.
Qed.

Lemma saturate_exponent_constant (e c : Z) :
  1 <= e ->
  c = 0 \/ c = 2147483648 \/ c = 2139095040 \/ c = 4286578688 ->
  ReducePrecision.saturate_exponent e c = c.
Proof.
  intros He Hc. unfold ReducePrecision.saturate_exponent.
  destruct (Z.ltb_spec e 8); [|reflexivity].
  assert (He' : e = 1 \/ e = 2 \/ e = 3 \/ e = 4 \/ e = 5 \/ e = 6 \/ e = 7) by lia.
  destruct He' as [-> | [-> | [-> | [-> | [-> | [-> | ->]]]]]];
    destruct Hc as [-> | [-> | [-> | ->]]]; reflexivity.
Qed.

Lemma saturate_exponent_idempotent (e y : Z) :
  1 <= e -> 0 <= y < 2 ^ 32 ->
  ReducePrecision.saturate_exponent e (ReducePrecision.saturate_exponent e y)
  = ReducePrecision.saturate_exponent e y.
Proof.
  intros He Hy.
  destruct (saturate_exponent_cases e y Hy) as [H | H].
  - rewrite H. exact H.
  - rewrite saturate_exponent_constant; [reflexivity | exact He | exact H].
Qed.

Lemma reduced_bits_fixed (e m x : Z) :
  1 <= e -> 0 <= m -> 0 <= x < 2 ^ 32 ->
  let t := ReducePrecision.saturate_exponent e (ReducePrecision.round_mantissa m x) in
  0 <= t < 2 ^ 32 /\
  ReducePrecision.round_mantissa m t = t /\
  (FP.is_finite FloatTy x = true -> FP.is_nan FloatTy t = false).
Proof.
  intros He Hm Hx t.
  pose proof (round_mantissa_range m x Hm Hx) as Hr.
  destruct (saturate_exponent_cases e _ Hr) as [H | H]; fold t in H.
  - rewrite H. split; [exact Hr|]. split.
    + apply round_mantissa_fix; [exact Hm | exact Hr |].
      intros Hlt. apply round_mantissa_multiple. lia.
    + apply round_mantissa_not_nan; assumption.
  - assert (Hrange : 0 <= t < 2 ^ 32).
    { change (2 ^ 32) with 4294967296. lia. }
    split; [exact Hrange|]. split.
    + apply round_mantissa_fix; [exact Hm | exact Hrange |].
      intros Hlt. apply multiple_of_low_bits; [lia|].
      destruct H as [-> | [-> | [-> | ->]]]; reflexivity.
    + intros _. destruct H as [-> | [-> | [-> | ->]]]; reflexivity.
Qed.

Lemma is_finite_not_nan (x : Z) :
  FP.is_finite FloatTy x = true -> FP.is_nan FloatTy x = false.
Proof.
  unfold FP.is_finite, FP.is_nan. intros H. apply negb_true_iff in H.
  rewrite H. reflexivity.
Qed.

(** C4. ReducePrecision is idempotent: for every finite 32-bit float [x]
    (given by its bit pattern), every [exponent_bits >= 1] and
    [mantissa_bits >= 0], and either setting of the no-NaN fast-math flag,
    the emitter returns a bit pattern [y], and applied to [y] it returns
    [y] again. *)
Theorem reduce_precision_idempotent
    (no_nans : bool) (exponent_bits mantissa_bits x : Z) :
  0 <= x < 2 ^ 32 -> FP.is_finite FloatTy x = true ->
  1 <= exponent_bits -> 0 <= mantissa_bits ->
  exists y : Z,
    EmitReducePrecisionFloat no_nans (VFP FloatTy x) exponent_bits mantissa_bits
      = Ok (VFP FloatTy y) /\
    EmitReducePrecisionFloat no_nans (VFP FloatTy y) exponent_bits mantissa_bits
      = Ok (VFP FloatTy y).
Proof.
  intros Hx Hfin He Hm.
  destruct (reduced_bits_fixed exponent_bits mantissa_bits x He Hm Hx)
    as (Hrange & Hround & Hnan).
  set (t := ReducePrecision.saturate_exponent exponent_bits
              (ReducePrecision.round_mantissa mantissa_bits x)) in *.
  exists t.
  assert (H1 : ReducePrecision.bits no_nans exponent_bits mantissa_bits x = t).
  { unfold ReducePrecision.bits. rewrite is_finite_not_nan by exact Hfin.
    destruct no_nans; reflexivity. }
  assert (H2 : ReducePrecision.bits no_nans exponent_bits mantissa_bits t = t).
  { unfold ReducePrecision.bits. rewrite Hnan by exact Hfin. rewrite Hround.
    unfold t. rewrite saturate_exponent_idempotent;
      [destruct no_nans; reflexivity | exact He |].
    apply round_mantissa_range; assumption. }
  split.
  - rewrite EmitReducePrecisionFloat_bits by assumption. rewrite H1. reflexivity.
  - rewrite EmitReducePrecisionFloat_bits by assumption. rewrite H2. reflexivity.
Qed.

(** Instance: the smallest value that does not underflow when reduced to
    5 exponent bits and 10 mantissa bits rounds up to [6.10352e-05], which
    is then unchanged. *)
Lemma reduce_precision_idempotent_half :
  (0 <= 947908608 < 2 ^ 32 /\ FP.is_finite FloatTy 947908608 = true /\
   1 <= 5 /\ 0 <= 10) /\
  exists y : Z,
    EmitReducePrecisionFloat false (VFP FloatTy 947908608) 5 10
      = Ok (VFP FloatTy y) /\
    EmitReducePrecisionFloat false (VFP FloatTy y) 5 10 = Ok (VFP FloatTy y).
Proof.
  split.
  - repeat split; try lia; reflexivity.
  - apply (reduce_precision_idempotent false 5 10 947908608);
      try lia; reflexivity.
Defined.

(** ** Floating-point operators *)

Lemma decode_nan (k : FPType) (v : Z) :
  FP.is_nan k v = true -> FP.decode k v = S754_nan.
Proof.
  unfold FP.is_nan, FP.decode. intros Hn.
  apply andb_true_iff in Hn. destruct Hn as [He Hm].
  apply Z.eqb_eq in He. apply negb_true_iff in Hm.
  rewrite He, Hm. destruct k; reflexivity.
Qed.

Lemma fcmp_nan_l (p : FloatPredicate) (y : spec_float) :
  fcmp p S754_nan y =
  match p with
  | FCMP_UNO | FCMP_UEQ | FCMP_UGT | FCMP_UGE
  | FCMP_ULT | FCMP_ULE | FCMP_UNE => true
  | _ => false
  end.
Proof. reflexivity. Qed.

Lemma EmitComparison_nan (p : FloatPredicate) (k : FPType) (nan x : Z) :
  FP.is_nan k nan = true ->
  EmitComparison (inr p) (VFP k nan) (VFP k x) =
  Ok (VInt 8 (if fcmp p S754_nan S754_nan then 1 else 0)).
Proof.
  intros Hn. unfold EmitComparison, CreateFCmp.
  assert (Hk : FPType_eqb k k = true) by (destruct k; reflexivity).
  rewrite Hk, (decode_nan k nan Hn), !fcmp_nan_l.
  destruct p; reflexivity.
Qed.

(** C3. Float comparisons: every comparison opcode except not-equal emits
    an ordered comparison and not-equal emits an unordered one; hence for
    a NaN and every float [x] of the same type, [NaN != NaN] is true and
    [NaN == NaN], [NaN < x], [NaN > x] are false (a boolean is the byte 1
    or 0). *)
Theorem float_comparison_ordering `{Collaborators}
    (op : HloInstruction) (k : FPType) (nan x : Z) (lhs rhs : Value) :
  FP.is_nan k nan = true ->
  (opcode op = kEq -> EmitFloatBinaryOp op lhs rhs = EmitComparison (inr FCMP_OEQ) lhs rhs) /\
  (opcode op = kNe -> EmitFloatBinaryOp op lhs rhs = EmitComparison (inr FCMP_UNE) lhs rhs) /\
  (opcode op = kLt -> EmitFloatBinaryOp op lhs rhs = EmitComparison (inr FCMP_OLT) lhs rhs) /\
  (opcode op = kGt -> EmitFloatBinaryOp op lhs rhs = EmitComparison (inr FCMP_OGT) lhs rhs) /\
  (opcode op = kLe -> EmitFloatBinaryOp op lhs rhs = EmitComparison (inr FCMP_OLE) lhs rhs) /\
  (opcode op = kGe -> EmitFloatBinaryOp op lhs rhs = EmitComparison (inr FCMP_OGE) lhs rhs) /\
  (opcode op = kNe ->
   EmitFloatBinaryOp op (VFP k nan) (VFP k nan) = Ok (VInt 8 1)) /\
  (opcode op = kEq ->
   EmitFloatBinaryOp op (VFP k nan) (VFP k nan) = Ok (VInt 8 0)) /\
  (opcode op = kLt ->
   EmitFloatBinaryOp op (VFP k nan) (VFP k x) = Ok (VInt 8 0)) /\
  (opcode op = kGt ->
   EmitFloatBinaryOp op (VFP k nan) (VFP k x) = Ok (VInt 8 0)).
Proof.
  intros Hn. unfold EmitFloatBinaryOp.
  repeat split; intros ->; try reflexivity;
    rewrite EmitComparison_nan by exact Hn; reflexivity.
Qed.

(** Instance: the 32-bit quiet NaN [0x7fc00000] against [1.0]. *)
Lemma float_comparison_ordering_f32 :
  FP.is_nan FloatTy 2143289344 = true /\
  EmitFloatBinaryOp (H := example_collaborators)
    (example_instruction 1 kNe (MkShape PRED [] []) [])
    (VFP FloatTy 2143289344) (VFP FloatTy 2143289344) = Ok (VInt 8 1) /\
  EmitFloatBinaryOp (H := example_collaborators)
    (example_instruction 1 kLt (MkShape PRED [] []) [])
    (VFP FloatTy 2143289344) (VFP FloatTy 1065353216) = Ok (VInt 8 0).
Proof.
  split; [reflexivity|].
  destruct (float_comparison_ordering (H := example_collaborators)
              (example_instruction 1 kNe (MkShape PRED [] []) [])
              FloatTy 2143289344 0 (VFP FloatTy 0) (VFP FloatTy 0) eq_refl)
    as (_ & _ & _ & _ & _ & _ & Hne & _).
  destruct (float_comparison_ordering (H := example_collaborators)
              (example_instruction 1 kLt (MkShape PRED [] []) [])
              FloatTy 2143289344 1065353216 (VFP FloatTy 0) (VFP FloatTy 0)
              eq_refl)
    as (_ & _ & _ & _ & _ & _ & _ & _ & Hlt & _).
  split; [apply Hne | apply Hlt]; reflexivity.
Defined.

(** C2 (the code departs from the claim). At [x = 2^-20], below the
    threshold, [EmitExpm1] returns [x + (x + x) * 0.5 = 2^-19]: the term
    named [x_squared] is built by an addition.  The 2-term Taylor
    expansion [x + x^2/2] is [2^-20 + 2^-41]. *)
Theorem expm1_small_path_value `{Collaborators} (exp_x : Z) :
  libm intrinsic_exp [VFP FloatTy 897581056] = Ok (VFP FloatTy exp_x) ->
  EmitExpm1 F32 (VFP FloatTy 897581056) = Ok (VFP FloatTy 905969664) /\
  Expm1Taylor2 (VFP FloatTy 897581056) = Ok (VFP FloatTy 897581060).
Proof.
  intros Hexp. split; [|vm_compute; reflexivity].
  unfold EmitExpm1, EmitExp, EmitCallToIntrinsic. rewrite Hexp.
  cbn [PrimitiveTypeToIrType]. rewrite !bind_Ok. cbv beta.
  replace (ConstantFP (FPTy FloatTy) double_1_0)
    with (Ok (VFP FloatTy 1065353216)) by (vm_compute; reflexivity).
  replace (ConstantFP (FPTy FloatTy) double_0_5)
    with (Ok (VFP FloatTy 1056964608)) by (vm_compute; reflexivity).
  rewrite !bind_Ok. cbv beta.
  unfold CreateFSub at 1. unfold fp_binop at 1. cbn [FPType_eqb].
  rewrite bind_Ok. cbv beta.
  match goal with
  | |- context [VFP FloatTy (FP.lift2 ?f FloatTy ?a ?b)] =>
      generalize (FP.lift2 f FloatTy a b)
  end.
  intros for_large_x. vm_compute. reflexivity.
Qed.

(** Instance, with the stand-in math library. *)
Lemma expm1_small_path_value_example :
  (@libm example_collaborators intrinsic_exp [VFP FloatTy 897581056]
   = Ok (VFP FloatTy 897581056)) /\
  EmitExpm1 (H := example_collaborators) F32 (VFP FloatTy 897581056)
    = Ok (VFP FloatTy 905969664) /\
  Expm1Taylor2 (VFP FloatTy 897581056) = Ok (VFP FloatTy 897581060).
Proof.
  split; [reflexivity|].
  apply (expm1_small_path_value (H := example_collaborators) 897581056).
  reflexivity.
Defined.

(** ** Select *)

Lemma trunc_i8_i1 (p : Z) :
  CreateTrunc (VInt 8 p) (IntegerTy 1) = Ok (getInt1 (Z.testbit p 0)).
Proof.
  unfold CreateTrunc, getInt1, Int.wrap. cbn [Z.eqb Z.ltb Z.compare Pos.compare Pos.compare_cont andb].
  rewrite Z.bit0_odd. change (2 ^ 1) with 2. rewrite Zmod_odd.
  destruct (Z.odd p); reflexivity.
Qed.

(** C10. The select emitter truncates the predicate byte to one bit before
    the select: whenever the three operand generators return the predicate
    byte [p] and two values of one type, the result is the true-operand
    value if the lowest bit of [p] is set and the false-operand value
    otherwise; in particular the predicate byte [2] selects the
    false-operand value. *)
Theorem select_decided_by_lowest_bit `{Collaborators}
    (hlo : HloInstruction) (operand_to_generator : HloToElementGeneratorMap)
    (index : Index) (p : Z) (on_true on_false : Value) :
  (op ← operand hlo 0; g ← generator_at operand_to_generator op;
   i ← ElementwiseSourceIndex index hlo 0; g i) = Ok (VInt 8 p) ->
  (op ← operand hlo 1; g ← generator_at operand_to_generator op;
   i ← ElementwiseSourceIndex index hlo 1; g i) = Ok on_true ->
  (op ← operand hlo 2; g ← generator_at operand_to_generator op;
   i ← ElementwiseSourceIndex index hlo 2; g i) = Ok on_false ->
  getType on_true = getType on_false ->
  EmitElementalSelect hlo operand_to_generator index
    = Ok (if Z.testbit p 0 then on_true else on_false) /\
  (p = 2 -> EmitElementalSelect hlo operand_to_generator index = Ok on_false).
Proof.
  intros H0 H1 H2 Hty.
  assert (E : EmitElementalSelect hlo operand_to_generator index
              = Ok (if Z.testbit p 0 then on_true else on_false)).
  { unfold EmitElementalSelect.
    destruct (operand hlo 0) as [op0| |]; try discriminate H0.
    rewrite bind_Ok in *. cbv beta in *.
    destruct (generator_at operand_to_generator op0) as [g0| |];
      try discriminate H0.
    rewrite bind_Ok in *. cbv beta in *.
    destruct (ElementwiseSourceIndex index hlo 0) as [i0| |];
      try discriminate H0.
    rewrite bind_Ok in *. cbv beta in *. rewrite H0, bind_Ok. cbv beta.
    destruct (operand hlo 1) as [op1| |]; try discriminate H1.
    rewrite bind_Ok in *. cbv beta in *.
    destruct (generator_at operand_to_generator op1) as [g1| |];
      try discriminate H1.
    rewrite bind_Ok in *. cbv beta in *.
    destruct (ElementwiseSourceIndex index hlo 1) as [i1| |];
      try discriminate H1.
    rewrite bind_Ok in *. cbv beta in *. rewrite H1, bind_Ok. cbv beta.
    destruct (operand hlo 2) as [op2| |]; try discriminate H2.
    rewrite bind_Ok in *. cbv beta in *.
    destruct (generator_at operand_to_generator op2) as [g2| |];
      try discriminate H2.
    rewrite bind_Ok in *. cbv beta in *.
    destruct (ElementwiseSourceIndex index hlo 2) as [i2| |];
      try discriminate H2.
    rewrite bind_Ok in *. cbv beta in *. rewrite H2, bind_Ok. cbv beta.
    rewrite trunc_i8_i1, bind_Ok. cbv beta.
    unfold Select. apply CreateSelect_same. exact Hty. }
  split; [exact E|]. intros ->. exact E.
Qed.

(** Instance: a scalar select whose predicate byte is [2]. *)
Lemma select_decided_by_lowest_bit_example :
  EmitElementalSelect (H := example_collaborators) example_select
    example_select_generators (IrArray.EmptyIndex (IntegerTy 64))
  = Ok (VInt 32 20).
Proof.
  apply (select_decided_by_lowest_bit (H := example_collaborators)
           example_select example_select_generators
           (IrArray.EmptyIndex (IntegerTy 64)) 2 (VInt 32 10) (VInt 32 20));
    reflexivity.
Defined.

(** ** Pad *)

Lemma at_index_middle {A : Type} (l1 l2 : list A) (x : A) :
  at_index (l1 ++ x :: l2) (Z.of_nat (length l1)) = Ok x.
Proof.
  unfold at_index. destruct (Z.ltb_spec (Z.of_nat (length l1)) 0); [lia|].
  rewrite Nat2Z.id, list_lookup_middle by reflexivity. reflexivity.
Qed.

Lemma wrap_sub_wrap (w a b : Z) :
  0 < w -> Int.wrap w (a - Int.wrap w b) = Int.wrap w (a - b).
Proof.
  intros Hw. unfold Int.wrap. pose proof (pow2_pos w ltac:(lia)).
  rewrite Zminus_mod_idemp_r. reflexivity.
Qed.

Lemma signed_wrap (w z : Z) :
  0 < w -> - 2 ^ (w - 1) <= z < 2 ^ (w - 1) -> Int.signed w (Int.wrap w z) = z.
Proof.
  intros Hw Hz. pose proof (pow2_half w Hw) as Hh.
  pose proof (pow2_pos (w - 1) ltac:(lia)).
  destruct (Z.lt_ge_cases z 0).
  - assert (E : Int.wrap w z = z + 2 ^ w).
    { unfold Int.wrap. symmetry. apply (Z.mod_unique _ _ (-1)); lia. }
    rewrite E, signed_big by lia. lia.
  - rewrite wrap_small by lia. apply signed_small. lia.
Qed.

Lemma wrap_nonneg (w z : Z) :
  0 < w -> 0 <= z < 2 ^ (w - 1) -> Int.wrap w z = z.
Proof.
  intros Hw Hz. apply wrap_small. pose proof (pow2_half w Hw). lia.
Qed.

Section PadStep.

Variable w : Z.
Hypothesis Hw : 1 < w.
Variable hlo : HloInstruction.
Variable op0 : HloInstruction.
Hypothesis Hop0 : operand hlo 0 = Ok op0.

Lemma pad_dimension_step
    (done_src : list Z) (o : Z) (rest : list Z)
    (cdone : list PaddingConfigDimension) (c : PaddingConfigDimension)
    (crest : list PaddingConfigDimension)
    (edone : list Z) (e : Z) (erest : list Z)
    (lin : option Value) (ty : IrType) (b : bool) :
  length cdone = length done_src -> length edone = length done_src ->
  padding_config hlo = cdone ++ c :: crest ->
  dimensions (shape op0) = edone ++ e :: erest ->
  PadSpec.dim_fits w o c e ->
  pad_dimension hlo
    (Ok (MkIndex (map (VInt w) done_src ++ VInt w o :: map (VInt w) rest) lin ty,
         getInt1 b))
    (length done_src)
  = Ok (MkIndex (map (VInt w) (done_src ++ [PadSpec.operand_coordinate w o c])
                   ++ map (VInt w) rest) None ty,
        getInt1 (b && PadSpec.dim_in_bounds o c e)).
Proof.
  intros Hlc Hle Hcfg Hext (Ho & Hpre & Hs & He).
  pose proof (pow2_half w ltac:(lia)) as Hh.
  pose proof (pow2_pos (w - 1) ltac:(lia)) as Hp.
  unfold pad_dimension. rewrite bind_Ok. cbv beta iota.
  unfold IrArray.get. cbn [multidim].
  replace (length done_src) with (length (map (VInt w) done_src)) at 1
    by apply length_map.
  rewrite at_index_middle, bind_Ok. cbv beta.
  rewrite Hcfg. rewrite <- Hlc. rewrite at_index_middle, bind_Ok. cbv beta.
  cbn [getType ConstantInt]. rewrite bind_Ok. cbv beta.
  rewrite CreateSub_int, bind_Ok. cbv beta.
  rewrite wrap_sub_wrap by lia. fold (PadSpec.pre o c).
  set (pre := PadSpec.pre o c) in *.
  unfold IrArray.set. cbn [multidim GetType].
  assert (Hlen : (length cdone <? length (map (VInt w) done_src ++ VInt w o :: map (VInt w) rest))%nat = true).
  { apply Nat.ltb_lt. rewrite length_app, length_map. cbn. lia. }
  rewrite Hlen, bind_Ok. cbv beta.
  assert (Hins : forall v (l : list Value),
             <[length cdone := v]> (map (VInt w) done_src ++ l)
             = map (VInt w) done_src ++ <[0%nat := v]> l).
  { intros v l. rewrite insert_app_r_alt by (rewrite length_map; lia).
    rewrite length_map, Hlc, Nat.sub_diag. reflexivity. }
  rewrite Hins. cbn [list_insert insert].
  rewrite bind_Ok. cbv beta.
  rewrite CreateICmp_same, bind_Ok. cbv beta.
  rewrite getInt1_and, bind_Ok. cbv beta.
  rewrite bind_Ok. cbv beta.
  unfold CreateURem. rewrite int_binop_same.
  rewrite (wrap_nonneg w (interior_padding c + 1)) by lia.
  destruct (Z.eqb_spec (interior_padding c + 1) 0) as [E|_]; [lia|].
  rewrite !bind_Ok. cbv beta.
  rewrite CreateICmp_same, bind_Ok. cbv beta.
  rewrite getInt1_and, bind_Ok. cbv beta.
  unfold CreateSDiv. rewrite int_binop_same.
  destruct (Z.eqb_spec (interior_padding c + 1) 0) as [E|_]; [lia|].
  assert (Hss : Int.signed w (interior_padding c + 1) = interior_padding c + 1)
    by (apply signed_small; lia).
  unfold sdiv_overflows. rewrite Hss.
  destruct (Z.eqb_spec (interior_padding c + 1) (-1)) as [E|_]; [lia|].
  rewrite andb_false_r. cbn [orb]. rewrite !bind_Ok. cbv beta.
  rewrite signed_wrap by lia.
  assert (Hlen2 : (length cdone <? length (map (VInt w) done_src ++ VInt w (Int.wrap w pre) :: map (VInt w) rest))%nat = true).
  { apply Nat.ltb_lt. rewrite length_app, length_map. cbn. lia. }
  cbn [multidim GetType]. rewrite Hlen2, bind_Ok. cbv beta.
  rewrite Hins. cbn [list_insert insert].
  rewrite Hop0, bind_Ok. cbv beta.
  rewrite Hext.
  replace (length cdone) with (length edone) at 1 by lia.
  rewrite at_index_middle, bind_Ok. cbv beta.
  rewrite bind_Ok. cbv beta.
  rewrite CreateICmp_same, bind_Ok. cbv beta.
  rewrite getInt1_and, bind_Ok. cbv beta.
  rewrite map_app, <- app_assoc. cbn [map app].
  unfold PadSpec.operand_coordinate. fold pre.
  do 3 f_equal. rewrite <- !andb_assoc. f_equal.
  unfold PadSpec.dim_in_bounds. fold pre. unfold icmp.
  rewrite wrap_0, (signed_wrap w pre), (signed_small w 0), (signed_wrap w e) by lia.
  destruct (Z.leb_spec 0 pre) as [Hnn|Hneg]; [|reflexivity].
  cbn [andb]. rewrite (wrap_small w pre) by lia.
  rewrite Z.quot_div_nonneg by lia.
  assert (Hq : 0 <= pre / (interior_padding c + 1) <= pre).
  { split; [apply Z.div_pos; lia|].
    apply Z.div_le_upper_bound; [lia|]. nia. }
  rewrite signed_wrap by lia.
  rewrite (Z.eqb_sym 0). reflexivity.
Qed.

Lemma pad_loop (rest : list Z) :
  forall (crest : list PaddingConfigDimension) (erest : list Z)
         (done_src : list Z) (cdone : list PaddingConfigDimension)
         (edone : list Z) (lin : option Value) (ty : IrType) (b : bool),
  length cdone = length done_src -> length edone = length done_src ->
  padding_config hlo = cdone ++ crest ->
  dimensions (shape op0) = edone ++ erest ->
  PadSpec.fits w rest crest erest ->
  foldl (pad_dimension hlo)
    (Ok (MkIndex (map (VInt w) done_src ++ map (VInt w) rest) lin ty, getInt1 b))
    (seq (length done_src) (length rest))
  = Ok (MkIndex (map (VInt w)
                   (done_src ++ PadSpec.operand_coordinates w rest crest))
          (match rest with [] => lin | _ => None end) ty,
        getInt1 (b && PadSpec.in_bounds rest crest erest)).
Proof.
  induction rest as [|o rest IH]; intros crest erest done_src cdone edone lin ty b
    Hlc Hle Hcfg Hext Hfits.
  - destruct crest, erest; try contradiction.
    cbn. rewrite !app_nil_r, andb_true_r. reflexivity.
  - destruct crest as [|c crest]; [contradiction|].
    destruct erest as [|e erest]; [contradiction|].
    destruct Hfits as [Hfit Hfits].
    cbn [length seq foldl map].
    rewrite (pad_dimension_step done_src o rest cdone c crest edone e erest
               lin ty b Hlc Hle Hcfg Hext Hfit).
    replace (S (length done_src))
      with (length (done_src ++ [PadSpec.operand_coordinate w o c]))
      by (rewrite length_app; cbn; lia).
    rewrite (IH crest erest (done_src ++ [PadSpec.operand_coordinate w o c])
               (cdone ++ [c]) (edone ++ [e]) None ty
               (b && PadSpec.dim_in_bounds o c e)).
    + cbn [PadSpec.operand_coordinates PadSpec.in_bounds].
      rewrite <- app_assoc. cbn [app]. rewrite andb_assoc.
      destruct rest; reflexivity.
    + rewrite !length_app. cbn. lia.
    + rewrite !length_app. cbn. lia.
    + rewrite <- app_assoc. exact Hcfg.
    + rewrite <- app_assoc. exact Hext.
    + exact Hfits.
Qed.

End PadStep.

(** When every dimension is in bounds, the operand coordinate is the
    quotient [pre / (interior+1)] itself. *)
Lemma operand_coordinates_in_bounds (w : Z) (output : list Z) :
  1 < w ->
  forall (config : list PaddingConfigDimension) (operand_extents : list Z),
  PadSpec.fits w output config operand_extents ->
  PadSpec.in_bounds output config operand_extents = true ->
  PadSpec.operand_coordinates w output config
  = map (fun '(o, c) => PadSpec.pre o c / (interior_padding c + 1))
      (zip output config).
Proof.
  intros Hw. induction output as [|o output IH]; intros config exts Hfits Hin.
  - reflexivity.
  - destruct config as [|c config]; [contradiction|].
    destruct exts as [|e exts]; [contradiction|].
    destruct Hfits as [(Ho & Hpre & Hs & He) Hfits].
    cbn [PadSpec.in_bounds] in Hin. apply andb_true_iff in Hin.
    destruct Hin as [Hd Hin].
    cbn [PadSpec.operand_coordinates zip zip_with map]. f_equal.
    + unfold PadSpec.dim_in_bounds in Hd.
      apply andb_true_iff in Hd. destruct Hd as [Hd _].
      apply andb_true_iff in Hd. destruct Hd as [Hnn _].
      apply Z.leb_le in Hnn. unfold PadSpec.operand_coordinate.
      rewrite Z.quot_div_nonneg by lia.
      assert (Hq : 0 <= PadSpec.pre o c / (interior_padding c + 1)
                   <= PadSpec.pre o c).
      { split; [apply Z.div_pos; lia|].
        apply Z.div_le_upper_bound; [lia|]. nia. }
      apply wrap_nonneg; lia.
    + apply (IH config exts Hfits Hin).
Qed.



(** ** Dot *)

Lemma wrap_add_wrap_r (w a b : Z) :
  Int.wrap w (a + Int.wrap w b) = Int.wrap w (a + b).
Proof. unfold Int.wrap. apply Zplus_mod_idemp_r. Qed.

Lemma FPType_eqb_eq (a b : FPType) : FPType_eqb a b = true -> a = b.
Proof. destruct a, b; (reflexivity || discriminate). Qed.

Lemma FPType_eqb_refl (a : FPType) : FPType_eqb a a = true.
Proof. destruct a; reflexivity. Qed.

Lemma has_type_int (w : Z) (v : Value) :
  DotSpec.has_type (IntegerTy w) v = true -> exists a, v = VInt w a.
Proof.
  destruct v as [w' a| | |]; try discriminate. cbn. intros E.
  apply Z.eqb_eq in E. subst. exists a. reflexivity.
Qed.

Lemma has_type_fp (k : FPType) (v : Value) :
  DotSpec.has_type (FPTy k) v = true -> exists a, v = VFP k a.
Proof.
  destruct v as [|k' a| |]; try discriminate. cbn. intros E.
  apply FPType_eqb_eq in E. subst. exists a. reflexivity.
Qed.

Lemma has_type_complex (k0 k1 : FPType) (v : Value) :
  DotSpec.has_type (StructTy (FPTy k0) (FPTy k1)) v = true ->
  exists a b, v = VStruct (VFP k0 a) (VFP k1 b).
Proof.
  destruct v as [| |[|k0' a| |] [|k1' b| |]|]; try discriminate. cbn. intros E.
  apply andb_true_iff in E. destruct E as [E0 E1].
  apply FPType_eqb_eq in E0, E1. subst. exists a, b. reflexivity.
Qed.

Lemma dot_accumulate_int (ty : PrimitiveType) (w a x y : Z) :
  primitive_util.IsComplexType ty = false ->
  primitive_util.IsFloatingPointType ty = false ->
  dot_accumulate ty (VInt w a) (VInt w x) (VInt w y)
  = Ok (DotSpec.multiply_accumulate (VInt w a) (VInt w x) (VInt w y)).
Proof.
  intros Hc Hf. unfold dot_accumulate. rewrite Hc, Hf.
  rewrite CreateMul_int, bind_Ok. cbv beta. rewrite CreateAdd_int.
  cbn [DotSpec.multiply_accumulate]. rewrite wrap_add_wrap_r. reflexivity.
Qed.

Lemma dot_accumulate_fp (ty : PrimitiveType) (k : FPType) (a x y : Z) :
  primitive_util.IsComplexType ty = false ->
  primitive_util.IsFloatingPointType ty = true ->
  dot_accumulate ty (VFP k a) (VFP k x) (VFP k y)
  = Ok (DotSpec.multiply_accumulate (VFP k a) (VFP k x) (VFP k y)).
Proof.
  intros Hc Hf. unfold dot_accumulate. rewrite Hc, Hf.
  unfold CreateFMul, CreateFAdd, fp_binop. rewrite FPType_eqb_refl.
  rewrite bind_Ok. cbv beta. rewrite FPType_eqb_refl. reflexivity.
Qed.

Lemma dot_accumulate_complex (ty : PrimitiveType) (k : FPType)
    (ar ai xr xi yr yi : Z) :
  primitive_util.IsComplexType ty = true ->
  dot_accumulate ty (VStruct (VFP k ar) (VFP k ai))
    (VStruct (VFP k xr) (VFP k xi)) (VStruct (VFP k yr) (VFP k yi))
  = Ok (DotSpec.multiply_accumulate (VStruct (VFP k ar) (VFP k ai))
          (VStruct (VFP k xr) (VFP k xi)) (VStruct (VFP k yr) (VFP k yi))).
Proof.
  intros Hc. unfold dot_accumulate. rewrite Hc.
  unfold EmitExtractReal, EmitExtractImag. cbn [CreateExtractValue].
  rewrite !bind_Ok. cbv beta.
  unfold CreateFMul, CreateFAdd, CreateFSub, fp_binop.
  repeat (progress (rewrite ?bind_Ok, ?FPType_eqb_refl; cbv beta;
                    cbn [CreateInsertValue CreateExtractValue getType
                         IrType_eqb])).
  reflexivity.
Qed.

Lemma dot_accumulate_spec (ty : PrimitiveType) (acc lhs rhs : Value) :
  DotSpec.scalar_of ty acc = true -> DotSpec.scalar_of ty lhs = true ->
  DotSpec.scalar_of ty rhs = true ->
  dot_accumulate ty acc lhs rhs = Ok (DotSpec.multiply_accumulate acc lhs rhs) /\
  DotSpec.scalar_of ty (DotSpec.multiply_accumulate acc lhs rhs) = true.
Proof.
  unfold DotSpec.scalar_of. intros Ha Hl Hr.
  destruct ty; cbn [PrimitiveTypeToIrType] in *; try discriminate Ha.
  all: try (apply has_type_int in Ha, Hl, Hr;
            destruct Ha as [a ->], Hl as [x ->], Hr as [y ->];
            split; [apply dot_accumulate_int; reflexivity | reflexivity]).
  all: try (apply has_type_fp in Ha, Hl, Hr;
            destruct Ha as [a ->], Hl as [x ->], Hr as [y ->];
            split; [apply dot_accumulate_fp; reflexivity | reflexivity]).
  apply has_type_complex in Ha, Hl, Hr.
  destruct Ha as (ar & ai & ->), Hl as (xr & xi & ->), Hr as (yr & yi & ->).
  split; [apply dot_accumulate_complex; reflexivity | reflexivity].
Qed.

Lemma null_value_scalar (ty : PrimitiveType) (t : IrType) :
  ty <> BF16 -> PrimitiveTypeToIrType ty = Ok t ->
  DotSpec.scalar_of ty (getNullValue t) = true.
Proof.
  intros Hb Ht. destruct ty; try discriminate Ht; try contradiction;
    injection Ht as <-; reflexivity.
Qed.

Lemma at_index_lookup {A : Type} (l : list A) (i : nat) (x : A) :
  l !! i = Some x -> at_index l (Z.of_nat i) = Ok x.
Proof.
  intros Hl. unfold at_index.
  destruct (Z.ltb_spec (Z.of_nat i) 0); [lia|].
  rewrite Nat2Z.id, Hl. reflexivity.
Qed.

Lemma IrArray_get_lookup (l : list Value) (lin : option Value) (ity : IrType)
    (i : nat) (v : Value) :
  l !! i = Some v -> IrArray.get (MkIndex l lin ity) (Z.of_nat i) = Ok v.
Proof. intros Hl. unfold IrArray.get. cbn [multidim]. apply at_index_lookup, Hl. Qed.

Lemma push_back_range_loop (l : list Value) (lin : option Value)
    (ity ty : IrType) (from : Z) (m : nat) :
  0 <= from ->
  forall (s : nat) (acc_l : list Value),
  (Z.to_nat from + s + m <= length l)%nat ->
  foldl (fun (acc : Outcome Index) (i : nat) =>
           acc ← acc;
           v ← IrArray.get (MkIndex l lin ity) (from + Z.of_nat i);
           Ok (IrArray.push_back acc v))
        (Ok (MkIndex acc_l None ty)) (seq s m)
  = Ok (MkIndex (acc_l ++ take m (drop (Z.to_nat from + s) l)) None ty).
Proof.
  intros Hfrom. induction m as [|m IH]; intros s acc_l Hlen.
  - cbn. rewrite app_nil_r. reflexivity.
  - cbn [seq foldl]. rewrite bind_Ok. cbv beta.
    destruct (lookup_lt_is_Some_2 l (Z.to_nat from + s) ltac:(lia)) as [v Hv].
    replace (from + Z.of_nat s) with (Z.of_nat (Z.to_nat from + s)) by lia.
    rewrite (IrArray_get_lookup l lin ity _ v Hv), bind_Ok. cbv beta.
    change (IrArray.push_back (MkIndex acc_l None ty) v)
      with (MkIndex (acc_l ++ [v]) None ty).
    rewrite (IH (S s) (acc_l ++ [v])) by lia.
    rewrite (drop_S l v (Z.to_nat from + s) Hv).
    rewrite <- app_assoc. cbn [app take].
    replace (Z.to_nat from + S s)%nat with (S (Z.to_nat from + s)) by lia.
    reflexivity.
Qed.

Lemma push_back_range_spec (index : Index) (from n : Z) (ty : IrType) :
  0 <= from -> 0 <= n -> from + n <= Z.of_nat (length (multidim index)) ->
  push_back_range index from n (IrArray.EmptyIndex ty)
  = Ok (MkIndex (take (Z.to_nat n) (drop (Z.to_nat from) (multidim index)))
          None ty).
Proof.
  intros Hfrom Hn0 Hn. unfold push_back_range, IrArray.EmptyIndex.
  destruct index as [l lin ity]. cbn [multidim] in *.
  rewrite (push_back_range_loop l lin ity ty from (Z.to_nat n) Hfrom 0 []) by lia.
  rewrite Nat.add_0_r. reflexivity.
Qed.

Lemma InsertAt_spec (l : list Value) (ty : IrType) (i : Z) (t : Value) :
  0 <= i <= Z.of_nat (length l) ->
  IrArray.InsertAt (MkIndex l None ty) i t
  = Ok (MkIndex (DotSpec.insert_at i t l) None ty).
Proof.
  intros Hi. unfold IrArray.InsertAt, IrArray.size. cbn [multidim GetType].
  destruct (Z.leb_spec 0 i); [|lia].
  destruct (Z.leb_spec i (Z.of_nat (length l))); [|lia]. reflexivity.
Qed.

Lemma ForLoop_unfold {S : Type} (fuel : nat) (indvar end_index step : Value)
    (body : Value -> S -> Outcome S) (s : S) :
  ForLoop (Datatypes.S fuel) indvar end_index step body s
  = (exit_cond ← CreateICmp ICMP_UGE indvar end_index;
     match exit_cond with
     | VInt 1 0 =>
         s ← body indvar s;
         next ← CreateAdd indvar step;
         ForLoop fuel next end_index step body s
     | VInt 1 _ => Ok s
     | _ => Aborts
     end).
Proof. reflexivity. Qed.

Section DotLoop.

Variables (w T : Z) (ty : PrimitiveType) (L R : Z -> Value).
Variable body : Value -> Value -> Outcome Value.
Hypothesis Hw : 0 < w.
Hypothesis HT : 0 <= T < 2 ^ w.
Hypothesis Hbody : forall (t : Z) (acc : Value),
  0 <= t < T -> DotSpec.scalar_of ty acc = true ->
  body (VInt w t) acc = Ok (DotSpec.multiply_accumulate acc (L t) (R t)) /\
  DotSpec.scalar_of ty (DotSpec.multiply_accumulate acc (L t) (R t)) = true.

Lemma dot_loop (n : nat) :
  forall (k : Z) (acc : Value),
  k + Z.of_nat n = T -> 0 <= k -> DotSpec.scalar_of ty acc = true ->
  ForLoop (S n) (VInt w k) (VInt w T) (VInt w 1) body acc
  = Ok (foldl (fun acc t =>
                 DotSpec.multiply_accumulate acc (L (Z.of_nat t)) (R (Z.of_nat t)))
          acc (seq (Z.to_nat k) n)).
Proof.
  induction n as [|n IH]; intros k acc Hk Hk0 Hacc.
  - rewrite ForLoop_unfold, CreateICmp_same, bind_Ok. cbv beta.
    unfold icmp. destruct (Z.leb_spec T k); [|lia]. reflexivity.
  - rewrite ForLoop_unfold, CreateICmp_same, bind_Ok. cbv beta.
    unfold icmp. destruct (Z.leb_spec T k); [lia|]. cbn [getInt1].
    destruct (Hbody k acc ltac:(lia) Hacc) as [Hb Hs].
    rewrite Hb, bind_Ok. cbv beta.
    rewrite CreateAdd_int, bind_Ok. cbv beta.
    rewrite (wrap_small w (k + 1)) by lia.
    rewrite (IH (k + 1) _ ltac:(lia) ltac:(lia) Hs).
    cbn [seq foldl]. rewrite Z2Nat.id by lia.
    replace (Z.to_nat (k + 1)) with (S (Z.to_nat k)) by lia. reflexivity.
Qed.

End DotLoop.

(** The operand coordinates that the loop body builds. *)
Lemma dot_operand_indices
    (w lhs_contracting_dim rhs_contracting_dim : Z)
    (hlo op0 op1 : HloInstruction) (dot_result_index : Index) (t : Value) :
  let lhs_rank := ShapeUtil.Rank (shape op0) in
  let rhs_rank := ShapeUtil.Rank (shape op1) in
  let result := multidim dot_result_index in
  operand hlo 0 = Ok op0 -> operand hlo 1 = Ok op1 ->
  at_index (lhs_contracting_dimensions (dot_dimension_numbers hlo)) 0
    = Ok lhs_contracting_dim ->
  at_index (rhs_contracting_dimensions (dot_dimension_numbers hlo)) 0
    = Ok rhs_contracting_dim ->
  0 <= lhs_contracting_dim <= lhs_rank - 1 ->
  0 <= rhs_contracting_dim <= rhs_rank - 1 ->
  (lhs_rank - 1) + (rhs_rank - 1) <= Z.of_nat (length result) ->
  dot_lhs_index hlo dot_result_index (IntegerTy w) t
  = Ok (DotSpec.lhs_index result lhs_rank lhs_contracting_dim (IntegerTy w) t) /\
  dot_rhs_index hlo dot_result_index (IntegerTy w) t
  = Ok (DotSpec.rhs_index result lhs_rank rhs_rank rhs_contracting_dim
          (IntegerTy w) t).
Proof.
  intros lhs_rank rhs_rank result Hop0 Hop1 Hld Hrd Hlrange Hrrange Hlen.
  unfold dot_lhs_index, dot_rhs_index.
  rewrite Hop0, Hop1, Hld, Hrd. rewrite !bind_Ok. cbv beta.
  fold lhs_rank rhs_rank.
  rewrite !push_back_range_spec by (fold result; lia).
  rewrite !bind_Ok. cbv beta. fold result.
  change (Z.to_nat 0) with 0%nat. rewrite drop_0.
  rewrite !InsertAt_spec by (rewrite length_take, ?length_drop; lia).
  split; reflexivity.
Qed.

(** C6. For every output coordinate of a Dot instruction contracting one
    dimension per side that has at least one entry (of the integer index
    type of [w] bits), the result is the accumulation, for [t] from 0 to
    the contraction extent, of [lhs[...,t,...] * rhs[...,t,...]] into an
    accumulator that starts as the zero of the output element type, with
    integer, float or complex (real and imaginary part separately) add and
    multiply.  A status that an operand generator returns while the loop
    body is emitted is the status of the emitter, also when the extent is
    zero.  The empty coordinate of a scalar result is excluded: the next
    lemma shows what the code does there. *)
Theorem dot_element
    (w T lhs_contracting_dim rhs_contracting_dim i0 : Z)
    (hlo op0 op1 : HloInstruction)
    (operand_to_generator : HloToElementGeneratorMap)
    (lhs_generator rhs_generator : ElementGenerator)
    (dot_result_index : Index) (zero_type : IrType) (L R : Z -> Value) :
  let ty := element_type (shape hlo) in
  let lhs_rank := ShapeUtil.Rank (shape op0) in
  let rhs_rank := ShapeUtil.Rank (shape op1) in
  let result := multidim dot_result_index in
  let lhs_index :=
    DotSpec.lhs_index result lhs_rank lhs_contracting_dim (IntegerTy w) in
  let rhs_index :=
    DotSpec.rhs_index result lhs_rank rhs_rank rhs_contracting_dim
      (IntegerTy w) in
  0 < w -> 0 <= T < 2 ^ w ->
  operand hlo 0 = Ok op0 -> operand hlo 1 = Ok op1 ->
  generator_at operand_to_generator op0 = Ok lhs_generator ->
  generator_at operand_to_generator op1 = Ok rhs_generator ->
  at_index (lhs_contracting_dimensions (dot_dimension_numbers hlo)) 0
    = Ok lhs_contracting_dim ->
  at_index (rhs_contracting_dimensions (dot_dimension_numbers hlo)) 0
    = Ok rhs_contracting_dim ->
  at_index (dimensions (shape op0)) lhs_contracting_dim = Ok T ->
  IrArray.get dot_result_index 0 = Ok (VInt w i0) ->
  0 <= lhs_contracting_dim <= lhs_rank - 1 ->
  0 <= rhs_contracting_dim <= rhs_rank - 1 ->
  (lhs_rank - 1) + (rhs_rank - 1) <= Z.of_nat (length result) ->
  ty <> BF16 -> PrimitiveTypeToIrType ty = Ok zero_type ->
  (forall t, 0 <= t < T ->
     lhs_generator (lhs_index (VInt w t)) = Ok (L t) /\
     DotSpec.scalar_of ty (L t) = true) ->
  (forall t, 0 <= t < T ->
     rhs_generator (rhs_index (VInt w t)) = Ok (R t) /\
     DotSpec.scalar_of ty (R t) = true) ->
  EmitElementalDot hlo operand_to_generator dot_result_index
  = match lhs_generator (lhs_index (VInt w 0)),
          rhs_generator (rhs_index (VInt w 0)) with
    | Fails s, _ => Fails s
    | _, Fails s => Fails s
    | _, _ => Ok (DotSpec.sum (getNullValue zero_type) L R T)
    end /\
  (0 < T ->
   EmitElementalDot hlo operand_to_generator dot_result_index
   = Ok (DotSpec.sum (getNullValue zero_type) L R T)).
Proof.
  intros ty lhs_rank rhs_rank result lhs_index rhs_index Hw HT Hop0 Hop1 Hg0 Hg1
    Hld Hrd HTd Hfirst Hlrange Hrrange Hlen Hbf Hzt HL HR.
  assert (Hidx : forall t,
            dot_lhs_index hlo dot_result_index (IntegerTy w) t
              = Ok (lhs_index t) /\
            dot_rhs_index hlo dot_result_index (IntegerTy w) t
              = Ok (rhs_index t)).
  { intros t. apply (dot_operand_indices w lhs_contracting_dim
                       rhs_contracting_dim hlo op0 op1 dot_result_index t);
      assumption. }
  assert (Hgen :
    EmitElementalDot hlo operand_to_generator dot_result_index
    = match lhs_generator (lhs_index (VInt w 0)),
            rhs_generator (rhs_index (VInt w 0)) with
      | Fails s, _ => Fails s
      | _, Fails s => Fails s
      | _, _ => Ok (DotSpec.sum (getNullValue zero_type) L R T)
      end).
  { unfold EmitElementalDot.
    rewrite Hop0, bind_Ok. cbv beta. rewrite Hg0, bind_Ok. cbv beta.
    rewrite Hop1, bind_Ok. cbv beta. rewrite Hg1, bind_Ok. cbv beta.
    rewrite Hld, bind_Ok. cbv beta. rewrite HTd, bind_Ok. cbv beta.
    rewrite Hfirst, bind_Ok. cbv beta. cbn [getType ConstantInt].
    rewrite !bind_Ok. cbv beta. fold ty. rewrite Hzt, bind_Ok. cbv beta zeta.
    rewrite wrap_0, (wrap_small w T) by lia.
    assert (H1 : Int.wrap w 1 = 1) by (apply wrap_1; lia). rewrite H1.
    destruct (Hidx (VInt w 0)) as [Hl0 Hr0].
    rewrite Hl0, bind_Ok. cbv beta. rewrite Hr0, bind_Ok. cbv beta.
    assert (Hloop :
      ForLoop (S (Z.to_nat T)) (VInt w 0) (VInt w T) (VInt w 1)
        (fun indvar current_accumulator =>
           lhs_index0 ← dot_lhs_index hlo dot_result_index (IntegerTy w) indvar;
           rhs_index0 ← dot_rhs_index hlo dot_result_index (IntegerTy w) indvar;
           lhs_value ← lhs_generator lhs_index0;
           rhs_value ← rhs_generator rhs_index0;
           dot_accumulate ty current_accumulator lhs_value rhs_value)
        (getNullValue zero_type)
      = Ok (DotSpec.sum (getNullValue zero_type) L R T)).
    { unfold DotSpec.sum.
      apply (dot_loop w T ty L R _ Hw HT); [|lia|lia|].
      2:{ apply null_value_scalar; assumption. }
      intros t acc Ht Hacc.
      destruct (Hidx (VInt w t)) as [Hlt Hrt].
      rewrite Hlt, bind_Ok. cbv beta. rewrite Hrt, bind_Ok. cbv beta.
      destruct (HL t Ht) as [HLt HLs]. destruct (HR t Ht) as [HRt HRs].
      rewrite HLt, bind_Ok. cbv beta. rewrite HRt, bind_Ok. cbv beta.
      apply dot_accumulate_spec; assumption. }
    rewrite Hloop.
    destruct (lhs_generator (lhs_index (VInt w 0))) as [l| |];
      destruct (rhs_generator (rhs_index (VInt w 0))) as [r| |];
      reflexivity. }
  split; [exact Hgen|].
  intros HT0. rewrite Hgen.
  destruct (HL 0 ltac:(lia)) as [-> _]. destruct (HR 0 ltac:(lia)) as [-> _].
  reflexivity.
Qed.

(** Instance: the spec's example.  Element [(i, j)] of the [2,4] output is
    the sum over [t] in [0, 3) of [lhs[i,t] * rhs[t,j]]; the product of the
    two literal matrices is [[38, 44, 50, 56], [83, 98, 113, 128]]. *)
Lemma dot_element_example :
  EmitElementalDot example_dot example_dot_generators (example_index [1; 2])
    = Ok (VInt 32 (4 * 3 + 5 * 7 + 6 * 11)) /\
  map (fun '(i, j) =>
         EmitElementalDot example_dot example_dot_generators
           (example_index [i; j]))
      [(0, 0); (0, 1); (0, 2); (0, 3); (1, 0); (1, 1); (1, 2); (1, 3)]
  = map (fun v => Ok (VInt 32 v)) [38; 44; 50; 56; 83; 98; 113; 128].
Proof.
  split; [|vm_compute; reflexivity].
  assert (HT : 0 <= 3 < 2 ^ 64) by (change (2 ^ 64) with 18446744073709551616; lia).
  assert (Hcases : forall t, 0 <= t < 3 -> t = 0 \/ t = 1 \/ t = 2) by lia.
  refine (proj2
            (dot_element 64 3 1 0 1 example_dot example_dot_lhs example_dot_rhs
               example_dot_generators
               (matrix_generator 3 example_lhs_values)
               (matrix_generator 4 example_rhs_values)
               (example_index [1; 2]) (IntegerTy 32)
               (fun t => VInt 32 (matrix_entry 3 example_lhs_values 1 t))
               (fun t => VInt 32 (matrix_entry 4 example_rhs_values t 2))
               ltac:(lia) HT eq_refl eq_refl eq_refl eq_refl eq_refl eq_refl
               eq_refl eq_refl ltac:(vm_compute; intuition discriminate)
               ltac:(vm_compute; intuition discriminate)
               ltac:(vm_compute; intuition discriminate)
               ltac:(discriminate) eq_refl _ _)
            ltac:(lia)).
  - intros t Ht. destruct (Hcases t Ht) as [-> | [-> | ->]]; split; reflexivity.
  - intros t Ht. destruct (Hcases t Ht) as [-> | [-> | ->]]; split; reflexivity.
Defined.

(** C6, the scalar result.  A dot of two vectors has a scalar result, whose
    only coordinate is the empty one; [EmitElementalDot] takes the index
    type from [dot_result_index[0]], an entry the empty coordinate does not
    have, so the emitted element is undefined where the sum over [t] in
    [0, 3) of [lhs[t] * rhs[t]] is [1*4 + 2*5 + 3*6 = 32]. *)
Lemma dot_scalar_result_is_undefined :
  EmitElementalDot example_vector_dot example_vector_dot_generators
    (IrArray.EmptyIndex (IntegerTy 64)) = Aborts /\
  DotSpec.sum (VInt 32 0)
    (fun t => VInt 32 (nth (Z.to_nat t) [1; 2; 3] 0))
    (fun t => VInt 32 (nth (Z.to_nat t) [4; 5; 6] 0)) 3 = VInt 32 32 /\
  (forall t, In t [0; 1; 2] ->
     buffer_generator [1; 2; 3] (example_index [t])
       = Ok (VInt 32 (nth (Z.to_nat t) [1; 2; 3] 0)) /\
     buffer_generator [4; 5; 6] (example_index [t])
       = Ok (VInt 32 (nth (Z.to_nat t) [4; 5; 6] 0))).
Proof.
  split; [vm_compute; reflexivity|]. split; [vm_compute; reflexivity|].
  intros t [<-|[<-|[<-|[]]]]; split; reflexivity.
Qed.

(** ** Random numbers *)

Section PhiloxFacts.

Context `{Collaborators}.

Lemma CalculateSampleValues_four (sample_idx hrv grn rng_state : Value)
    (l : list Value) :
  CalculateSampleValues sample_idx hrv grn rng_state = Ok l ->
  exists a b c d, l = [a; b; c; d].
Proof.
  unfold CalculateSampleValues. intros Hl.
  repeat match type of Hl with
         | (?m ≫= _) = Ok _ =>
             destruct m as [[? ?]| |] eqn:?; try discriminate Hl;
             rewrite bind_Ok in Hl; cbv beta iota in Hl
         | (?m ≫= _) = Ok _ =>
             destruct m as [?| |] eqn:?; try discriminate Hl;
             rewrite bind_Ok in Hl; cbv beta iota in Hl
         end.
  injection Hl as <-. eauto.
Qed.

(** The four stores overwrite the whole stack slot. *)
Lemma sample_overwritten (sample : list Value) (a b c d : Value) :
  length sample = 4%nat ->
  foldl (fun (acc : Outcome (list Value)) (idx : nat) =>
           sample ← acc;
           v ← at_index [a; b; c; d] (Z.of_nat idx);
           store_sample sample idx v)
        (Ok sample) (seq 0 4)
  = Ok [a; b; c; d].
Proof.
  intros Hlen.
  destruct sample as [|s0 [|s1 [|s2 [|s3 [|s4 sample]]]]]; try discriminate Hlen.
  reflexivity.
Qed.

(** The element does not depend on what the stack slot held before, nor
    on the other fields of the emitter: only on the captured seeds, the
    loaded state and the coordinate. *)
Lemma PhiloxRngElement_independent (em1 em2 : Emitter) (hlo : HloInstruction)
    (operand_to_generator : HloToElementGeneratorMap)
    (hlo_random_value global_random_number : Value) (elems_per_sample : Z)
    (index : Index) :
  rng_state_value em1 = rng_state_value em2 ->
  length (sample_alloca em1) = 4%nat -> length (sample_alloca em2) = 4%nat ->
  PhiloxRngElement em1 hlo operand_to_generator hlo_random_value
    global_random_number elems_per_sample index
  = PhiloxRngElement em2 hlo operand_to_generator hlo_random_value
      global_random_number elems_per_sample index.
Proof.
  intros Hstate Hl1 Hl2. unfold PhiloxRngElement. rewrite Hstate.
  destruct (match linear index with
            | Some l => Ok l
            | None => Linearize index (dimensions (shape hlo))
            end) as [elem_idx| |]; try reflexivity.
  rewrite !bind_Ok. cbv beta.
  destruct (ConstantInt (GetType index) elems_per_sample) as [e| |];
    try reflexivity.
  rewrite !bind_Ok. cbv beta.
  destruct (CreateUDiv elem_idx e) as [sample_idx| |]; try reflexivity.
  rewrite !bind_Ok. cbv beta.
  destruct (CreateURem elem_idx e) as [elem_offset| |]; try reflexivity.
  rewrite !bind_Ok. cbv beta.
  destruct (CalculateSampleValues sample_idx hlo_random_value
              global_random_number (rng_state_value em2))
    as [counter_values| |] eqn:Hc; try reflexivity.
  rewrite !bind_Ok. cbv beta.
  destruct (CalculateSampleValues_four _ _ _ _ _ Hc) as (a & b & c & d & ->).
  rewrite (sample_overwritten (sample_alloca em1) a b c d Hl1).
  rewrite (sample_overwritten (sample_alloca em2) a b c d Hl2).
  reflexivity.
Qed.

End PhiloxFacts.

(** C7, with the loaded state among the fixed inputs.  The Philox element
    generator is deterministic: two generators made for the same
    instruction that captured the same module random value and the same
    global seed, and that load the same value of the Philox state variable,
    return the same result at every output coordinate, whatever their
    stack slots held before and whatever the state of the random engines;
    invoking a generator draws no random number.  The module random value,
    the global seed and the coordinate alone do not fix the result, as
    the lemma on the loaded state shows below. *)
Theorem philox_generator_deterministic `{Collaborators}
    (em1 em2 : Emitter) (hlo : HloInstruction)
    (operand_to_generator : HloToElementGeneratorMap)
    (st1 st2 st1' st2' : RandomState) (g1 g2 : ElementGenerator)
    (index : Index) :
  MakePhiloxRngElementGenerator em1 hlo operand_to_generator st1 = Ok (g1, st1') ->
  MakePhiloxRngElementGenerator em2 hlo operand_to_generator st2 = Ok (g2, st2') ->
  captured_hlo_random_value st1 = captured_hlo_random_value st2 ->
  captured_global_random_number em1 st1 = captured_global_random_number em2 st2 ->
  rng_state_value em1 = rng_state_value em2 ->
  length (sample_alloca em1) = 4%nat -> length (sample_alloca em2) = 4%nat ->
  g1 index = g2 index.
Proof.
  unfold MakePhiloxRngElementGenerator, captured_hlo_random_value,
    captured_global_random_number.
  intros H1 H2 Hhrv Hgrn Hstate Hl1 Hl2.
  destruct (IsFused hlo); [discriminate H1|].
  destruct (RandomNew64 st1) as [r1 s1]. destruct (RandomNew64 st2) as [r2 s2].
  cbn [fst snd] in *.
  destruct (negb (hlo_module_config_seed em1 =? 0));
    destruct (negb (hlo_module_config_seed em2 =? 0));
    try destruct (GlobalRandomValue s1) as [v1 s1''];
    try destruct (GlobalRandomValue s2) as [v2 s2''];
    cbn [fst snd] in *;
    (destruct (GetNumberOfElementsPerPhiloxRngSample (element_type (shape hlo)))
       as [eps| |]; [|discriminate H1|discriminate H1]);
    rewrite bind_Ok in H1, H2; cbv beta in H1, H2;
    injection H1 as <- _; injection H2 as <- _;
    rewrite Hhrv, Hgrn;
    apply PhiloxRngElement_independent; assumption.
Qed.

(** The emitted rounds are Philox-4x32-10: the known answers of the
    Random123 test suite for the all-zero and the all-one counter and
    key. *)
Example philox_4x32_10_known_answers :
  CalculateSampleValues (VInt 64 0) (VInt 64 0) (VInt 64 0) (VInt 64 0)
    = Ok (map (VInt 32) [1713891541; 3781805453; 3159862348; 2600524760]) /\
  CalculateSampleValues (VInt 64 (2 ^ 64 - 1)) (VInt 64 (2 ^ 64 - 1))
      (VInt 64 (2 ^ 64 - 1)) (VInt 64 0)
    = Ok (map (VInt 32) [1083123565; 1103641358; 2718681030; 1834242557]).
Proof. split; vm_compute; reflexivity. Qed.

(** The seeded and the unseeded emitter, the second with a global engine
    that draws 42: the two generators agree, here on element 9. *)
Lemma philox_generator_deterministic_example :
  PhiloxRngElement (H := example_collaborators) example_seeded_emitter
      example_rng example_rng_generators (VInt 64 7) (VInt 64 42) 4
      (example_index [9])
    = PhiloxRngElement (H := example_collaborators) example_unseeded_emitter
        example_rng example_rng_generators (VInt 64 7) (VInt 64 42) 4
        (example_index [9]) /\
  PhiloxRngElement (H := example_collaborators) example_unseeded_emitter
      example_rng example_rng_generators (VInt 64 7) (VInt 64 42) 4
      (example_index [9])
    = Ok (VInt 32 44).
Proof.
  split; [|vm_compute; reflexivity].
  exact (philox_generator_deterministic (H := example_collaborators)
           example_seeded_emitter example_unseeded_emitter
           example_rng example_rng_generators
           (MkRandomState (H := example_collaborators) 7 0)
           (MkRandomState (H := example_collaborators) 7 42)
           (MkRandomState (H := example_collaborators) 8 0)
           (MkRandomState (H := example_collaborators) 8 43)
           _ _ (example_index [9])
           eq_refl eq_refl eq_refl eq_refl eq_refl eq_refl eq_refl).
Defined.

(** C7, the loaded state.  Two generators made for the same instruction,
    in the same state of the random engines and with the same configured
    seed, so that they capture the same module random value (7) and the
    same global seed (42): at the same coordinate 9 the one that loaded the
    value 5 of the Philox state variable yields 44 and the one that loaded
    6 yields 29.  The state is xor-ed with the global seed into the last
    two counter words of the sample. *)
Lemma philox_generator_depends_on_loaded_state :
  let st := MkRandomState (H := example_collaborators) 7 0 in
  exists (g1 g2 : ElementGenerator) (st' : RandomState),
    MakePhiloxRngElementGenerator (H := example_collaborators)
      example_seeded_emitter example_rng example_rng_generators st
      = Ok (g1, st') /\
    MakePhiloxRngElementGenerator (H := example_collaborators)
      example_later_state_emitter example_rng example_rng_generators st
      = Ok (g2, st') /\
    captured_hlo_random_value (H := example_collaborators) st = VInt 64 7 /\
    captured_global_random_number (H := example_collaborators)
      example_seeded_emitter st = VInt 64 42 /\
    captured_global_random_number (H := example_collaborators)
      example_later_state_emitter st = VInt 64 42 /\
    rng_state_value example_seeded_emitter = VInt 64 5 /\
    rng_state_value example_later_state_emitter = VInt 64 6 /\
    g1 (example_index [9]) = Ok (VInt 32 44) /\
    g2 (example_index [9]) = Ok (VInt 32 29).
Proof.
  eexists _, _, _.
  split; [reflexivity|]. split; [reflexivity|].
  repeat split; vm_compute; reflexivity.
Qed.

(** ** Unsupported operations *)

Lemma is_Ok_bind_false {A B} (m : Outcome A) (k : A -> Outcome B) :
  (forall a, m = Ok a -> is_Ok (k a) = false) -> is_Ok (m ≫= k) = false.
Proof. intros Hk. destruct m as [a| |]; [apply Hk|..]; reflexivity. Qed.

Lemma is_Ok_bind_left {A B} (m : Outcome A) (k : A -> Outcome B) :
  is_Ok m = false -> is_Ok (m ≫= k) = false.
Proof. destruct m; [discriminate|reflexivity..]. Qed.

Ltac peel_bind :=
  lazymatch goal with
  | |- is_Ok (_ ≫= _) = false =>
      apply is_Ok_bind_false; intros ? ?; cbv beta zeta
  end.

Ltac peel_binds := repeat peel_bind.

Lemma floating_point_family (t : PrimitiveType) :
  primitive_util.IsFloatingPointType t = true ->
  primitive_util.IsIntegralType t || PrimitiveType_eqb t PRED = false /\
  primitive_util.IsComplexType t = false.
Proof. destruct t; (discriminate || (split; reflexivity)). Qed.

Section Unsupported.

Context `{Collaborators}.

Lemma EmitErfInv_unimplemented (prim_type : PrimitiveType) (x : Value) :
  prim_type <> F32 ->
  EmitErfInv prim_type x
  = Fails (Unimplemented
             "Inverse erf is only implemented for element type F32.").
Proof.
  intros Hne. unfold EmitErfInv.
  destruct prim_type; try reflexivity. congruence.
Qed.

Lemma EmitBinaryOp_atan2_no_value (hlo : HloInstruction) (lhs rhs : Value) :
  opcode hlo = kAtan2 -> is_Ok (EmitBinaryOp hlo lhs rhs) = false.
Proof.
  intros Hop. unfold EmitBinaryOp. peel_binds.
  destruct (_ || _).
  - unfold EmitIntegerBinaryOp. rewrite Hop. reflexivity.
  - destruct (primitive_util.IsComplexType _).
    + unfold EmitComplexBinaryOp. rewrite Hop. reflexivity.
    + unfold EmitFloatBinaryOp. rewrite Hop. reflexivity.
Qed.

Lemma EmitBinaryOp_atan2_float (hlo op0 : HloInstruction) (lhs rhs : Value) :
  opcode hlo = kAtan2 -> operand hlo 0 = Ok op0 ->
  primitive_util.IsFloatingPointType (element_type (shape op0)) = true ->
  EmitBinaryOp hlo lhs rhs = Fails (Unimplemented "atan2").
Proof.
  intros Hop H0 Hfp. unfold EmitBinaryOp. rewrite H0, bind_Ok. cbv beta zeta.
  destruct (floating_point_family _ Hfp) as [Hi Hc].
  unfold ShapeUtil.ElementIsIntegral. rewrite Hi, Hc.
  unfold EmitFloatBinaryOp. rewrite Hop. reflexivity.
Qed.

Lemma EmitUnaryOp_tanh_float (hlo op0 : HloInstruction) (value : Value) :
  opcode hlo = kTanh -> operand hlo 0 = Ok op0 ->
  primitive_util.IsFloatingPointType (element_type (shape op0)) = true ->
  EmitUnaryOp hlo value = Fails (Unimplemented "tanh").
Proof.
  intros Hop H0 Hfp. unfold EmitUnaryOp. rewrite Hop, H0, bind_Ok. cbv beta.
  destruct (floating_point_family _ Hfp) as [Hi Hc].
  unfold ShapeUtil.ElementIsIntegral, ShapeUtil.ElementIsComplex.
  rewrite Hi, Hc.
  unfold EmitFloatUnaryOp. rewrite Hop. reflexivity.
Qed.

Lemma ConvertValueForDistribution_normal_no_value (hlo : HloInstruction)
    (operand_to_generator : HloToElementGeneratorMap) (index : Index)
    (raw_value : Value) :
  random_distribution hlo = RNG_NORMAL -> element_type (shape hlo) <> F32 ->
  is_Ok (ConvertValueForDistribution hlo operand_to_generator index raw_value)
  = false.
Proof.
  intros Hdist Hne. unfold ConvertValueForDistribution. peel_binds.
  rewrite Hdist.
  do 2 peel_bind.
  apply is_Ok_bind_left. unfold EmitErfcInv. peel_binds.
  rewrite EmitErfInv_unimplemented by assumption. reflexivity.
Qed.

Lemma PhiloxRngElement_normal_no_value (em : Emitter) (hlo : HloInstruction)
    (operand_to_generator : HloToElementGeneratorMap)
    (hlo_random_value global_random_number : Value) (elems_per_sample : Z)
    (index : Index) :
  random_distribution hlo = RNG_NORMAL -> element_type (shape hlo) <> F32 ->
  is_Ok (PhiloxRngElement em hlo operand_to_generator hlo_random_value
           global_random_number elems_per_sample index) = false.
Proof.
  intros Hdist Hne. unfold PhiloxRngElement. peel_binds.
  destruct (negb _); [reflexivity|]. peel_binds.
  apply ConvertValueForDistribution_normal_no_value; assumption.
Qed.

End Unsupported.

(** C8. What the base emitter does not support is reported when the
    generator is invoked, not when it is made.  For an opcode without a
    case, for [atan2], for [tanh] on floating-point operands and for a
    normally distributed random instruction of 16-bit or 64-bit floats,
    [MakeElementGenerator] returns a generator; invoking that generator
    never returns a value; and once the operands have been evaluated the
    result is the Unimplemented status of the operation.  [EmitErfInv]
    itself reports Unimplemented for every element type but F32. *)
Theorem unsupported_operations_fail_when_invoked `{Collaborators}
    (em : Emitter) (hlo : HloInstruction)
    (operand_to_generator : HloToElementGeneratorMap) (st : RandomState) :
  (forall name, opcode hlo = kOtherOpcode name ->
     MakeElementGenerator em hlo operand_to_generator st
       = Ok (unhandled_opcode_generator hlo, st) /\
     forall index,
       unhandled_opcode_generator hlo index
       = Fails (Unimplemented
                  (String.append "Unhandled opcode for elemental IR emission: "
                     (HloOpcodeString (kOtherOpcode name))))) /\
  (opcode hlo = kAtan2 ->
     MakeElementGenerator em hlo operand_to_generator st
       = Ok (binary_generator hlo operand_to_generator, st) /\
     (forall index,
        is_Ok (binary_generator hlo operand_to_generator index) = false) /\
     (forall index lhs rhs g0 g1 i0 i1 lhs_value rhs_value,
        operand hlo 0 = Ok lhs -> operand hlo 1 = Ok rhs ->
        generator_at operand_to_generator lhs = Ok g0 ->
        ElementwiseSourceIndex index hlo 0 = Ok i0 ->
        g0 i0 = Ok lhs_value ->
        generator_at operand_to_generator rhs = Ok g1 ->
        ElementwiseSourceIndex index hlo 1 = Ok i1 ->
        g1 i1 = Ok rhs_value ->
        primitive_util.IsFloatingPointType (element_type (shape lhs)) = true ->
        binary_generator hlo operand_to_generator index
        = Fails (Unimplemented "atan2"))) /\
  (opcode hlo = kTanh ->
     MakeElementGenerator em hlo operand_to_generator st
       = Ok (unary_generator hlo operand_to_generator, st) /\
     forall op0, operand hlo 0 = Ok op0 ->
       primitive_util.IsFloatingPointType (element_type (shape op0)) = true ->
       (forall index,
          is_Ok (unary_generator hlo operand_to_generator index) = false) /\
       (forall index g0 i0 operand_value,
          generator_at operand_to_generator op0 = Ok g0 ->
          ElementwiseSourceIndex index hlo 0 = Ok i0 ->
          g0 i0 = Ok operand_value ->
          unary_generator hlo operand_to_generator index
          = Fails (Unimplemented "tanh"))) /\
  (opcode hlo = kRng -> random_distribution hlo = RNG_NORMAL ->
     IsFused hlo = false ->
     element_type (shape hlo) = F16 \/ element_type (shape hlo) = F64 ->
     exists g st',
       MakeElementGenerator em hlo operand_to_generator st = Ok (g, st') /\
       forall index, is_Ok (g index) = false) /\
  (forall prim_type x, prim_type <> F32 ->
     EmitErfInv prim_type x
     = Fails (Unimplemented
                "Inverse erf is only implemented for element type F32.")).
Proof.
  repeat apply conj.
  - intros name Hop. unfold MakeElementGenerator, unhandled_opcode_generator.
    rewrite Hop. split; reflexivity.
  - intros Hop. unfold MakeElementGenerator. rewrite Hop.
    split; [reflexivity|]. split.
    + intros index. unfold binary_generator. peel_binds.
      apply EmitBinaryOp_atan2_no_value, Hop.
    + intros index lhs rhs g0 g1 i0 i1 lv rv H0 H1 Hg0 Hi0 Hv0 Hg1 Hi1 Hv1 Hfp.
      unfold binary_generator.
      rewrite H0, bind_Ok, H1, bind_Ok, Hg0, bind_Ok, Hi0, bind_Ok, Hv0,
        bind_Ok, Hg1, bind_Ok, Hi1, bind_Ok, Hv1, bind_Ok.
      apply (EmitBinaryOp_atan2_float hlo lhs); assumption.
  - intros Hop. unfold MakeElementGenerator. rewrite Hop.
    split; [reflexivity|]. intros op0 H0 Hfp. split.
    + intros index. unfold unary_generator. peel_binds.
      rewrite (EmitUnaryOp_tanh_float hlo op0) by assumption. reflexivity.
    + intros index g0 i0 v Hg0 Hi0 Hv0. unfold unary_generator.
      rewrite H0, bind_Ok, Hg0, bind_Ok, Hi0, bind_Ok, Hv0, bind_Ok.
      apply (EmitUnaryOp_tanh_float hlo op0); assumption.
  - intros Hop Hdist Hfused Hty.
    unfold MakeElementGenerator, MakePhiloxRngElementGenerator.
    rewrite Hop, Hfused.
    destruct (RandomNew64 st) as [r s1].
    destruct (if negb (hlo_module_config_seed em =? 0)
              then (hlo_module_config_seed em, s1)
              else GlobalRandomValue s1) as [g s2].
    assert (Hne : element_type (shape hlo) <> F32)
      by (destruct Hty as [-> | ->]; discriminate).
    assert (exists n, GetNumberOfElementsPerPhiloxRngSample
                        (element_type (shape hlo)) = Ok n) as [n ->]
      by (destruct Hty as [-> | ->]; eexists; reflexivity).
    rewrite bind_Ok. eexists _, _. split; [reflexivity|].
    intros index. apply PhiloxRngElement_normal_no_value; assumption.
  - intros prim_type x Hne. apply EmitErfInv_unimplemented, Hne.
Qed.

(** [atan2] and [tanh] of 32-bit floats and a convolution, with operand
    generators that return constants. *)
Lemma unsupported_operations_fail_when_invoked_examples :
  binary_generator (H := example_collaborators) example_atan2
      example_float_generators (example_index [])
    = Fails (Unimplemented "atan2") /\
  unary_generator (H := example_collaborators) example_tanh
      example_float_generators (example_index [])
    = Fails (Unimplemented "tanh") /\
  (MakeElementGenerator (H := example_collaborators) example_seeded_emitter
       example_convolution example_float_generators
       (MkRandomState (H := example_collaborators) 7 0)
     = Ok (unhandled_opcode_generator (H := example_collaborators)
             example_convolution,
           MkRandomState (H := example_collaborators) 7 0) /\
   forall index,
     unhandled_opcode_generator (H := example_collaborators)
       example_convolution index
     = Fails (Unimplemented
                "Unhandled opcode for elemental IR emission: convolution")).
Proof.
  split; [|split].
  - destruct (unsupported_operations_fail_when_invoked
                (H := example_collaborators) example_seeded_emitter
                example_atan2 example_float_generators
                (MkRandomState (H := example_collaborators) 7 0))
      as (_ & Hatan2 & _).
    destruct (Hatan2 eq_refl) as (_ & _ & Hfails).
    exact (Hfails (example_index []) _ _ _ _ _ _ _ _
             eq_refl eq_refl eq_refl eq_refl eq_refl eq_refl eq_refl eq_refl
             eq_refl).
  - destruct (unsupported_operations_fail_when_invoked
                (H := example_collaborators) example_seeded_emitter
                example_tanh example_float_generators
                (MkRandomState (H := example_collaborators) 7 0))
      as (_ & _ & Htanh & _).
    destruct (Htanh eq_refl) as (_ & Hfails).
    destruct (Hfails _ eq_refl eq_refl) as (_ & Hfails').
    exact (Hfails' (example_index []) _ _ _ eq_refl eq_refl eq_refl).
  - destruct (unsupported_operations_fail_when_invoked
                (H := example_collaborators) example_seeded_emitter
                example_convolution example_float_generators
                (MkRandomState (H := example_collaborators) 7 0))
      as (Hother & _).
    exact (Hother "convolution"%string eq_refl).
Defined.

(** ** Dispatch *)

Lemma MakeElementGenerator_no_status `{Collaborators} (em : Emitter)
    (hlo : HloInstruction) (operand_to_generator : HloToElementGeneratorMap)
    (st : RandomState) (s : Status) :
  MakeElementGenerator em hlo operand_to_generator st <> Fails s.
Proof.
  unfold MakeElementGenerator, MakePhiloxRngElementGenerator.
  destruct (opcode hlo); try discriminate.
  - unfold operand, at_index. destruct (_ <? _); [discriminate|].
    destruct (_ !! _); [|discriminate]. rewrite bind_Ok.
    destruct (negb _); discriminate.
  - unfold operand, at_index. destruct (_ <? _); [discriminate|].
    destruct (_ !! _); [|discriminate]. rewrite bind_Ok.
    destruct (negb _); discriminate.
  - destruct (IsFused hlo); [discriminate|].
    destruct (RandomNew64 st) as [r s1].
    destruct (if negb (hlo_module_config_seed em =? 0)
              then (hlo_module_config_seed em, s1)
              else GlobalRandomValue s1) as [g s2].
    destruct (element_type (shape hlo)); discriminate.
Qed.


(** Only a random instruction draws random numbers.  For every other
    opcode the state of the two engines is returned as it was.  For [kRng]
    the engine of the module advances by one draw; the process-wide engine
    advances by one draw when the configuration has no seed (seed [0]) and
    is left alone when it has one. *)
Theorem dispatch_random_draws `{Collaborators} (em : Emitter)
    (hlo : HloInstruction) (operand_to_generator : HloToElementGeneratorMap)
    (st st' : RandomState) (g : ElementGenerator) :
  MakeElementGenerator em hlo operand_to_generator st = Ok (g, st') ->
  (opcode hlo <> kRng -> st' = st) /\
  (opcode hlo = kRng ->
     module_rng st' = snd (mt19937_64_next (module_rng st)) /\
     global_rng st'
     = if hlo_module_config_seed em =? 0
       then snd (mt19937_64_next (global_rng st))
       else global_rng st).
Proof.
  unfold MakeElementGenerator, MakePhiloxRngElementGenerator. intros Hmake.
  destruct (opcode hlo) eqn:Hop;
    try (split; [intros _|intros Hrng; discriminate Hrng];
         first [ injection Hmake as _ <-; reflexivity
               | revert Hmake; unfold operand, at_index;
                 destruct (_ <? _); [discriminate|];
                 destruct (_ !! _); [|discriminate]; rewrite bind_Ok;
                 destruct (negb _); [discriminate|];
                 intros Hmake; injection Hmake as _ <-; reflexivity ]).
  split; [intros Hne; contradiction Hne; reflexivity|intros _].
  destruct (IsFused hlo); [discriminate|].
  unfold RandomNew64, GlobalRandomValue in Hmake.
  destruct (mt19937_64_next (module_rng st)) as [r m1]. cbn [snd].
  destruct (Z.eqb_spec (hlo_module_config_seed em) 0) as [Hseed|Hseed];
    cbn [negb] in Hmake.
  - cbn [global_rng module_rng] in Hmake.
    destruct (mt19937_64_next (global_rng st)) as [v g1]. cbn [snd].
    destruct (element_type (shape hlo)); try discriminate Hmake;
      injection Hmake as _ <-; split; reflexivity.
  - destruct (GetNumberOfElementsPerPhiloxRngSample _); try discriminate.
    rewrite bind_Ok in Hmake. injection Hmake as _ <-. split; reflexivity.
Qed.

(** The seeded emitter takes one number from the module's engine and none
    from the process-wide one. *)
Lemma dispatch_random_draws_example :
  MakeElementGenerator (H := example_collaborators) example_seeded_emitter
      example_rng example_rng_generators
      (MkRandomState (H := example_collaborators) 7 0)
    = Ok (PhiloxRngElement (H := example_collaborators) example_seeded_emitter
            example_rng example_rng_generators (VInt 64 7) (VInt 64 42) 4,
          MkRandomState (H := example_collaborators) 8 0) /\
  module_rng (MkRandomState (H := example_collaborators) 8 0) = 8 /\
  global_rng (MkRandomState (H := example_collaborators) 8 0) = 0.
Proof.
  split; [reflexivity|].
  exact (proj2 (dispatch_random_draws (H := example_collaborators)
                  example_seeded_emitter example_rng example_rng_generators
                  (MkRandomState (H := example_collaborators) 7 0)
                  (MkRandomState (H := example_collaborators) 8 0)
                  _ eq_refl) eq_refl).
Defined.

(** ** Integer shifts, maximum and minimum *)

Lemma width_fits (w : Z) : 0 < w -> Int.wrap w w = w.
Proof.
  intros Hw. apply wrap_small. split; [lia|].
  apply Z.pow_gt_lin_r; lia.
Qed.

Lemma wrap_minus_one (w : Z) : 0 < w -> Int.wrap w (-1) = 2 ^ w - 1.
Proof.
  intros Hw. unfold Int.wrap. pose proof (pow2_pos w ltac:(lia)).
  symmetry. apply (Z.mod_unique_pos _ _ (-1)); lia.
Qed.

Lemma SaturateShiftIfNecessary_int (w x y : Z) (shift_result : Value)
    (saturate_to_sign_bit : bool) :
  0 < w -> getType shift_result = IntegerTy w ->
  SaturateShiftIfNecessary (VInt w x) (VInt w y) shift_result
    saturate_to_sign_bit
  = Ok (if y <? w then shift_result
        else VInt w (if saturate_to_sign_bit && (Int.signed w x <? 0)
                     then 2 ^ w - 1 else 0)).
Proof.
  intros Hw Hty. unfold SaturateShiftIfNecessary. cbn [getType ConstantInt].
  rewrite !bind_Ok. cbv beta.
  rewrite (width_fits w Hw), wrap_0, (wrap_minus_one w Hw).
  rewrite !CreateICmp_same. unfold icmp.
  replace (Int.signed w 0) with 0
    by (unfold Int.signed; pose proof (pow2_pos (w - 1) ltac:(lia));
        destruct (Z.ltb_spec 0 (2 ^ (w - 1))); lia).
  destruct saturate_to_sign_bit; cbn [andb];
    repeat (rewrite ?CreateSelect_int, ?bind_Ok; cbv beta);
    (rewrite CreateSelect_same by (rewrite Hty; reflexivity));
    reflexivity.
Qed.

(** A shift by the width of the type or more is not left to LLVM (where
    it is a poison value): a left or logical right shift gives [0], an
    arithmetic right shift gives the sign, [0] or [-1].  An amount in range
    gives the ordinary shift. *)
Theorem shifts_saturate `{Collaborators} (op : HloInstruction) (w x y : Z)
    (is_signed : bool) :
  0 < w -> 0 <= x < 2 ^ w -> 0 <= y < 2 ^ w ->
  (opcode op = kShiftLeft ->
   EmitIntegerBinaryOp op (VInt w x) (VInt w y) is_signed
   = Ok (VInt w (if y <? w then Int.wrap w (x * 2 ^ y) else 0))) /\
  (opcode op = kShiftRightLogical ->
   EmitIntegerBinaryOp op (VInt w x) (VInt w y) is_signed
   = Ok (VInt w (if y <? w then x / 2 ^ y else 0))) /\
  (opcode op = kShiftRightArithmetic ->
   EmitIntegerBinaryOp op (VInt w x) (VInt w y) is_signed
   = Ok (VInt w (if y <? w then Int.wrap w (Int.signed w x / 2 ^ y)
                 else if Int.signed w x <? 0 then 2 ^ w - 1 else 0))).
Proof.
  intros Hw Hx Hy. repeat apply conj; intros Hop;
    unfold EmitIntegerBinaryOp; rewrite Hop;
    unfold CreateShl, CreateLShr, CreateAShr, int_shift;
    rewrite Z.eqb_refl, bind_Ok; cbv beta;
    (rewrite SaturateShiftIfNecessary_int;
     [|exact Hw|destruct (y <? w); reflexivity]);
    cbn [andb]; destruct (Z.ltb_spec y w); try reflexivity.
  - rewrite Z.shiftl_mul_pow2 by lia. reflexivity.
  - rewrite Z.shiftr_div_pow2 by lia. reflexivity.
  - rewrite Z.shiftr_div_pow2 by lia. reflexivity.
Qed.

(** 32-bit shifts by 32: [1 << 32 = 0], and [-8 >> 32 = -1] when the shift
    is arithmetic. *)
Lemma shifts_saturate_example :
  EmitIntegerBinaryOp (H := example_collaborators)
      (example_instruction 1 kShiftLeft (MkShape S32 [] []) [])
      (VInt 32 1) (VInt 32 32) true
    = Ok (VInt 32 0) /\
  EmitIntegerBinaryOp (H := example_collaborators)
      (example_instruction 1 kShiftRightArithmetic (MkShape S32 [] []) [])
      (VInt 32 (2 ^ 32 - 8)) (VInt 32 32) true
    = Ok (VInt 32 (2 ^ 32 - 1)).
Proof.
  split.
  - exact (proj1 (shifts_saturate (H := example_collaborators)
                    (example_instruction 1 kShiftLeft (MkShape S32 [] []) [])
                    32 1 32 true ltac:(lia) ltac:(lia) ltac:(lia)) eq_refl).
  - exact (proj2 (proj2 (shifts_saturate (H := example_collaborators)
                    (example_instruction 1 kShiftRightArithmetic
                       (MkShape S32 [] []) [])
                    32 (2 ^ 32 - 8) 32 true ltac:(lia) ltac:(lia) ltac:(lia)))
             eq_refl).
Defined.

(** [kMaximum] and [kMinimum] on integers: the operand that is the larger
    (the smaller) one as a signed or as an unsigned number. *)
Theorem integral_max_min `{Collaborators} (op : HloInstruction) (w x y : Z)
    (is_signed : bool) :
  0 < w -> 0 <= x < 2 ^ w -> 0 <= y < 2 ^ w ->
  let order := fun v => if is_signed then Int.signed w v else v in
  (opcode op = kMaximum ->
   exists r, EmitIntegerBinaryOp op (VInt w x) (VInt w y) is_signed
             = Ok (VInt w r) /\
             (r = x \/ r = y) /\ order r = Z.max (order x) (order y)) /\
  (opcode op = kMinimum ->
   exists r, EmitIntegerBinaryOp op (VInt w x) (VInt w y) is_signed
             = Ok (VInt w r) /\
             (r = x \/ r = y) /\ order r = Z.min (order x) (order y)).
Proof.
  intros Hw Hx Hy order. split; intros Hop;
    unfold EmitIntegerBinaryOp; rewrite Hop;
    unfold EmitIntegralMax, EmitIntegralMin, Select;
    rewrite CreateICmp_same, bind_Ok; cbv beta;
    rewrite CreateSelect_same by reflexivity;
    subst order; destruct is_signed; unfold icmp; cbv beta.
  - destruct (Z.leb_spec (Int.signed w y) (Int.signed w x));
      eexists; (split; [reflexivity|]); split; auto; lia.
  - destruct (Z.leb_spec y x);
      eexists; (split; [reflexivity|]); split; auto; lia.
  - destruct (Z.leb_spec (Int.signed w x) (Int.signed w y));
      eexists; (split; [reflexivity|]); split; auto; lia.
  - destruct (Z.leb_spec x y);
      eexists; (split; [reflexivity|]); split; auto; lia.
Qed.

(** As signed bytes, the maximum of [-1] and [1] is [1]; as unsigned bytes
    the same bit patterns give [255]. *)
Lemma integral_max_min_example :
  EmitIntegerBinaryOp (H := example_collaborators)
      (example_instruction 1 kMaximum (MkShape S8 [] []) [])
      (VInt 8 255) (VInt 8 1) true = Ok (VInt 8 1) /\
  EmitIntegerBinaryOp (H := example_collaborators)
      (example_instruction 1 kMaximum (MkShape U8 [] []) [])
      (VInt 8 255) (VInt 8 1) false = Ok (VInt 8 255).
Proof.
  split.
  - destruct (proj1 (integral_max_min (H := example_collaborators)
                       (example_instruction 1 kMaximum (MkShape S8 [] []) [])
                       8 255 1 true ltac:(lia) ltac:(lia) ltac:(lia)) eq_refl)
      as (r & Hr & Hcase & Hord). rewrite Hr.
    destruct Hcase as [-> | ->];
      [vm_compute in Hord; discriminate Hord | reflexivity].
  - destruct (proj1 (integral_max_min (H := example_collaborators)
                       (example_instruction 1 kMaximum (MkShape U8 [] []) [])
                       8 255 1 false ltac:(lia) ltac:(lia) ltac:(lia)) eq_refl)
      as (r & Hr & Hcase & Hord). rewrite Hr.
    destruct Hcase as [-> | ->];
      [reflexivity | vm_compute in Hord; discriminate Hord].
Defined.

(** ** More on precision reduction *)

(** With all 8 exponent bits and all 23 mantissa bits nothing is reduced:
    every 32-bit pattern, NaNs included, is returned as it is. *)
Theorem reduce_precision_full_width_is_identity
    (no_nans : bool) (exponent_bits mantissa_bits x : Z) :
  0 <= x < 2 ^ 32 -> 8 <= exponent_bits -> 23 <= mantissa_bits ->
  EmitReducePrecisionFloat no_nans (VFP FloatTy x) exponent_bits mantissa_bits
  = Ok (VFP FloatTy x).
Proof.
  intros Hx He Hm.
  rewrite EmitReducePrecisionFloat_bits by lia.
  unfold ReducePrecision.bits, ReducePrecision.saturate_exponent,
    ReducePrecision.round_mantissa.
  destruct (Z.ltb_spec mantissa_bits 23); [lia|].
  destruct (Z.ltb_spec exponent_bits 8); [lia|].
  destruct (Z.ltb_spec 0 mantissa_bits); [|lia].
  destruct no_nans; [reflexivity|].
  destruct (FP.is_nan FloatTy x); reflexivity.
Qed.

Lemma reduce_precision_full_width_is_identity_example :
  EmitReducePrecisionFloat false (VFP FloatTy 2143289345) 8 23
  = Ok (VFP FloatTy 2143289345).
Proof.
  apply reduce_precision_full_width_is_identity; lia.
Defined.

(** A NaN is not rounded: unless the fast-math flags assume that there are
    no NaNs, it is returned unchanged when mantissa bits remain, and it
    becomes the positive infinity, whatever its sign, when none remains. *)
Theorem reduce_precision_of_nan (exponent_bits mantissa_bits x : Z) :
  0 <= x < 2 ^ 32 -> 1 <= exponent_bits -> 0 <= mantissa_bits ->
  FP.is_nan FloatTy x = true ->
  EmitReducePrecisionFloat false (VFP FloatTy x) exponent_bits mantissa_bits
  = Ok (VFP FloatTy (if 0 <? mantissa_bits then x
                     else FP.infinity FloatTy false)).
Proof.
  intros Hx He Hm Hnan.
  rewrite EmitReducePrecisionFloat_bits by lia.
  unfold ReducePrecision.bits. rewrite Hnan. reflexivity.
Qed.

(** A negative NaN reduced to no mantissa bits is [+inf] (0x7f800000). *)
Lemma reduce_precision_of_nan_example :
  FP.is_nan FloatTy 4290772992 = true /\
  EmitReducePrecisionFloat false (VFP FloatTy 4290772992) 5 0
  = Ok (VFP FloatTy 2139095040).
Proof.
  split; [reflexivity|].
  exact (reduce_precision_of_nan 5 0 4290772992 ltac:(lia) ltac:(lia)
           ltac:(lia) eq_refl).
Defined.

Lemma sign_field_div (v : Z) :
  0 <= v < 2 ^ 32 -> FP.sign_field FloatTy v = (v / 2 ^ 31 =? 1).
Proof.
  intros Hv. unfold FP.sign_field.
  change (FP.ebits FloatTy + FP.mbits FloatTy) with 31.
  rewrite Z.testbit_odd, Z.shiftr_div_pow2 by lia.
  assert (H : v / 2 ^ 31 = 0 \/ v / 2 ^ 31 = 1)
    by (change (2 ^ 32) with 4294967296 in Hv; change (2 ^ 31) with 2147483648;
        Z.to_euclidean_division_equations; lia).
  destruct H as [-> | ->]; reflexivity.
Qed.

Lemma land_sign_bit (y : Z) :
  0 <= y < 2 ^ 32 -> Z.land y 2147483648 = 2147483648 * (y / 2 ^ 31).
Proof.
  intros Hy. change 2147483648 with (2 ^ 31).
  pose proof (land_single_bit y 31 ltac:(lia)) as H.
  rewrite (Z.shiftr_div_pow2 _ 31) in H by lia.
  assert (Hd : Z.land y (2 ^ 31) mod 2 ^ 31 = 0).
  { rewrite <- Z.land_ones by lia. rewrite <- Z.land_assoc.
    change (Z.land (2 ^ 31) (Z.ones 31)) with 0. apply Z.land_0_r. }
  assert (Hb : (y / 2 ^ 31) mod 2 = y / 2 ^ 31).
  { apply Z.mod_small. change (2 ^ 32) with 4294967296 in Hy.
    change (2 ^ 31) with 2147483648.
    Z.to_euclidean_division_equations; lia. }
  rewrite Hb in H.
  rewrite (Z.div_mod (Z.land y (2 ^ 31)) (2 ^ 31)) at 1 by discriminate.
  lia.
Qed.

Lemma saturate_exponent_sign (e y : Z) :
  0 <= y < 2 ^ 32 ->
  ReducePrecision.saturate_exponent e y / 2 ^ 31 = y / 2 ^ 31.
Proof.
  intros Hy. unfold ReducePrecision.saturate_exponent.
  destruct (e <? 8); [|reflexivity].
  assert (Hb : y / 2 ^ 31 = 0 \/ y / 2 ^ 31 = 1)
    by (change (2 ^ 32) with 4294967296 in Hy; change (2 ^ 31) with 2147483648;
        Z.to_euclidean_division_equations; lia).
  rewrite (land_sign_bit y Hy).
  destruct (_ <=? _).
  - destruct Hb as [-> | ->]; reflexivity.
  - destruct (_ <? _); [|reflexivity].
    destruct Hb as [-> | ->]; reflexivity.
Qed.

Lemma round_mantissa_sign (m x : Z) :
  0 <= m -> 0 <= x < 2 ^ 32 -> FP.is_nan FloatTy x = false ->
  ReducePrecision.round_mantissa m x / 2 ^ 31 = x / 2 ^ 31.
Proof.
  intros Hm Hx Hnan. unfold FP.is_nan, FP.exponent_field, FP.mantissa_field in Hnan.
  change (FP.mbits FloatTy) with 23 in *. change (FP.ebits FloatTy) with 8 in *.
  rewrite Z.shiftr_div_pow2 in Hnan by lia.
  change (2 ^ 8 - 1) with 255 in *. change (2 ^ 8) with 256 in *.
  change (2 ^ 23) with 8388608 in *.
  assert (Hnan' : (x / 8388608) mod 256 <> 255 \/ x mod 8388608 = 0).
  { destruct (Z.eqb_spec ((x / 8388608) mod 256) 255); [|left; assumption].
    destruct (Z.eqb_spec (x mod 8388608) 0); [right; assumption|discriminate]. }
  clear Hnan.
  unfold ReducePrecision.round_mantissa.
  destruct (Z.ltb_spec m 23); [|reflexivity].
  assert (Hc : m = 0 \/ m = 1 \/ m = 2 \/ m = 3 \/ m = 4 \/ m = 5 \/ m = 6 \/ m = 7 \/
               m = 8 \/ m = 9 \/ m = 10 \/ m = 11 \/ m = 12 \/ m = 13 \/ m = 14 \/
               m = 15 \/ m = 16 \/ m = 17 \/ m = 18 \/ m = 19 \/ m = 20 \/ m = 21 \/
               m = 22) by lia.
  unfold Int.wrap. change (2 ^ 32) with 4294967296 in *.
  change (2 ^ 31) with 2147483648.
  repeat match type of Hc with
         | _ \/ _ => destruct Hc as [-> | Hc]
         | _ => subst m
         end;
    cbv beta zeta;
    match goal with
    | |- context [2 ^ ?a] => let v := eval vm_compute in (2 ^ a) in change (2 ^ a) with v
    end;
    match goal with
    | |- context [2 ^ ?a] => let v := eval vm_compute in (2 ^ a) in change (2 ^ a) with v
    end;
    Z.to_euclidean_division_equations; lia.
Qed.

(** The sign survives: the result of reducing a value that is not a NaN
    has the sign bit of the value, also when it is flushed to zero or
    saturated to infinity. *)
Theorem reduce_precision_keeps_sign
    (no_nans : bool) (exponent_bits mantissa_bits x : Z) :
  0 <= x < 2 ^ 32 -> 1 <= exponent_bits -> 0 <= mantissa_bits ->
  FP.is_nan FloatTy x = false ->
  exists y,
    EmitReducePrecisionFloat no_nans (VFP FloatTy x) exponent_bits mantissa_bits
      = Ok (VFP FloatTy y) /\
    0 <= y < 2 ^ 32 /\
    FP.sign_field FloatTy y = FP.sign_field FloatTy x.
Proof.
  intros Hx He Hm Hnan.
  rewrite EmitReducePrecisionFloat_bits by lia.
  eexists. split; [reflexivity|].
  assert (Hb : ReducePrecision.bits no_nans exponent_bits mantissa_bits x
               = ReducePrecision.saturate_exponent exponent_bits
                   (ReducePrecision.round_mantissa mantissa_bits x)).
  { unfold ReducePrecision.bits. rewrite Hnan. destruct no_nans; reflexivity. }
  rewrite Hb.
  destruct (reduced_bits_fixed exponent_bits mantissa_bits x He Hm Hx)
    as (Hrange & _).
  split; [exact Hrange|].
  rewrite !sign_field_div by assumption.
  rewrite saturate_exponent_sign by (apply round_mantissa_range; assumption).
  rewrite round_mantissa_sign by assumption. reflexivity.
Qed.

(** [-1e-30] underflows with 5 exponent bits: the result is [-0.0]. *)
Lemma reduce_precision_keeps_sign_example :
  EmitReducePrecisionFloat false (VFP FloatTy 2376221280) 5 10
    = Ok (VFP FloatTy 2147483648) /\
  exists y,
    EmitReducePrecisionFloat false (VFP FloatTy 2376221280) 5 10
      = Ok (VFP FloatTy y) /\
    0 <= y < 2 ^ 32 /\
    FP.sign_field FloatTy y = FP.sign_field FloatTy 2376221280.
Proof.
  split; [vm_compute; reflexivity|].
  exact (reduce_precision_keeps_sign false 5 10 2376221280 ltac:(lia)
           ltac:(lia) ltac:(lia) eq_refl).
Defined.

Lemma land_exponent_mask (y : Z) :
  0 <= y -> Z.land y 2139095040 = (y / 2 ^ 23) mod 2 ^ 8 * 2 ^ 23.
Proof.
  intros Hy. apply Z.bits_inj'. intros n Hn.
  rewrite Z.land_spec. change 2139095040 with (Z.shiftl (Z.ones 8) 23).
  destruct (Z.ltb_spec n 23).
  - rewrite Z.shiftl_spec_low, Z.mul_pow2_bits_low by lia.
    apply andb_false_r.
  - rewrite Z.shiftl_spec, Z.mul_pow2_bits by lia.
    destruct (Z.ltb_spec (n - 23) 8).
    + rewrite Z.ones_spec_low, Z.mod_pow2_bits_low, Z.div_pow2_bits by lia.
      replace (n - 23 + 23) with n by lia. apply andb_true_r.
    + rewrite Z.ones_spec_high, Z.mod_pow2_bits_high by lia.
      apply andb_false_r.
Qed.

Lemma exponent_field_div (y : Z) :
  FP.exponent_field FloatTy y = (y / 2 ^ 23) mod 2 ^ 8.
Proof.
  unfold FP.exponent_field. change (FP.mbits FloatTy) with 23.
  change (FP.ebits FloatTy) with 8. rewrite Z.shiftr_div_pow2 by lia.
  reflexivity.
Qed.

Lemma reduced_exponent_bias_range (e : Z) :
  1 <= e < 8 -> 0 <= 2 ^ (e - 1) - 1 <= 63.
Proof.
  intros He.
  assert (He' : e = 1 \/ e = 2 \/ e = 3 \/ e = 4 \/ e = 5 \/ e = 6 \/ e = 7) by lia.
  destruct He' as [-> | [-> | [-> | [-> | [-> | [-> | ->]]]]]]; cbn; lia.
Qed.



(** Denormal numbers are not rounded but truncated to zero: with fewer
    than 8 exponent bits, a value whose exponent field is [0] gives the
    zero of its sign. *)
Theorem reduce_precision_flushes_denormals
    (no_nans : bool) (exponent_bits mantissa_bits x : Z) :
  0 <= x < 2 ^ 32 -> 1 <= exponent_bits < 8 -> 0 <= mantissa_bits ->
  FP.exponent_field FloatTy x = 0 ->
  EmitReducePrecisionFloat no_nans (VFP FloatTy x) exponent_bits mantissa_bits
  = Ok (VFP FloatTy (FP.sign_bit FloatTy (FP.sign_field FloatTy x))).
Proof.
  intros Hx He Hm Hexp.
  assert (Hnan : FP.is_nan FloatTy x = false).
  { unfold FP.is_nan. rewrite Hexp. reflexivity. }
  rewrite EmitReducePrecisionFloat_bits by lia. f_equal. f_equal.
  assert (Hb : ReducePrecision.bits no_nans exponent_bits mantissa_bits x
               = ReducePrecision.saturate_exponent exponent_bits
                   (ReducePrecision.round_mantissa mantissa_bits x)).
  { unfold ReducePrecision.bits. rewrite Hnan. destruct no_nans; reflexivity. }
  rewrite Hb. clear Hb.
  pose proof (round_mantissa_range mantissa_bits x Hm Hx) as Hr.
  pose proof (round_mantissa_sign mantissa_bits x Hm Hx Hnan) as Hsign.
  pose proof (reduced_exponent_bias_range exponent_bits ltac:(lia)) as Hbias.
  assert (Hexp' : (ReducePrecision.round_mantissa mantissa_bits x / 2 ^ 23)
                    mod 2 ^ 8 <= 1).
  { rewrite exponent_field_div in Hexp. clear Hsign Hr.
    unfold ReducePrecision.round_mantissa.
    destruct (Z.ltb_spec mantissa_bits 23); [|lia].
    assert (Hc : mantissa_bits = 0 \/ mantissa_bits = 1 \/ mantissa_bits = 2 \/
                 mantissa_bits = 3 \/ mantissa_bits = 4 \/ mantissa_bits = 5 \/
                 mantissa_bits = 6 \/ mantissa_bits = 7 \/ mantissa_bits = 8 \/
                 mantissa_bits = 9 \/ mantissa_bits = 10 \/ mantissa_bits = 11 \/
                 mantissa_bits = 12 \/ mantissa_bits = 13 \/ mantissa_bits = 14 \/
                 mantissa_bits = 15 \/ mantissa_bits = 16 \/ mantissa_bits = 17 \/
                 mantissa_bits = 18 \/ mantissa_bits = 19 \/ mantissa_bits = 20 \/
                 mantissa_bits = 21 \/ mantissa_bits = 22) by lia.
    unfold Int.wrap. change (2 ^ 32) with 4294967296 in *.
    change (2 ^ 23) with 8388608 in *. change (2 ^ 8) with 256 in *.
    repeat match type of Hc with
           | _ \/ _ => destruct Hc as [-> | Hc]
           | _ => subst mantissa_bits
           end;
      cbv beta zeta;
      match goal with
      | |- context [2 ^ ?a] => let v := eval vm_compute in (2 ^ a) in change (2 ^ a) with v
      end;
      match goal with
      | |- context [2 ^ ?a] => let v := eval vm_compute in (2 ^ a) in change (2 ^ a) with v
      end;
      Z.to_euclidean_division_equations; lia. }
  set (y := ReducePrecision.round_mantissa mantissa_bits x) in *.
  assert (Hyb : y / 2 ^ 31 = 0 \/ y / 2 ^ 31 = 1)
    by (change (2 ^ 32) with 4294967296 in Hr;
        change (2 ^ 31) with 2147483648;
        Z.to_euclidean_division_equations; lia).
  rewrite sign_field_div by assumption. rewrite <- Hsign.
  unfold ReducePrecision.saturate_exponent.
  destruct (Z.ltb_spec exponent_bits 8); [|lia].
  rewrite (land_exponent_mask y) by lia.
  rewrite (land_sign_bit y Hr).
  pose proof (Z.mod_pos_bound (y / 2 ^ 23) (2 ^ 8) ltac:(lia)) as HE.
  change (2 ^ 23) with 8388608 in *.
  destruct (Z.leb_spec ((y / 8388608) mod 2 ^ 8 * 8388608)
              ((127 - (2 ^ (exponent_bits - 1) - 1)) * 8388608)); [|lia].
  destruct Hyb as [-> | ->]; reflexivity.
Qed.

(** The largest negative denormal, [0x807fffff], becomes [-0.0] although
    it is next to the smallest normal number. *)
Lemma reduce_precision_flushes_denormals_example :
  EmitReducePrecisionFloat false (VFP FloatTy 2155872255) 7 23
  = Ok (VFP FloatTy 2147483648).
Proof.
  exact (reduce_precision_flushes_denormals false 7 23 2155872255 ltac:(lia)
           ltac:(lia) ltac:(lia) eq_refl).
Defined.

(** ** The truncated 16-bit float *)

Lemma EmitBF16ToF32_bits (b : Z) :
  0 <= b < 2 ^ 16 ->
  EmitBF16ToF32 (VInt 16 b) = Ok (VFP FloatTy (b * 2 ^ 16)).
Proof.
  intros Hb. unfold EmitBF16ToF32, CreateShl, int_shift.
  cbn -[Z.shiftl Int.wrap Z.pow]. change (Int.wrap 32 16) with 16.
  cbn -[Z.shiftl Int.wrap Z.pow].
  rewrite Z.shiftl_mul_pow2 by lia. unfold Int.wrap.
  rewrite Z.mod_small; [reflexivity|].
  change (2 ^ 16) with 65536 in *. change (2 ^ 32) with 4294967296. lia.
Qed.

Lemma EmitF32ToBF16_bits (no_nans : bool) (x : Z) :
  0 <= x < 2 ^ 32 ->
  EmitF32ToBF16 no_nans (VFP FloatTy x)
  = Ok (VInt 16 (ReducePrecision.bits no_nans 8 7 x / 2 ^ 16 mod 2 ^ 16)).
Proof.
  intros Hx. unfold EmitF32ToBF16, kBFloat16ExponentBits, kBFloat16MantissaBits.
  rewrite EmitReducePrecisionFloat_bits by lia.
  rewrite bind_Ok. cbv beta. rewrite bitcast_f32_i32, bind_Ok. cbv beta.
  cbn [getType ConstantInt]. rewrite bind_Ok. cbv beta.
  change (Int.wrap 32 16) with 16.
  rewrite CreateLShr_int by lia. rewrite bind_Ok. cbv beta.
  rewrite Z.shiftr_div_pow2 by lia. reflexivity.
Qed.

Lemma bits_range (no_nans : bool) (e m x : Z) :
  1 <= e -> 0 <= m -> 0 <= x < 2 ^ 32 ->
  0 <= ReducePrecision.bits no_nans e m x < 2 ^ 32.
Proof.
  intros He Hm Hx.
  destruct (reduced_bits_fixed e m x He Hm Hx) as (Hrange & _).
  unfold ReducePrecision.bits.
  destruct no_nans; [exact Hrange|].
  destruct (FP.is_nan FloatTy x); [|exact Hrange].
  destruct (0 <? m); [exact Hx|]. split; [discriminate|reflexivity].
Qed.

(** Widening and narrowing again loses nothing: every 16-bit pattern, a
    NaN included, comes back as it was. *)
Theorem bf16_widen_narrow_round_trip (no_nans : bool) (b : Z) :
  0 <= b < 2 ^ 16 ->
  (f32 ← EmitBF16ToF32 (VInt 16 b); EmitF32ToBF16 no_nans f32)
  = Ok (VInt 16 b).
Proof.
  intros Hb. rewrite EmitBF16ToF32_bits by assumption. rewrite bind_Ok.
  assert (Hx : 0 <= b * 2 ^ 16 < 2 ^ 32).
  { change (2 ^ 16) with 65536 in *. change (2 ^ 32) with 4294967296. lia. }
  rewrite EmitF32ToBF16_bits by assumption. f_equal. f_equal.
  assert (Hbits : ReducePrecision.bits no_nans 8 7 (b * 2 ^ 16) = b * 2 ^ 16).
  { unfold ReducePrecision.bits, ReducePrecision.saturate_exponent.
    change (8 <? 8) with false. cbv iota.
    rewrite round_mantissa_fix; [| lia | exact Hx |].
    - destruct no_nans; [reflexivity|].
      destruct (FP.is_nan FloatTy (b * 2 ^ 16)); reflexivity.
    - intros _. change (23 - 7) with 16. apply Z.mod_mul. discriminate. }
  rewrite Hbits. rewrite Z.div_mul by discriminate.
  apply Z.mod_small. exact Hb.
Qed.

Lemma bf16_widen_narrow_round_trip_example :
  (f32 ← EmitBF16ToF32 (VInt 16 16256); EmitF32ToBF16 false f32)
  = Ok (VInt 16 16256).
Proof. exact (bf16_widen_narrow_round_trip false 16256 ltac:(lia)). Defined.

(** Narrowing and widening again is the reduction to 8 exponent bits and
    7 mantissa bits, for every value that is not a NaN. *)
Theorem bf16_narrow_widen_is_reduction (no_nans : bool) (x : Z) :
  0 <= x < 2 ^ 32 -> FP.is_nan FloatTy x = false ->
  (bf16 ← EmitF32ToBF16 no_nans (VFP FloatTy x); EmitBF16ToF32 bf16)
  = EmitReducePrecisionFloat no_nans (VFP FloatTy x) kBFloat16ExponentBits
      kBFloat16MantissaBits.
Proof.
  intros Hx Hnan. rewrite EmitF32ToBF16_bits by assumption. rewrite bind_Ok.
  unfold kBFloat16ExponentBits, kBFloat16MantissaBits.
  rewrite EmitReducePrecisionFloat_bits by lia.
  pose proof (bits_range no_nans 8 7 x ltac:(lia) ltac:(lia) Hx) as Hr.
  assert (Hmul : ReducePrecision.bits no_nans 8 7 x mod 2 ^ 16 = 0).
  { unfold ReducePrecision.bits, ReducePrecision.saturate_exponent.
    rewrite Hnan. change (8 <? 8) with false. cbv iota.
    destruct no_nans; apply (round_mantissa_multiple 7); lia. }
  set (r := ReducePrecision.bits no_nans 8 7 x) in *.
  assert (Hq : 0 <= r / 2 ^ 16 < 2 ^ 16).
  { change (2 ^ 16) with 65536 in *. change (2 ^ 32) with 4294967296 in *.
    Z.to_euclidean_division_equations; lia. }
  rewrite (Z.mod_small (r / 2 ^ 16)) by exact Hq.
  rewrite EmitBF16ToF32_bits by exact Hq. f_equal. f_equal.
  change (2 ^ 16) with 65536 in *.
  Z.to_euclidean_division_equations; lia.
Qed.

(** [1.00390625] lies halfway between two 16-bit floats and goes to the
    even one, [1.0]. *)
Lemma bf16_narrow_widen_is_reduction_example :
  (bf16 ← EmitF32ToBF16 false (VFP FloatTy 1065385984); EmitBF16ToF32 bf16)
    = EmitReducePrecisionFloat false (VFP FloatTy 1065385984)
        kBFloat16ExponentBits kBFloat16MantissaBits /\
  (bf16 ← EmitF32ToBF16 false (VFP FloatTy 1065385984); EmitBF16ToF32 bf16)
    = Ok (VFP FloatTy 1065353216).
Proof.
  split; [|vm_compute; reflexivity].
  exact (bf16_narrow_widen_is_reduction false 1065385984 ltac:(lia) eq_refl).
Defined.

(** A NaN is narrowed by dropping its low 16 bits without rounding, so a
    NaN whose payload lies in those bits alone becomes an infinity. *)
Theorem bf16_of_nan_truncates (x : Z) :
  0 <= x < 2 ^ 32 -> FP.is_nan FloatTy x = true ->
  EmitF32ToBF16 false (VFP FloatTy x) = Ok (VInt 16 (x / 2 ^ 16)) /\
  (FP.mantissa_field FloatTy x < 2 ^ 16 ->
   EmitBF16ToF32 (VInt 16 (x / 2 ^ 16))
   = Ok (VFP FloatTy (FP.infinity FloatTy (FP.sign_field FloatTy x)))).
Proof.
  intros Hx Hnan.
  assert (Hq : 0 <= x / 2 ^ 16 < 2 ^ 16).
  { change (2 ^ 16) with 65536 in *. change (2 ^ 32) with 4294967296 in *.
    Z.to_euclidean_division_equations; lia. }
  split.
  - rewrite EmitF32ToBF16_bits by assumption.
    unfold ReducePrecision.bits. rewrite Hnan. change (0 <? 7) with true.
    cbv iota. rewrite Z.mod_small by exact Hq. reflexivity.
  - intros Hlow. rewrite EmitBF16ToF32_bits by exact Hq. f_equal. f_equal.
    rewrite sign_field_div by assumption.
    unfold FP.is_nan in Hnan. apply andb_true_iff in Hnan.
    destruct Hnan as [He _]. apply Z.eqb_eq in He.
    rewrite exponent_field_div in He.
    unfold FP.mantissa_field in Hlow. change (FP.mbits FloatTy) with 23 in *.
    change (FP.ebits FloatTy) with 8 in *.
    assert (Hs : x / 2 ^ 31 = 0 \/ x / 2 ^ 31 = 1)
      by (change (2 ^ 32) with 4294967296 in Hx;
          change (2 ^ 31) with 2147483648;
          Z.to_euclidean_division_equations; lia).
    unfold FP.infinity, FP.sign_bit.
    change (FP.mbits FloatTy) with 23. change (FP.ebits FloatTy) with 8.
    rewrite Z.shiftl_mul_pow2 by lia.
    change (2 ^ 8 - 1) with 255 in *. change (2 ^ 8) with 256 in *.
    change (2 ^ 23) with 8388608 in *. change (2 ^ 16) with 65536 in *.
    change (2 ^ 31) with 2147483648 in *. change (2 ^ (8 + 23)) with 2147483648.
    change (2 ^ 32) with 4294967296 in *.
    destruct Hs as [Hs | Hs]; rewrite Hs; cbn [Z.eqb Pos.eqb];
      Z.to_euclidean_division_equations; lia.
Qed.

(** The signalling NaN [0x7f800001] is narrowed to [0x7f80], the positive
    infinity. *)
Lemma bf16_of_nan_truncates_example :
  EmitF32ToBF16 false (VFP FloatTy 2139095041) = Ok (VInt 16 32640) /\
  EmitBF16ToF32 (VInt 16 32640) = Ok (VFP FloatTy 2139095040).
Proof.
  destruct (bf16_of_nan_truncates 2139095041 ltac:(lia) eq_refl) as [H1 H2].
  split; [exact H1|]. exact (H2 ltac:(vm_compute; reflexivity)).
Defined.

(** ** Sign and finiteness of floats *)

Lemma ConstantFP_constant (k : FPType) (d : spec_float) :
  ConstantFP (FPTy k) d = Ok (VFP k (fp_constant k d)).
Proof. reflexivity. Qed.

Lemma decode_zero_constant (k : FPType) :
  FP.decode k (fp_constant k (S754_zero false)) = S754_zero false.
Proof. destruct k; reflexivity. Qed.

Lemma CreateFCmp_same (p : FloatPredicate) (k : FPType) (x y : Z) :
  CreateFCmp p (VFP k x) (VFP k y)
  = Ok (getInt1 (fcmp p (FP.decode k x) (FP.decode k y))).
Proof. unfold CreateFCmp. rewrite FPType_eqb_refl. reflexivity. Qed.

(** [kSign] of a float: [+0.0] for both zeros, [-1.0] for a negative
    number, and [1.0] for everything else, a NaN included. *)
Theorem float_sign `{Collaborators} (op : HloInstruction) (k : FPType) (x : Z) :
  opcode op = kSign ->
  EmitFloatUnaryOp op (VFP k x)
    = Ok (VFP k match SFcompare (FP.decode k x) (S754_zero false) with
                | Some Eq => fp_constant k (S754_zero false)
                | Some Lt => fp_constant k (SFopp double_1_0)
                | _ => fp_constant k double_1_0
                end) /\
  (FP.is_nan k x = true ->
   EmitFloatUnaryOp op (VFP k x) = Ok (VFP k (fp_constant k double_1_0))) /\
  (forall s, FP.decode k x = S754_zero s ->
   EmitFloatUnaryOp op (VFP k x) = Ok (VFP k 0)).
Proof.
  intros Hop.
  assert (Hgen : EmitFloatUnaryOp op (VFP k x)
    = Ok (VFP k match SFcompare (FP.decode k x) (S754_zero false) with
                | Some Eq => fp_constant k (S754_zero false)
                | Some Lt => fp_constant k (SFopp double_1_0)
                | _ => fp_constant k double_1_0
                end)).
  { unfold EmitFloatUnaryOp. rewrite Hop. cbn [getType].
    repeat (progress (rewrite ?ConstantFP_constant, ?CreateFCmp_same, ?bind_Ok;
                      cbv beta)).
    rewrite decode_zero_constant. unfold Select, fcmp.
    destruct (SFcompare (FP.decode k x) (S754_zero false)) as [[]|];
      rewrite CreateSelect_same by reflexivity; rewrite bind_Ok; cbv beta;
      rewrite CreateSelect_same by reflexivity; reflexivity. }
  split; [exact Hgen|]. split.
  - intros Hnan. rewrite Hgen, (decode_nan k x Hnan). reflexivity.
  - intros s Hz. rewrite Hgen, Hz. destruct s, k; reflexivity.
Qed.

(** The sign of [-0.0] is [+0.0], the sign of a NaN is [1.0]. *)
Lemma float_sign_example :
  EmitFloatUnaryOp (H := example_collaborators)
      (example_instruction 1 kSign (MkShape F32 [] []) [])
      (VFP FloatTy 2147483648) = Ok (VFP FloatTy 0) /\
  EmitFloatUnaryOp (H := example_collaborators)
      (example_instruction 1 kSign (MkShape F32 [] []) [])
      (VFP FloatTy 2143289344) = Ok (VFP FloatTy 1065353216).
Proof.
  destruct (float_sign (H := example_collaborators)
              (example_instruction 1 kSign (MkShape F32 [] []) [])
              FloatTy 2147483648 eq_refl) as (_ & _ & Hzero).
  destruct (float_sign (H := example_collaborators)
              (example_instruction 1 kSign (MkShape F32 [] []) [])
              FloatTy 2143289344 eq_refl) as (_ & Hnan & _).
  split; [exact (Hzero true eq_refl)|exact (Hnan eq_refl)].
Defined.

Lemma abs_fields (k : FPType) (x : Z) :
  0 <= x ->
  let a := x mod 2 ^ (FP.ebits k + FP.mbits k) in
  FP.sign_field k a = false /\
  FP.exponent_field k a = FP.exponent_field k x /\
  FP.mantissa_field k a = FP.mantissa_field k x.
Proof.
  intros Hx a. subst a.
  assert (He : 0 < FP.ebits k) by (destruct k; reflexivity).
  assert (Hm : 0 < FP.mbits k) by (destruct k; reflexivity).
  split; [|split].
  - unfold FP.sign_field. apply Z.mod_pow2_bits_high. lia.
  - unfold FP.exponent_field. rewrite !Z.shiftr_div_pow2 by lia.
    rewrite Z.pow_add_r by lia.
    rewrite (Z.mul_comm (2 ^ FP.ebits k)).
    rewrite Z.rem_mul_r by (pose proof (pow2_pos (FP.ebits k));
                            pose proof (pow2_pos (FP.mbits k)); lia).
    rewrite (Z.mul_comm (2 ^ FP.mbits k)), Z.div_add by
      (pose proof (pow2_pos (FP.mbits k)); lia).
    rewrite Z.div_small by (apply Z.mod_pos_bound, pow2_pos; lia).
    rewrite Z.add_0_l. apply Z.mod_mod.
    pose proof (pow2_pos (FP.ebits k)); lia.
  - unfold FP.mantissa_field. rewrite Z.pow_add_r by lia.
    rewrite (Z.mul_comm (2 ^ FP.ebits k)).
    rewrite Z.rem_mul_r by (pose proof (pow2_pos (FP.ebits k));
                            pose proof (pow2_pos (FP.mbits k)); lia).
    rewrite (Z.mul_comm (2 ^ FP.mbits k) (_ mod _)), Z.mod_add by
      (pose proof (pow2_pos (FP.mbits k)); lia).
    apply Z.mod_mod. pose proof (pow2_pos (FP.mbits k)); lia.
Qed.

Lemma compare_with_infinity (k : FPType) (a : Z) :
  FP.sign_field k a = false ->
  fcmp FCMP_ONE (FP.decode k a) (FP.decode k (FP.infinity k false))
  = FP.is_finite k a.
Proof.
  intros Hs.
  assert (Hinf : FP.decode k (FP.infinity k false) = S754_infinity false)
    by (destruct k; reflexivity).
  rewrite Hinf. unfold FP.decode, FP.is_finite. rewrite Hs.
  assert (Hm : 0 <= FP.mantissa_field k a).
  { unfold FP.mantissa_field. apply Z.mod_pos_bound, pow2_pos.
    destruct k; discriminate. }
  destruct (Z.eqb_spec (FP.exponent_field k a) 0) as [E0|E0].
  - rewrite E0.
    assert (Hne : (0 =? 2 ^ FP.ebits k - 1) = false) by (destruct k; reflexivity).
    rewrite Hne. destruct (FP.mantissa_field k a); reflexivity.
  - destruct (Z.eqb_spec (FP.exponent_field k a) (2 ^ FP.ebits k - 1)).
    + destruct (FP.mantissa_field k a =? 0); reflexivity.
    + pose proof (pow2_pos (FP.mbits k) ltac:(destruct k; discriminate)).
      destruct (FP.mantissa_field k a + 2 ^ FP.mbits k) eqn:Em;
        try reflexivity; exfalso; lia.
Qed.

(** [kIsFinite] is the byte [1] for a finite number and [0] for an
    infinity and for a NaN. *)
Theorem float_is_finite `{Collaborators} (op : HloInstruction) (k : FPType)
    (x : Z) :
  opcode op = kIsFinite -> 0 <= x ->
  EmitFloatUnaryOp op (VFP k x)
  = Ok (VInt 8 (if FP.is_finite k x then 1 else 0)).
Proof.
  intros Hop Hx. unfold EmitFloatUnaryOp. rewrite Hop.
  cbn [getType EmitCallToIntrinsic EmitFabs ConstantFP_getInfinity].
  repeat (progress (rewrite ?CreateFCmp_same, ?bind_Ok; cbv beta)).
  destruct (abs_fields k x Hx) as (Hs & He & _).
  rewrite (compare_with_infinity k _ Hs).
  unfold FP.is_finite. rewrite He.
  destruct (negb _); reflexivity.
Qed.

(** The largest finite 32-bit float is finite; the negative infinity and
    a NaN are not. *)
Lemma float_is_finite_example :
  map (fun x =>
         EmitFloatUnaryOp (H := example_collaborators)
           (example_instruction 1 kIsFinite (MkShape PRED [] []) [])
           (VFP FloatTy x))
      [2139095039; 4286578688; 2143289344]
  = [Ok (VInt 8 1); Ok (VInt 8 0); Ok (VInt 8 0)].
Proof.
  cbn [map].
  rewrite !(float_is_finite (H := example_collaborators)) by (reflexivity || lia).
  reflexivity.
Defined.

(** ** Complex operators *)

Lemma EmitComparison_float `{Collaborators} (p : FloatPredicate) (k : FPType)
    (x y : Z) :
  EmitComparison (inr p) (VFP k x) (VFP k y)
  = Ok (VInt 8 (if fcmp p (FP.decode k x) (FP.decode k y) then 1 else 0)).
Proof.
  unfold EmitComparison. rewrite CreateFCmp_same, bind_Ok. cbv beta.
  destruct (fcmp p _ _); reflexivity.
Qed.

Lemma fcmp_une_oeq (x y : spec_float) :
  fcmp FCMP_UNE x y = negb (fcmp FCMP_OEQ x y).
Proof. unfold fcmp. destruct (SFcompare x y) as [[]|]; reflexivity. Qed.

(** Two complex numbers are equal when both parts are equal as floats and
    unequal otherwise: on the same operands [kNe] is the negation of [kEq],
    also when a part is a NaN. *)
Theorem complex_ne_is_not_eq `{Collaborators} (op_eq op_ne : HloInstruction)
    (k : FPType) (a b c d : Z) :
  opcode op_eq = kEq -> opcode op_ne = kNe ->
  let lhs := VStruct (VFP k a) (VFP k b) in
  let rhs := VStruct (VFP k c) (VFP k d) in
  let equal := fcmp FCMP_OEQ (FP.decode k a) (FP.decode k c)
               && fcmp FCMP_OEQ (FP.decode k b) (FP.decode k d) in
  EmitComplexBinaryOp op_eq lhs rhs = Ok (VInt 8 (if equal then 1 else 0)) /\
  EmitComplexBinaryOp op_ne lhs rhs = Ok (VInt 8 (if equal then 0 else 1)).
Proof.
  intros Heq Hne lhs rhs equal. subst lhs rhs equal.
  unfold EmitComplexBinaryOp. rewrite Heq, Hne.
  unfold EmitExtractReal, EmitExtractImag. cbn [CreateExtractValue].
  repeat (progress (rewrite ?EmitComparison_float, ?CreateAnd_int,
                      ?CreateOr_int, ?bind_Ok; cbv beta)).
  rewrite !fcmp_une_oeq.
  destruct (fcmp FCMP_OEQ (FP.decode k a) (FP.decode k c));
    destruct (fcmp FCMP_OEQ (FP.decode k b) (FP.decode k d));
    split; reflexivity.
Qed.

(** [1 + NaN i] compared with itself: not equal. *)
Lemma complex_ne_is_not_eq_example :
  EmitComplexBinaryOp (H := example_collaborators)
      (example_instruction 1 kEq (MkShape PRED [] []) [])
      (VStruct (VFP FloatTy 1065353216) (VFP FloatTy 2143289344))
      (VStruct (VFP FloatTy 1065353216) (VFP FloatTy 2143289344))
    = Ok (VInt 8 0) /\
  EmitComplexBinaryOp (H := example_collaborators)
      (example_instruction 1 kNe (MkShape PRED [] []) [])
      (VStruct (VFP FloatTy 1065353216) (VFP FloatTy 2143289344))
      (VStruct (VFP FloatTy 1065353216) (VFP FloatTy 2143289344))
    = Ok (VInt 8 1).
Proof.
  exact (complex_ne_is_not_eq (H := example_collaborators)
           (example_instruction 1 kEq (MkShape PRED [] []) [])
           (example_instruction 1 kNe (MkShape PRED [] []) [])
           FloatTy 1065353216 2143289344 1065353216 2143289344
           eq_refl eq_refl).
Defined.

(** The power of complex numbers needs [atan2], which this emitter does
    not implement: [kPower] never returns a value, and once the call of
    the [pow] intrinsic has been emitted it reports Unimplemented. *)
Theorem complex_power_is_unimplemented `{Collaborators} (op : HloInstruction)
    (lhs rhs : Value) :
  opcode op = kPower ->
  is_Ok (EmitComplexBinaryOp op lhs rhs) = false /\
  (forall a b c d p,
     lhs = VStruct (VFP FloatTy a) (VFP FloatTy b) ->
     rhs = VStruct (VFP FloatTy c) (VFP FloatTy d) ->
     element_type (shape op) = C64 ->
     libm intrinsic_pow
       [VFP FloatTy (FP.add FloatTy (FP.mul FloatTy a a) (FP.mul FloatTy b b));
        VFP FloatTy (FP.mul FloatTy (fp_constant FloatTy double_0_5) c)]
       = Ok p ->
     EmitComplexBinaryOp op lhs rhs = Fails (Unimplemented "atan2")).
Proof.
  intros Hop. split.
  - unfold EmitComplexBinaryOp. rewrite Hop.
    do 12 peel_bind. apply is_Ok_bind_left. reflexivity.
  - intros a b c d p -> -> Hty Hpow.
    unfold EmitComplexBinaryOp. rewrite Hop, Hty.
    unfold EmitExtractReal, EmitExtractImag, CreateFMul, CreateFAdd, fp_binop.
    cbn [primitive_util.ComplexComponentType CreateExtractValue FPType_eqb
         getType mbind Outcome_bind].
    rewrite ConstantFP_constant.
    cbn [FPType_eqb mbind Outcome_bind].
    unfold EmitPow, EmitCallToIntrinsic.
    unfold FP.add, FP.mul in Hpow. rewrite Hpow.
    reflexivity.
Qed.

Lemma complex_power_is_unimplemented_example :
  EmitComplexBinaryOp (H := example_collaborators)
      (example_instruction 1 kPower (MkShape C64 [] []) [])
      (VStruct (VFP FloatTy 1065353216) (VFP FloatTy 0))
      (VStruct (VFP FloatTy 1073741824) (VFP FloatTy 0))
  = Fails (Unimplemented "atan2").
Proof.
  exact (proj2 (complex_power_is_unimplemented (H := example_collaborators)
                  (example_instruction 1 kPower (MkShape C64 [] []) [])
                  _ _ eq_refl)
           1065353216 0 1073741824 0 _ eq_refl eq_refl eq_refl eq_refl).
Defined.

(** ** Integer unary operators *)

Lemma signed_0 (w : Z) : 0 < w -> Int.signed w 0 = 0.
Proof.
  intros Hw. unfold Int.signed. pose proof (pow2_pos (w - 1) ltac:(lia)).
  destruct (Z.ltb_spec 0 (2 ^ (w - 1))); lia.
Qed.

Lemma ConstantInt_int (w n : Z) :
  ConstantInt (IntegerTy w) n = Ok (VInt w (Int.wrap w n)).
Proof. reflexivity. Qed.

Lemma CreateNeg_int (w x : Z) :
  CreateNeg (VInt w x) = Ok (VInt w (Int.wrap w (- x))).
Proof.
  unfold CreateNeg. cbn [getType ConstantInt]. rewrite bind_Ok, wrap_0.
  rewrite CreateSub_int. reflexivity.
Qed.

Lemma wrap_abs_signed (w x : Z) :
  0 < w -> 0 <= x < 2 ^ w ->
  (if 0 <=? Int.signed w x then x else Int.wrap w (- x))
  = Int.wrap w (Z.abs (Int.signed w x)).
Proof.
  intros Hw Hx. pose proof (pow2_half w Hw) as Hh.
  pose proof (pow2_pos (w - 1) ltac:(lia)) as Hp.
  unfold Int.signed. destruct (Z.ltb_spec x (2 ^ (w - 1))).
  - destruct (Z.leb_spec 0 x); [|lia].
    rewrite Z.abs_eq by lia. symmetry. apply wrap_small. lia.
  - destruct (Z.leb_spec 0 (x - 2 ^ w)); [lia|].
    rewrite Z.abs_neq by lia. unfold Int.wrap.
    replace (- (x - 2 ^ w)) with (- x + 1 * 2 ^ w) by lia.
    rewrite Z.mod_add by lia. reflexivity.
Qed.

Section IntegerUnary.

Context {collaborators : Collaborators} {tables : TypeTables}.

(** [kNegate] is the two's complement negation.  [kAbs] of a signed type
    is the absolute value in two's complement, so the most negative
    number is its own absolute value; on an unsigned type it changes
    nothing. *)
Theorem integer_negate_and_abs (no_nans : bool) (op : HloInstruction)
    (w x : Z) :
  0 < w -> 0 <= x < 2 ^ w ->
  (opcode op = kNegate ->
   ElementalIrEmitter.EmitIntegerUnaryOp no_nans op (VInt w x)
   = Ok (VInt w (Int.wrap w (- x)))) /\
  (opcode op = kAbs ->
   primitive_util.IsSignedIntegralType (element_type (shape op)) = true ->
   PrimitiveTypeToIrType (element_type (shape op)) = Ok (IntegerTy w) ->
   ElementalIrEmitter.EmitIntegerUnaryOp no_nans op (VInt w x)
     = Ok (VInt w (Int.wrap w (Z.abs (Int.signed w x)))) /\
   (x = 2 ^ (w - 1) ->
    ElementalIrEmitter.EmitIntegerUnaryOp no_nans op (VInt w x)
    = Ok (VInt w x))) /\
  (opcode op = kAbs ->
   primitive_util.IsSignedIntegralType (element_type (shape op)) = false ->
   ElementalIrEmitter.EmitIntegerUnaryOp no_nans op (VInt w x)
   = Ok (VInt w x)).
Proof.
  intros Hw Hx. repeat apply conj.
  - intros Hop. unfold ElementalIrEmitter.EmitIntegerUnaryOp. rewrite Hop.
    apply CreateNeg_int.
  - intros Hop Hs Hty.
    assert (Habs : ElementalIrEmitter.EmitIntegerUnaryOp no_nans op (VInt w x)
                   = Ok (VInt w (Int.wrap w (Z.abs (Int.signed w x))))).
    { unfold ElementalIrEmitter.EmitIntegerUnaryOp. rewrite Hop, Hs, Hty.
      unfold GetZero, Select.
      repeat (progress (rewrite ?ConstantInt_int, ?CreateICmp_same,
                          ?CreateNeg_int, ?CreateSelect_int, ?bind_Ok;
                        cbv beta)).
      unfold icmp. rewrite wrap_0, (signed_0 w Hw).
      rewrite wrap_abs_signed by assumption. reflexivity. }
    split; [exact Habs|].
    intros Hmin. rewrite Habs. f_equal. f_equal.
    pose proof (pow2_half w Hw) as Hh.
    pose proof (pow2_pos (w - 1) ltac:(lia)) as Hp.
    rewrite (signed_big w x) by lia.
    rewrite Z.abs_neq by lia.
    replace (- (x - 2 ^ w)) with x by lia. apply wrap_small. lia.
  - intros Hop Hs. unfold ElementalIrEmitter.EmitIntegerUnaryOp.
    rewrite Hop, Hs. reflexivity.
Qed.

End IntegerUnary.

(** The absolute value of the 32-bit [INT_MIN] is [INT_MIN]. *)
Lemma integer_negate_and_abs_example :
  ElementalIrEmitter.EmitIntegerUnaryOp (collaborators := example_collaborators)
      (tables := example_type_tables) false
      (example_instruction 1 kAbs (MkShape S32 [] []) []) (VInt 32 (2 ^ 31))
  = Ok (VInt 32 (2 ^ 31)).
Proof.
  destruct (integer_negate_and_abs (collaborators := example_collaborators)
              (tables := example_type_tables) false
              (example_instruction 1 kAbs (MkShape S32 [] []) [])
              32 (2 ^ 31) ltac:(lia) ltac:(lia)) as (_ & Habs & _).
  exact (proj2 (Habs eq_refl eq_refl eq_refl) eq_refl).
Defined.

Lemma lor_all_ones_1 (w : Z) : 0 < w -> Z.lor (2 ^ w - 1) 1 = 2 ^ w - 1.
Proof.
  intros Hw. replace (2 ^ w - 1) with (Z.ones w) by (rewrite Z.ones_equiv; lia).
  apply Z.bits_inj'. intros n Hn. rewrite Z.lor_spec.
  change 1 with (2 ^ 0). rewrite Z.pow2_bits_eqb by lia.
  destruct (Z.eqb_spec 0 n) as [<-|Hne]; [|apply orb_false_r].
  rewrite Z.ones_spec_low by lia. reflexivity.
Qed.

Lemma lxor_all_ones (w x : Z) :
  0 <= w -> 0 <= x < 2 ^ w -> Z.lxor x (2 ^ w - 1) = 2 ^ w - 1 - x.
Proof.
  intros Hw Hx.
  replace (2 ^ w - 1) with (Z.ones w) by (rewrite Z.ones_equiv; lia).
  assert (Hl : Z.ldiff x (Z.ones w) = 0).
  { destruct (Z.eq_dec x 0) as [->|Hx0]; [apply Z.ldiff_0_l|].
    apply Z.ldiff_ones_r_low; [lia|]. apply Z.log2_lt_pow2; lia. }
  rewrite (Z.sub_nocarry_ldiff _ _ Hl).
  apply Z.bits_inj'. intros n Hn.
  rewrite Z.lxor_spec, Z.ldiff_spec.
  assert (Hb : Z.testbit (Z.ldiff x (Z.ones w)) n = false)
    by (rewrite Hl; apply Z.bits_0).
  rewrite Z.ldiff_spec in Hb.
  destruct (Z.testbit x n), (Z.testbit (Z.ones w) n);
    try reflexivity; discriminate Hb.
Qed.

Lemma ashr_sign (w x : Z) :
  0 < w -> 0 <= x < 2 ^ w ->
  Int.wrap w (Z.shiftr (Int.signed w x) (w - 1))
  = if Int.signed w x <? 0 then 2 ^ w - 1 else 0.
Proof.
  intros Hw Hx. pose proof (pow2_half w Hw) as Hh.
  pose proof (pow2_pos (w - 1) ltac:(lia)) as Hp.
  rewrite Z.shiftr_div_pow2 by lia.
  unfold Int.signed. destruct (Z.ltb_spec x (2 ^ (w - 1))).
  - destruct (Z.ltb_spec x 0); [lia|].
    rewrite Z.div_small by lia. apply wrap_0.
  - destruct (Z.ltb_spec (x - 2 ^ w) 0); [|lia].
    replace ((x - 2 ^ w) / 2 ^ (w - 1)) with (-1)
      by (apply (Z.div_unique _ _ _ (x - 2 ^ (w - 1))); lia).
    apply wrap_minus_one. exact Hw.
Qed.

Section IntegerSign.

Context {collaborators : Collaborators} {tables : TypeTables}.

(** [kSign] of an integer: [-1], [0] or [1] for a signed type, [0] or [1]
    for an unsigned one. *)
Theorem integer_sign (no_nans : bool) (op : HloInstruction) (w x : Z) :
  0 < w -> 0 <= x < 2 ^ w -> opcode op = kSign ->
  PrimitiveTypeToIrType (element_type (shape op)) = Ok (IntegerTy w) ->
  ElementalIrEmitter.EmitIntegerUnaryOp no_nans op (VInt w x)
  = Ok (VInt w
          (if primitive_util.IsSignedIntegralType (element_type (shape op))
           then Int.wrap w (Z.sgn (Int.signed w x))
           else if x =? 0 then 0 else 1)).
Proof.
  intros Hw Hx Hop Hty.
  unfold ElementalIrEmitter.EmitIntegerUnaryOp. rewrite Hop, Hty.
  unfold GetZero, GetOne, Select.
  repeat (progress (cbn [getType];
                    rewrite ?ConstantInt_int, ?CreateICmp_same, ?bind_Ok;
                    cbv beta iota)).
  unfold icmp. rewrite wrap_0.
  destruct (primitive_util.IsSignedIntegralType _).
  - assert (Hw1 : Int.wrap w (w - 1) = w - 1).
    { apply wrap_small. pose proof (Z.pow_gt_lin_r 2 w ltac:(lia) ltac:(lia)).
      lia. }
    rewrite Hw1. unfold CreateAShr, int_shift. rewrite Z.eqb_refl.
    destruct (Z.ltb_spec (w - 1) w); [|lia].
    repeat (progress (cbn [getType];
                      rewrite ?ConstantInt_int, ?CreateOr_int, ?bind_Ok;
                      cbv beta iota)).
    rewrite (wrap_1 w Hw), CreateSelect_int. f_equal. f_equal.
    rewrite ashr_sign by assumption.
    pose proof (pow2_half w Hw) as Hh.
    pose proof (pow2_pos (w - 1) ltac:(lia)) as Hp.
    destruct (Z.eqb_spec x 0) as [->|Hne].
    + rewrite (signed_0 w Hw). symmetry. apply wrap_0.
    + unfold Int.signed. destruct (Z.ltb_spec x (2 ^ (w - 1))).
      * destruct (Z.ltb_spec x 0); [lia|].
        rewrite Z.sgn_pos by lia. rewrite (wrap_1 w Hw). reflexivity.
      * destruct (Z.ltb_spec (x - 2 ^ w) 0); [|lia].
        rewrite Z.sgn_neg by lia. rewrite (wrap_minus_one w Hw).
        apply lor_all_ones_1. exact Hw.
  - rewrite (wrap_1 w Hw). apply CreateSelect_int.
Qed.

(** A boolean is a byte whose lowest bit is the truth value.  [kNot] of a
    boolean flips that bit and returns the byte [0] or [1]; on an integer
    type it is the complement of all bits.  [kConvert] to a boolean is [1]
    for every number but [0]. *)
Theorem boolean_not_and_conversion (no_nans : bool) (op : HloInstruction)
    (w x : Z) :
  0 < w -> 0 <= x < 2 ^ w ->
  (opcode op = kNot -> element_type (shape op) = PRED -> w = 8 ->
   ElementalIrEmitter.EmitIntegerUnaryOp no_nans op (VInt w x)
   = Ok (VInt 8 (1 - x mod 2))) /\
  (opcode op = kNot ->
   primitive_util.IsIntegralType (element_type (shape op)) = true ->
   ElementalIrEmitter.EmitIntegerUnaryOp no_nans op (VInt w x)
   = Ok (VInt w (2 ^ w - 1 - x))) /\
  (forall op0,
     opcode op = kConvert -> operand op 0 = Ok op0 ->
     primitive_util.IsIntegralType (element_type (shape op0)) = true ->
     element_type (shape op) = PRED ->
     ElementalIrEmitter.EmitIntegerUnaryOp no_nans op (VInt w x)
     = Ok (VInt 8 (if x =? 0 then 0 else 1))).
Proof.
  intros Hw Hx. repeat apply conj.
  - intros Hop Hty ->.
    unfold ElementalIrEmitter.EmitIntegerUnaryOp. rewrite Hop, Hty.
    cbn [PrimitiveType_eqb]. rewrite trunc_i8_i1, bind_Ok. cbv beta.
    rewrite Z.bit0_odd, (Zmod_odd x).
    destruct (Z.odd x); reflexivity.
  - intros Hop Hint.
    unfold ElementalIrEmitter.EmitIntegerUnaryOp. rewrite Hop, Hint.
    assert (Hnp : PrimitiveType_eqb (element_type (shape op)) PRED = false)
      by (destruct (element_type (shape op)); try reflexivity;
          discriminate Hint).
    rewrite Hnp. unfold CreateNot, GetMinusOne. cbn [getType].
    rewrite bind_Ok, CreateXor_int. unfold Int.all_ones.
    rewrite lxor_all_ones by lia. reflexivity.
  - intros op0 Hop H0 Hint Hty.
    unfold ElementalIrEmitter.EmitIntegerUnaryOp.
    rewrite Hop, H0, bind_Ok. cbv beta zeta. rewrite Hint, Hty.
    cbn [orb negb].
    assert (Hnp : PrimitiveType_eqb (element_type (shape op0)) PRED = false)
      by (destruct (element_type (shape op0)); try reflexivity;
          discriminate Hint).
    rewrite Hnp. cbn [PrimitiveType_eqb getType].
    rewrite ConstantInt_int, bind_Ok, wrap_0. cbv beta.
    rewrite CreateICmp_same, bind_Ok. cbv beta. unfold icmp.
    destruct (x =? 0); reflexivity.
Qed.

(** An integer converted to another integer type keeps its value modulo
    [2 ^ w'], where [w'] is the width of the new type and the value is
    read as signed or unsigned by the type it comes from: a widening
    extends the sign or adds zeros, a narrowing drops the high bits. *)
Theorem integer_conversion (no_nans : bool) (op op0 : HloInstruction)
    (w w' x : Z) :
  0 < w -> 0 < w' -> 0 <= x < 2 ^ w ->
  opcode op = kConvert -> operand op 0 = Ok op0 ->
  let from_type := element_type (shape op0) in
  let to_type := element_type (shape op) in
  primitive_util.IsIntegralType from_type = true ->
  primitive_util.IsIntegralType to_type = true ->
  from_type <> to_type ->
  PrimitiveTypeToIrType to_type = Ok (IntegerTy w') ->
  ElementalIrEmitter.EmitIntegerUnaryOp no_nans op (VInt w x)
  = Ok (VInt w' (Int.wrap w'
                   (if primitive_util.IsSignedIntegralType from_type
                    then Int.signed w x else x))).
Proof.
  intros Hw Hw' Hx Hop H0 from_type to_type Hfrom Hto Hne Hty.
  unfold ElementalIrEmitter.EmitIntegerUnaryOp.
  rewrite Hop, H0, bind_Ok. cbv beta zeta.
  fold from_type to_type. rewrite Hfrom, Hto, Hty. cbn [orb negb].
  assert (Hneq : PrimitiveType_eqb from_type to_type = false)
    by (destruct from_type, to_type; try reflexivity; contradiction Hne;
        reflexivity).
  assert (Hnp : PrimitiveType_eqb to_type PRED = false)
    by (destruct to_type; try reflexivity; discriminate Hto).
  rewrite Hneq, Hnp, bind_Ok. cbv beta.
  pose proof (pow2_pos w ltac:(lia)) as Hpw.
  pose proof (pow2_pos w' ltac:(lia)) as Hpw'.
  unfold CreateIntCast, CreateTrunc, CreateSExt, CreateZExt.
  destruct (Z.ltb_spec w' w) as [Hlt|Hge].
  - destruct (Z.eqb_spec w' w); [lia|].
    destruct (Z.ltb_spec 0 w'); [|lia]. cbn [andb].
    destruct (primitive_util.IsSignedIntegralType from_type); [|reflexivity].
    f_equal. f_equal. unfold Int.signed, Int.wrap.
    destruct (x <? 2 ^ (w - 1)); [reflexivity|].
    assert (Hpow : 2 ^ w = 2 ^ (w - w') * 2 ^ w')
      by (rewrite <- Z.pow_add_r by lia; f_equal; lia).
    rewrite Hpow.
    replace (x - 2 ^ (w - w') * 2 ^ w') with (x + (- 2 ^ (w - w')) * 2 ^ w')
      by lia.
    rewrite Z.mod_add by lia. reflexivity.
  - destruct (Z.eqb_spec w' w) as [->|Hnew].
    + destruct (primitive_util.IsSignedIntegralType from_type);
        f_equal; f_equal.
      * unfold Int.signed, Int.wrap. destruct (x <? 2 ^ (w - 1)).
        -- symmetry. apply Z.mod_small. lia.
        -- replace (x - 2 ^ w) with (x + (-1) * 2 ^ w) by lia.
           rewrite Z.mod_add by lia. symmetry. apply Z.mod_small. lia.
      * symmetry. apply wrap_small. lia.
    + destruct (Z.ltb_spec w w'); [|lia].
      destruct (primitive_util.IsSignedIntegralType from_type);
        [reflexivity|].
      f_equal. f_equal. symmetry. apply wrap_small.
      split; [lia|]. apply Z.lt_le_trans with (2 ^ w); [lia|].
      apply Z.pow_le_mono_r; lia.
Qed.

End IntegerSign.

Lemma integer_sign_example :
  ElementalIrEmitter.EmitIntegerUnaryOp (collaborators := example_collaborators)
      (tables := example_type_tables) false
      (example_instruction 1 kSign (MkShape S8 [] []) []) (VInt 8 200)
  = Ok (VInt 8 255).
Proof.
  exact (integer_sign (collaborators := example_collaborators)
           (tables := example_type_tables) false
           (example_instruction 1 kSign (MkShape S8 [] []) []) 8 200
           ltac:(lia) ltac:(lia) eq_refl eq_refl).
Defined.

(** The byte [2] is a false boolean: its negation is [1]. *)
Lemma boolean_not_and_conversion_example :
  ElementalIrEmitter.EmitIntegerUnaryOp (collaborators := example_collaborators)
      (tables := example_type_tables) false
      (example_instruction 1 kNot (MkShape PRED [] []) []) (VInt 8 2)
  = Ok (VInt 8 1).
Proof.
  exact (proj1 (boolean_not_and_conversion
                  (collaborators := example_collaborators)
                  (tables := example_type_tables) false
                  (example_instruction 1 kNot (MkShape PRED [] []) []) 8 2
                  ltac:(lia) ltac:(lia)) eq_refl eq_refl eq_refl).
Defined.

(** The signed byte [-1] becomes the 32-bit [-1]; the unsigned byte [255]
    stays [255]; the 32-bit [257] becomes the byte [1]. *)
Lemma integer_conversion_example :
  ElementalIrEmitter.EmitIntegerUnaryOp (collaborators := example_collaborators)
      (tables := example_type_tables) false (example_convert S8 S32)
      (VInt 8 255)
    = Ok (VInt 32 (2 ^ 32 - 1)) /\
  ElementalIrEmitter.EmitIntegerUnaryOp (collaborators := example_collaborators)
      (tables := example_type_tables) false (example_convert U8 S32)
      (VInt 8 255)
    = Ok (VInt 32 255) /\
  ElementalIrEmitter.EmitIntegerUnaryOp (collaborators := example_collaborators)
      (tables := example_type_tables) false (example_convert S32 U8)
      (VInt 32 257)
    = Ok (VInt 8 1).
Proof.
  split; [|split].
  - exact (integer_conversion (collaborators := example_collaborators)
             (tables := example_type_tables) false (example_convert S8 S32)
             (example_instruction 1 kCopy (MkShape S8 [] []) []) 8 32 255
             ltac:(lia) ltac:(lia) ltac:(lia) eq_refl eq_refl eq_refl eq_refl
             ltac:(discriminate) eq_refl).
  - exact (integer_conversion (collaborators := example_collaborators)
             (tables := example_type_tables) false (example_convert U8 S32)
             (example_instruction 1 kCopy (MkShape U8 [] []) []) 8 32 255
             ltac:(lia) ltac:(lia) ltac:(lia) eq_refl eq_refl eq_refl eq_refl
             ltac:(discriminate) eq_refl).
  - exact (integer_conversion (collaborators := example_collaborators)
             (tables := example_type_tables) false (example_convert S32 U8)
             (example_instruction 1 kCopy (MkShape S32 [] []) []) 32 8 257
             ltac:(lia) ltac:(lia) ltac:(lia) eq_refl eq_refl eq_refl eq_refl
             ltac:(discriminate) eq_refl).
Defined.

(** ** Clamp *)

(** The value of operand [n] of an elementwise instruction at [index]. *)
Ltac operand_value H :=
  match type of H with
  | (operand ?hlo ?n ≫= _) = Ok _ =>
      let op := fresh "op" in
      let g := fresh "g" in
      let i := fresh "i" in
      destruct (operand hlo n) as [op| |]; try discriminate H;
      rewrite bind_Ok in H |- *; cbv beta in H |- *;
      destruct (generator_at _ op) as [g| |]; try discriminate H;
      rewrite bind_Ok in H |- *; cbv beta in H |- *;
      destruct (ElementwiseSourceIndex _ hlo n) as [i| |]; try discriminate H;
      rewrite bind_Ok in H |- *; cbv beta in H |- *;
      rewrite H, bind_Ok; cbv beta
  end.

Lemma integral_is_not_floating (t : PrimitiveType) :
  primitive_util.IsIntegralType t = true ->
  primitive_util.IsFloatingPointType t = false.
Proof. destruct t; (discriminate || reflexivity). Qed.

Section Clamp.

Context {collaborators : Collaborators} {tables : TypeTables}.


End Clamp.


(** ** Dynamic slice *)

Lemma at_index_map_seq {A : Type} (f : nat -> A) (n i : nat) :
  (i < n)%nat -> at_index (map f (seq 0 n)) (Z.of_nat i) = Ok (f i).
Proof.
  intros Hi. unfold at_index.
  destruct (Z.ltb_spec (Z.of_nat i) 0); [lia|].
  rewrite Nat2Z.id, list_lookup_fmap, lookup_seq_lt by exact Hi.
  reflexivity.
Qed.

Lemma extended_range (w from_bits start : Z) :
  0 < w -> 0 <= start < 2 ^ from_bits ->
  0 <= DynamicSliceSpec.extended w from_bits start < 2 ^ w.
Proof.
  intros Hw Hs. unfold DynamicSliceSpec.extended.
  pose proof (pow2_pos w ltac:(lia)).
  destruct (w <? from_bits); [apply Z.mod_pos_bound; lia|].
  destruct (Z.eqb_spec w from_bits) as [->|]; [exact Hs|].
  apply Z.mod_pos_bound; lia.
Qed.

Lemma CreateSExtOrTrunc_int (w from_bits start : Z) :
  0 < w ->
  CreateSExtOrTrunc (VInt from_bits start) (IntegerTy w)
  = Ok (VInt w (DynamicSliceSpec.extended w from_bits start)).
Proof.
  intros Hw. unfold CreateSExtOrTrunc, CreateTrunc, CreateSExt,
    DynamicSliceSpec.extended.
  destruct (Z.ltb_spec w from_bits).
  - destruct (Z.eqb_spec w from_bits); [lia|].
    destruct (Z.ltb_spec 0 w); [|lia]. reflexivity.
  - destruct (Z.eqb_spec w from_bits) as [->|]; [reflexivity|].
    destruct (Z.ltb_spec from_bits w); [reflexivity|lia].
Qed.

(** The clamped start index leaves room for the region. *)
Lemma clamp_range (is_signed : bool) (w largest start : Z) :
  0 < w -> 0 <= largest < 2 ^ (w - 1) -> 0 <= start < 2 ^ w ->
  0 <= DynamicSliceSpec.clamp is_signed w largest start <= largest.
Proof.
  intros Hw Hl Hs. unfold DynamicSliceSpec.clamp.
  pose proof (pow2_half w Hw) as Hh.
  destruct is_signed.
  - rewrite (signed_0 w Hw), (signed_small w largest) by lia.
    destruct (Z.leb_spec (Int.signed w start) 0).
    + rewrite (signed_0 w Hw). destruct (Z.leb_spec largest 0); lia.
    + assert (Hsm : start < 2 ^ (w - 1)).
      { unfold Int.signed in *. destruct (Z.ltb_spec start (2 ^ (w - 1))); lia. }
      rewrite (signed_small w start) by lia.
      destruct (Z.leb_spec largest start); lia.
  - destruct (Z.leb_spec start 0).
    + destruct (Z.leb_spec largest 0); lia.
    + destruct (Z.leb_spec largest start); lia.
Qed.

Section DynamicSlice.

Context {collaborators : Collaborators} {tables : TypeTables}.

Variables (operand_to_generator : HloToElementGeneratorMap)
  (input_hlo start_hlo : HloInstruction) (region_shape : Shape)
  (g_start : ElementGenerator) (w from_bits : Z) (rank : nat)
  (input_extent region_extent start : nat -> Z).

Hypothesis Hw : 0 < w.
Hypothesis Hg_start :
  generator_at operand_to_generator start_hlo = Ok g_start.
Hypothesis Hinput :
  dimensions (shape input_hlo) = map input_extent (seq 0 rank).
Hypothesis Hregion : dimensions region_shape = map region_extent (seq 0 rank).
Hypothesis Hstart : forall i, (i < rank)%nat ->
  g_start (MkIndex [VInt w (Int.wrap w (Z.of_nat i))] None (IntegerTy w))
  = Ok (VInt from_bits (start i)).
Hypothesis Hfits : forall i, (i < rank)%nat ->
  region_extent i <= input_extent i.

Lemma clamped_start_index_spec (i : nat) :
  (i < rank)%nat ->
  ElementalIrEmitter.clamped_start_index operand_to_generator input_hlo
    start_hlo region_shape (IntegerTy w) i
  = Ok (VInt w (DynamicSliceSpec.start_index (ElementIsSigned (shape start_hlo))
                  w from_bits (input_extent i) (region_extent i) (start i))).
Proof.
  intros Hi. unfold ElementalIrEmitter.clamped_start_index.
  rewrite Hg_start, Hinput, Hregion, !at_index_map_seq by exact Hi.
  repeat (progress (cbn [getType];
                    rewrite ?ConstantInt_int, ?(Hstart i Hi),
                      ?(CreateSExtOrTrunc_int _ _ _ Hw), ?bind_Ok;
                    cbv beta)).
  destruct (Z.ltb_spec (input_extent i - region_extent i) 0);
    [specialize (Hfits i Hi); lia|].
  unfold EmitIntegralMax, EmitIntegralMin, Select.
  unfold DynamicSliceSpec.start_index, DynamicSliceSpec.clamp.
  repeat (progress (rewrite ?ConstantInt_int, ?CreateICmp_same,
                      ?CreateSelect_int, ?bind_Ok; cbv beta)).
  rewrite wrap_0.
  destruct (ElementIsSigned (shape start_hlo)); reflexivity.
Qed.

Variables (hlo : HloInstruction) (offset : nat -> Z).

Hypothesis Hstart_hlo : operand hlo 1 = Ok start_hlo.

Lemma slice_start_loop (n : nat) :
  (n <= rank)%nat ->
  foldl (fun (acc : Outcome (list Value)) (i : nat) =>
           slice_start_index ← acc;
           start_hlo ← operand hlo 1;
           start_index_value ←
             ElementalIrEmitter.clamped_start_index operand_to_generator
               input_hlo start_hlo region_shape (IntegerTy w) i;
           Ok (slice_start_index ++ [start_index_value]))
        (Ok []) (seq 0 n)
  = Ok (map (fun i =>
               VInt w (DynamicSliceSpec.start_index
                         (ElementIsSigned (shape start_hlo)) w from_bits
                         (input_extent i) (region_extent i) (start i)))
          (seq 0 n)).
Proof.
  induction n as [|n IH]; intros Hn; [reflexivity|].
  rewrite seq_S, foldl_app, IH by lia. cbn [foldl plus].
  rewrite bind_Ok. cbv beta. rewrite Hstart_hlo, bind_Ok. cbv beta.
  rewrite clamped_start_index_spec by lia. rewrite bind_Ok. cbv beta.
  rewrite map_app. reflexivity.
Qed.

Lemma slice_offset_loop (combine : Value -> Value -> Outcome Value)
    (result base : nat -> Z) (lin : option Value) (n : nat) :
  (forall i, (i < rank)%nat ->
     combine (VInt w (base i)) (VInt w (offset i)) = Ok (VInt w (result i))) ->
  (n <= rank)%nat ->
  foldl (fun (acc : Outcome (list Value)) (i : nat) =>
           input_index ← acc;
           start ← at_index (map (fun i => VInt w (base i)) (seq 0 rank))
                     (Z.of_nat i);
           offset ← IrArray.get
                      (MkIndex (map (fun i => VInt w (offset i)) (seq 0 rank))
                         lin (IntegerTy w)) (Z.of_nat i);
           sum ← combine start offset;
           Ok (input_index ++ [sum]))
        (Ok []) (seq 0 n)
  = Ok (map (fun i => VInt w (result i)) (seq 0 n)).
Proof.
  intros Hcombine. induction n as [|n IH]; intros Hn; [reflexivity|].
  rewrite seq_S, foldl_app, IH by lia. cbn [foldl plus].
  rewrite bind_Ok. cbv beta. unfold IrArray.get. cbn [multidim].
  rewrite !at_index_map_seq by lia. rewrite !bind_Ok. cbv beta.
  rewrite Hcombine by lia. rewrite bind_Ok. cbv beta.
  rewrite map_app. reflexivity.
Qed.

End DynamicSlice.

(** A dynamic slice never reads outside its input.  In every dimension
    the start index is brought to the index type and clamped to
    [0 .. input_extent - output_extent], in the signed or unsigned order
    of the type of the start indices, and the element is the element of
    the input at start index plus output coordinate. *)
Theorem dynamic_slice_reads_in_bounds
    {collaborators : Collaborators} {tables : TypeTables}
    (hlo input_hlo start_hlo : HloInstruction)
    (operand_to_generator : HloToElementGeneratorMap)
    (g_input g_start : ElementGenerator) (w from_bits : Z) (rank : nat)
    (input_extent output_extent start offset : nat -> Z)
    (lin : option Value) :
  0 < w ->
  operand hlo 0 = Ok input_hlo -> operand hlo 1 = Ok start_hlo ->
  generator_at operand_to_generator input_hlo = Ok g_input ->
  generator_at operand_to_generator start_hlo = Ok g_start ->
  dimensions (shape input_hlo) = map input_extent (seq 0 rank) ->
  dimensions (shape hlo) = map output_extent (seq 0 rank) ->
  (forall i, (i < rank)%nat ->
     g_start (MkIndex [VInt w (Int.wrap w (Z.of_nat i))] None (IntegerTy w))
     = Ok (VInt from_bits (start i))) ->
  (forall i, (i < rank)%nat ->
     0 <= start i < 2 ^ from_bits /\
     0 <= offset i < output_extent i /\
     output_extent i <= input_extent i < 2 ^ (w - 1)) ->
  let start_index := fun i =>
    DynamicSliceSpec.start_index (ElementIsSigned (shape start_hlo)) w
      from_bits (input_extent i) (output_extent i) (start i) in
  ElementalIrEmitter.EmitElementalDynamicSlice hlo operand_to_generator
    (MkIndex (map (fun i => VInt w (offset i)) (seq 0 rank)) lin (IntegerTy w))
  = g_input (MkIndex (map (fun i => VInt w (start_index i + offset i))
                        (seq 0 rank)) None (IntegerTy w)) /\
  forall i, (i < rank)%nat ->
    0 <= start_index i <= input_extent i - output_extent i /\
    0 <= start_index i + offset i < input_extent i.
Proof.
  intros Hw Hinput_hlo Hstart_hlo Hg_input Hg_start Hin Hout Hstart Hrange
    start_index.
  assert (Hbound : forall i, (i < rank)%nat ->
            0 <= start_index i <= input_extent i - output_extent i).
  { intros i Hi. destruct (Hrange i Hi) as (Hs & Ho & He).
    subst start_index. cbv beta. unfold DynamicSliceSpec.start_index.
    pose proof (pow2_half w Hw) as Hh.
    rewrite (wrap_small w (input_extent i - output_extent i)) by lia.
    apply clamp_range; [exact Hw|lia|].
    apply extended_range; assumption. }
  split.
  - unfold ElementalIrEmitter.EmitElementalDynamicSlice.
    rewrite Hinput_hlo, bind_Ok. cbv beta zeta.
    unfold ShapeUtil.Rank. rewrite Hin, length_map, length_seq, Nat2Z.id.
    cbn [GetType].
    rewrite (slice_start_loop operand_to_generator input_hlo start_hlo
               (shape hlo) g_start w from_bits rank input_extent output_extent
               start Hw Hg_start Hin Hout Hstart
               (fun i Hi => proj1 (proj2 (proj2 (Hrange i Hi))))
               hlo Hstart_hlo rank (le_n rank)).
    rewrite bind_Ok. cbv beta.
    subst start_index. cbv beta in Hbound |- *.
    rewrite (slice_offset_loop w rank offset CreateAdd
               (fun i =>
                  DynamicSliceSpec.start_index
                    (ElementIsSigned (shape start_hlo)) w from_bits
                    (input_extent i) (output_extent i) (start i) + offset i)
               (fun i =>
                  DynamicSliceSpec.start_index
                    (ElementIsSigned (shape start_hlo)) w from_bits
                    (input_extent i) (output_extent i) (start i))
               lin rank).
    + rewrite bind_Ok. cbv beta. rewrite Hg_input, bind_Ok. reflexivity.
    + intros i Hi. rewrite CreateAdd_int. f_equal. f_equal.
      apply wrap_small. specialize (Hbound i Hi).
      destruct (Hrange i Hi) as (Hs & Ho & He).
      pose proof (pow2_half w Hw). lia.
    + lia.
  - intros i Hi. specialize (Hbound i Hi).
    destruct (Hrange i Hi) as (Hs & Ho & He). lia.
Qed.

(** A slice of three out of five elements.  The start index [4] is
    clamped to [2], so that output coordinate [1] reads input coordinate
    [3]; the start index [-1] is clamped to [0]. *)
Lemma dynamic_slice_reads_in_bounds_example :
  ElementalIrEmitter.EmitElementalDynamicSlice (tables := example_type_tables)
      example_dynamic_slice (example_dynamic_slice_generators 4)
      (example_index [1])
    = Ok (VInt 32 13) /\
  map (fun start =>
         ElementalIrEmitter.EmitElementalDynamicSlice
           (tables := example_type_tables) example_dynamic_slice
           (example_dynamic_slice_generators start) (example_index [1]))
      [0; 1; 2; 3; 2 ^ 32 - 1]
  = map (fun v => Ok (VInt 32 v)) [11; 12; 13; 13; 11].
Proof.
  split; [|vm_compute; reflexivity].
  destruct (dynamic_slice_reads_in_bounds
              (collaborators := example_collaborators)
              (tables := example_type_tables)
              example_dynamic_slice
              (example_instruction 1 kCopy (MkShape S32 [5] [0]) [])
              (example_instruction 2 kCopy (MkShape S32 [1] [0]) [])
              (example_dynamic_slice_generators 4)
              (checked_buffer_generator 32 [10; 11; 12; 13; 14])
              (checked_buffer_generator 32 [4])
              64 32 1 (fun _ => 5) (fun _ => 3) (fun _ => 4) (fun _ => 1) None
              ltac:(lia) eq_refl eq_refl eq_refl eq_refl eq_refl eq_refl)
    as [Hslice _].
  - intros i Hi. assert (i = 0%nat) as -> by lia. reflexivity.
  - intros i Hi. cbv beta. lia.
  - exact Hslice.
Defined.

(** ** Dynamic update slice *)

Section DynamicUpdateSlice.

Context {collaborators : Collaborators} {tables : TypeTables}.

Variables (operand_to_generator : HloToElementGeneratorMap)
  (hlo input_hlo update_hlo start_hlo : HloInstruction)
  (g_start : ElementGenerator) (w from_bits : Z) (rank : nat)
  (input_extent update_extent start offset : nat -> Z) (lin : option Value).

Hypothesis Hw : 0 < w.
Hypothesis Hg_start :
  generator_at operand_to_generator start_hlo = Ok g_start.
Hypothesis Hinput :
  dimensions (shape input_hlo) = map input_extent (seq 0 rank).
Hypothesis Hupdate :
  dimensions (shape update_hlo) = map update_extent (seq 0 rank).
Hypothesis Hstart : forall i, (i < rank)%nat ->
  g_start (MkIndex [VInt w (Int.wrap w (Z.of_nat i))] None (IntegerTy w))
  = Ok (VInt from_bits (start i)).
Hypothesis Hrange : forall i, (i < rank)%nat ->
  0 <= start i < 2 ^ from_bits /\
  0 <= offset i < input_extent i /\
  0 <= update_extent i <= input_extent i /\ input_extent i < 2 ^ (w - 1).

Let index : Index :=
  MkIndex (map (fun i => VInt w (offset i)) (seq 0 rank)) lin (IntegerTy w).

Let start_index (i : nat) : Z :=
  DynamicSliceSpec.start_index (ElementIsSigned (shape start_hlo)) w
    from_bits (input_extent i) (update_extent i) (start i).

Lemma update_start_index_range (i : nat) :
  (i < rank)%nat ->
  0 <= start_index i <= input_extent i - update_extent i.
Proof.
  intros Hi. destruct (Hrange i Hi) as (Hs & Ho & He & Hie).
  unfold start_index, DynamicSliceSpec.start_index.
  pose proof (pow2_half w Hw) as Hh.
  rewrite (wrap_small w (input_extent i - update_extent i)) by lia.
  apply clamp_range; [exact Hw|lia|].
  apply extended_range; assumption.
Qed.

Lemma update_slice_loop (n : nat) :
  (n <= rank)%nat ->
  foldl (ElementalIrEmitter.update_slice_dimension hlo input_hlo update_hlo
           start_hlo operand_to_generator index)
        (Ok ([], getInt1 true)) (seq 0 n)
  = Ok (map (fun i => VInt w (start_index i)) (seq 0 n),
        getInt1 (forallb (fun i =>
                            (start_index i <=? offset i)
                            && (offset i <? start_index i + update_extent i))
                   (seq 0 n))).
Proof.
  induction n as [|n IH]; intros Hn; [reflexivity|].
  rewrite seq_S, foldl_app, IH by lia. cbn [foldl plus].
  unfold ElementalIrEmitter.update_slice_dimension at 1.
  rewrite bind_Ok. cbv beta iota.
  unfold index at 1 2. unfold IrArray.get. cbn [multidim].
  rewrite (at_index_map_seq _ rank 0) by lia. rewrite bind_Ok. cbv beta.
  cbn [getType].
  rewrite (clamped_start_index_spec operand_to_generator input_hlo start_hlo
             (shape update_hlo) g_start w from_bits rank input_extent
             update_extent start Hw Hg_start Hinput Hupdate Hstart)
    by (try lia; intros i Hi; destruct (Hrange i Hi) as (_ & _ & He & _); lia).
  fold (start_index n).
  rewrite Hupdate, !at_index_map_seq by lia.
  repeat (progress (rewrite ?ConstantInt_int, ?CreateAdd_int, ?CreateICmp_same,
                      ?getInt1_and, ?bind_Ok; cbv beta)).
  destruct (Hrange n ltac:(lia)) as (Hs & Ho & He & Hie).
  pose proof (update_start_index_range n ltac:(lia)) as Hsi.
  pose proof (pow2_half w Hw) as Hh.
  rewrite (wrap_small w (update_extent n)) by lia.
  rewrite (wrap_small w (start_index n + update_extent n)) by lia.
  unfold icmp.
  rewrite !signed_small by lia.
  rewrite map_app, forallb_app. cbn [map forallb].
  rewrite andb_true_r, andb_assoc. reflexivity.
Qed.

Lemma update_index_loop (n : nat) :
  (n <= rank)%nat ->
  foldl (fun (acc : Outcome (list Value)) (i : nat) =>
           update_index ← acc;
           index_i ← IrArray.get index (Z.of_nat i);
           start ← at_index (map (fun i => VInt w (start_index i))
                               (seq 0 rank)) (Z.of_nat i);
           difference ← CreateSub index_i start;
           Ok (update_index ++ [difference]))
        (Ok []) (seq 0 n)
  = Ok (map (fun i => VInt w (Int.wrap w (offset i - start_index i)))
          (seq 0 n)).
Proof.
  induction n as [|n IH]; intros Hn; [reflexivity|].
  rewrite seq_S, foldl_app, IH by lia. cbn [foldl plus].
  rewrite bind_Ok. cbv beta. unfold index at 1, IrArray.get. cbn [multidim].
  rewrite !at_index_map_seq by lia. rewrite !bind_Ok. cbv beta.
  rewrite CreateSub_int, bind_Ok. cbv beta.
  rewrite map_app. reflexivity.
Qed.

End DynamicUpdateSlice.



(** ** Concatenate *)

Lemma offset_monotone (extent : nat -> Z) (n : nat) :
  (forall j, (j < n)%nat -> 0 <= extent j) ->
  forall i j, (i <= j <= n)%nat ->
  ConcatenateSpec.offset extent i <= ConcatenateSpec.offset extent j.
Proof.
  intros Hext i j. induction j as [|j IH]; intros Hij.
  - assert (i = 0%nat) as -> by lia. lia.
  - destruct (Nat.eq_dec i (S j)) as [->|Hne]; [lia|].
    cbn [ConcatenateSpec.offset]. specialize (IH ltac:(lia)).
    specialize (Hext j ltac:(lia)). lia.
Qed.

Lemma selected_none (extent : nat -> Z) (t : Z) (m : nat) :
  0 <= t -> ConcatenateSpec.selected extent t m = None ->
  ConcatenateSpec.offset extent m <= t.
Proof.
  intros Ht. destruct m as [|m]; [intros _; exact Ht|].
  cbn [ConcatenateSpec.selected].
  destruct (ConcatenateSpec.selected extent t m); [discriminate|].
  destruct (Z.ltb_spec t (ConcatenateSpec.offset extent (S m)));
    [discriminate|]. intros _. assumption.
Qed.

Lemma selected_some (extent : nat -> Z) (t : Z) (n j : nat) :
  0 <= t -> ConcatenateSpec.selected extent t n = Some j ->
  (j < n)%nat /\
  ConcatenateSpec.offset extent j <= t < ConcatenateSpec.offset extent (S j).
Proof.
  intros Ht. induction n as [|n IH]; [discriminate|].
  cbn [ConcatenateSpec.selected].
  destruct (ConcatenateSpec.selected extent t n) as [j'|] eqn:Hsel.
  - intros Hj. injection Hj as ->. destruct (IH eq_refl). split; [lia|assumption].
  - destruct (Z.ltb_spec t (ConcatenateSpec.offset extent (S n)));
      [|discriminate].
    intros Hj. injection Hj as <-. split; [lia|].
    split; [apply selected_none; assumption|assumption].
Qed.

Lemma selected_of_range (extent : nat -> Z) (t : Z) (n j : nat) :
  (forall i, (i < n)%nat -> 0 <= extent i) -> (j < n)%nat ->
  ConcatenateSpec.offset extent j <= t < ConcatenateSpec.offset extent (S j) ->
  ConcatenateSpec.selected extent t n = Some j.
Proof.
  intros Hext Hj Ht.
  assert (H0 : 0 <= t).
  { pose proof (offset_monotone extent n Hext 0 j ltac:(lia)) as Hm.
    cbn [ConcatenateSpec.offset] in Hm. lia. }
  induction n as [|n IH]; [lia|].
  cbn [ConcatenateSpec.selected].
  destruct (Nat.eq_dec j n) as [->|Hne].
  - destruct (ConcatenateSpec.selected extent t n) as [j'|] eqn:Hsel.
    + destruct (selected_some extent t n j' H0 Hsel) as (Hlt & _ & Hup).
      pose proof (offset_monotone extent (S n) Hext (S j') n ltac:(lia)). lia.
    + destruct (Z.ltb_spec t (ConcatenateSpec.offset extent (S n)));
        [reflexivity|lia].
  - rewrite IH; [reflexivity| |lia]. intros i Hi. apply Hext. lia.
Qed.

Section Concatenate.

Variables (operand_to_generator : HloToElementGeneratorMap)
  (hlo : HloInstruction) (c : nat) (output_type index_type : IrType)
  (w t : Z) (coordinates : list Value) (lin : option Value) (n : nat)
  (op : nat -> HloInstruction) (extent : nat -> Z)
  (g : nat -> ElementGenerator).

(** The index handed to the generator of operand [j]. *)
Let source (j : nat) : Index :=
  match j with
  | O => MkIndex coordinates lin index_type
  | S _ =>
      MkIndex (<[c := VInt w (Int.wrap w (t - ConcatenateSpec.offset extent j))]>
                 coordinates) None index_type
  end.

Hypothesis Hw : 0 < w.
Hypothesis Ht : 0 <= t < 2 ^ w.
Hypothesis Hoperands : operands hlo = map op (seq 0 n).
Hypothesis Hcoordinate : coordinates !! c = Some (VInt w t).
Hypothesis Hextent : forall j, (j < n)%nat ->
  at_index (dimensions (shape (op j))) (Z.of_nat c) = Ok (extent j) /\
  0 <= extent j < 2 ^ w.
Hypothesis Hgenerator : forall j, (j < n)%nat ->
  generator_at operand_to_generator (op j) = Ok (g j).
Hypothesis Hstatus : forall j s, (j < n)%nat -> g j (source j) <> Fails s.
Hypothesis Htype : forall j v, (j < n)%nat ->
  g j (source j) = Ok v -> getType v = output_type.

Lemma source_get (j : nat) :
  IrArray.get (source j) (Z.of_nat c)
  = Ok (VInt w (Int.wrap w (t - ConcatenateSpec.offset extent j))).
Proof.
  pose proof (lookup_lt_Some _ _ _ Hcoordinate) as Hlen.
  unfold IrArray.get, at_index.
  destruct (Z.ltb_spec (Z.of_nat c) 0); [lia|]. rewrite Nat2Z.id.
  destruct j as [|j]; cbn [source multidim].
  - rewrite Hcoordinate. cbn [ConcatenateSpec.offset].
    rewrite Z.sub_0_r, wrap_small by exact Ht. reflexivity.
  - rewrite list_lookup_insert_eq by exact Hlen. reflexivity.
Qed.

Lemma source_set (j : nat) (v : Z) :
  v = Int.wrap w (t - ConcatenateSpec.offset extent (S j)) ->
  IrArray.set (source j) (Z.to_nat (Z.of_nat c)) (VInt w v)
  = Ok (source (S j)).
Proof.
  intros ->. pose proof (lookup_lt_Some _ _ _ Hcoordinate) as Hlen.
  unfold IrArray.set. rewrite Nat2Z.id.
  destruct j as [|j]; cbn [source multidim GetType].
  - destruct (Nat.ltb_spec c (length coordinates)); [reflexivity|lia].
  - rewrite length_insert.
    destruct (Nat.ltb_spec c (length coordinates)); [|lia].
    rewrite list_insert_insert_eq. reflexivity.
Qed.

(** Emitting the block of operand [j] goes through. *)
Lemma operand_block_emitted (j : nat) :
  (j < n)%nat ->
  emit_block (g j (source j)) = Ok tt /\
  ElementalIrEmitter.check_incoming (g j (source j)) output_type = Ok tt.
Proof.
  intros Hj. pose proof (fun s => Hstatus j s Hj) as Hs.
  pose proof (fun v => Htype j v Hj) as Hv.
  destruct (g j (source j)) as [v|s|]; cbn.
  - rewrite (Hv v eq_refl), IrType_eqb_refl. split; reflexivity.
  - destruct (Hs s eq_refl).
  - split; reflexivity.
Qed.

Lemma concatenate_loop (m : nat) :
  (m <= n)%nat ->
  foldl (ElementalIrEmitter.concatenate_operand hlo operand_to_generator
           (Z.of_nat c) output_type)
        (Ok (source 0, None)) (seq 0 m)
  = Ok (source m,
        option_map (fun j => g j (source j))
          (ConcatenateSpec.selected extent t m)).
Proof.
  induction m as [|m IH]; intros Hm; [reflexivity|].
  rewrite seq_S, foldl_app, IH by lia. cbn [foldl plus].
  unfold ElementalIrEmitter.concatenate_operand at 1.
  rewrite bind_Ok. cbv beta iota.
  unfold operand. rewrite Hoperands, at_index_map_seq by lia.
  rewrite bind_Ok. cbv beta. rewrite source_get, bind_Ok. cbv beta.
  destruct (Hextent m ltac:(lia)) as [Hdim Hext].
  destruct (operand_block_emitted m ltac:(lia)) as [Hemit Hcheck].
  rewrite Hdim, bind_Ok. cbv beta. cbn [getType].
  rewrite ConstantInt_int, bind_Ok. cbv beta.
  rewrite CreateICmp_same, bind_Ok. cbv beta.
  rewrite (Hgenerator m) by lia. rewrite bind_Ok. cbv beta zeta.
  rewrite Hemit, bind_Ok. cbv beta. rewrite Hcheck, bind_Ok. cbv beta.
  rewrite CreateSub_int, bind_Ok. cbv beta.
  rewrite (wrap_small w (extent m)) by exact Hext.
  rewrite source_set.
  2:{ cbn [ConcatenateSpec.offset]. unfold Int.wrap.
      rewrite Zminus_mod_idemp_l. f_equal. lia. }
  rewrite bind_Ok. cbv beta. f_equal. f_equal.
  cbn [ConcatenateSpec.selected].
  destruct (ConcatenateSpec.selected extent t m) as [j|] eqn:Hsel;
    [reflexivity|].
  pose proof (selected_none extent t m ltac:(lia) Hsel) as Hoff.
  assert (Hpos : 0 <= ConcatenateSpec.offset extent m).
  { apply (offset_monotone extent n) with (i := 0%nat); [|lia].
    intros i Hi. destruct (Hextent i Hi). lia. }
  rewrite wrap_small by lia. unfold icmp, getInt1.
  cbn [ConcatenateSpec.offset option_map].
  destruct (Z.ltb_spec (t - ConcatenateSpec.offset extent m) (extent m));
    destruct (Z.ltb_spec t (ConcatenateSpec.offset extent m + extent m));
    try lia; reflexivity.
Qed.

End Concatenate.



(** ** Uniform random integers *)



(** ** Reverse *)

Lemma insert_map_seq {A : Type} (f f' : nat -> A) (r d : nat) :
  (d < r)%nat -> (forall i, i <> d -> f' i = f i) ->
  <[d := f' d]> (map f (seq 0 r)) = map f' (seq 0 r).
Proof.
  intros Hd Hsame. apply list_eq. intros i.
  destruct (Nat.eq_dec i d) as [->|Hne].
  - rewrite list_lookup_insert_eq by (rewrite length_map, length_seq; lia).
    rewrite list_lookup_fmap, lookup_seq_lt by lia. reflexivity.
  - rewrite list_lookup_insert_ne by lia.
    rewrite !list_lookup_fmap.
    destruct (seq 0 r !! i) as [j|] eqn:Hj; [|reflexivity].
    apply lookup_seq in Hj. destruct Hj as [-> _]. cbn.
    rewrite Hsame by lia. reflexivity.
Qed.

Section Reverse.

Variables (hlo : HloInstruction) (w : Z) (r : nat) (t extent : nat -> Z)
  (lin : option Value) (index_type : IrType).

Hypothesis Hextent : dimensions (shape hlo) = map extent (seq 0 r).

Let target : Index :=
  MkIndex (map (fun i => VInt w (t i)) (seq 0 r)) lin index_type.

Let reversed (i : nat) : Z :=
  Int.wrap w (Int.wrap w (extent i - 1) - t i).

Lemma reverse_loop (ds : list nat) :
  Forall (fun d => (d < r)%nat) ds ->
  foldl (fun (acc : Outcome Index) (dim : Z) =>
           source_index ← acc;
           t ← IrArray.get target dim;
           extent ← at_index (dimensions (shape hlo)) dim;
           last ← ConstantInt (getType t) (extent - 1);
           v ← CreateSub last t;
           if dim <? 0 then Aborts
           else IrArray.set source_index (Z.to_nat dim) v)
        (Ok target) (map Z.of_nat ds)
  = Ok (MkIndex
          (map (fun i => VInt w (if existsb (Nat.eqb i) ds
                                 then reversed i else t i)) (seq 0 r))
          (match ds with [] => lin | _ => None end) index_type).
Proof.
  induction ds as [|d ds IH] using rev_ind; intros Hds; [reflexivity|].
  apply Forall_app in Hds. destruct Hds as [Hds Hd].
  apply Forall_inv in Hd.
  rewrite map_app, foldl_app, IH by exact Hds. cbn [map foldl].
  rewrite bind_Ok. cbv beta. unfold target at 1, IrArray.get. cbn [multidim].
  rewrite Hextent, !at_index_map_seq by exact Hd.
  rewrite !bind_Ok. cbv beta. cbn [getType].
  rewrite ConstantInt_int, bind_Ok. cbv beta.
  rewrite CreateSub_int, bind_Ok. cbv beta.
  destruct (Z.ltb_spec (Z.of_nat d) 0); [lia|].
  unfold IrArray.set. cbn [multidim GetType]. rewrite Nat2Z.id.
  rewrite length_map, length_seq.
  destruct (Nat.ltb_spec d r) as [Hlt|]; [|lia].
  f_equal.
  assert (Hlin : match ds ++ [d] with [] => lin | _ => None end = None)
    by (destruct ds; reflexivity).
  rewrite Hlin. f_equal.
  fold (reversed d).
  rewrite <- (insert_map_seq
                (fun i => VInt w (if existsb (Nat.eqb i) ds
                                  then reversed i else t i))
                (fun i => VInt w (if existsb (Nat.eqb i) (ds ++ [d])
                                  then reversed i else t i)) r d Hlt).
  - rewrite existsb_app. cbn [existsb]. rewrite Nat.eqb_refl, orb_true_r.
    reflexivity.
  - intros i Hne. rewrite existsb_app. cbn [existsb].
    destruct (Nat.eqb_spec i d); [contradiction|].
    rewrite !orb_false_r. reflexivity.
Qed.

End Reverse.

(** [kReverse] reads the operand at the mirrored coordinate
    [extent - 1 - t] in every reversed dimension and at the same
    coordinate in the others; the mirrored coordinate is in bounds, and
    mirroring it again gives [t]. *)
Theorem reverse_element (hlo op : HloInstruction)
    (operand_to_generator : HloToElementGeneratorMap) (g : ElementGenerator)
    (w : Z) (r : nat) (t extent : nat -> Z) (ds : list nat)
    (lin : option Value) (index_type : IrType) :
  0 < w ->
  operand hlo 0 = Ok op -> generator_at operand_to_generator op = Ok g ->
  dimensions (shape hlo) = map extent (seq 0 r) ->
  hlo_dimensions hlo = map Z.of_nat ds ->
  Forall (fun d => (d < r)%nat) ds ->
  (forall i, (i < r)%nat -> 0 <= t i < extent i /\ extent i < 2 ^ w) ->
  let mirrored := fun i => extent i - 1 - t i in
  reverse_generator hlo operand_to_generator
    (MkIndex (map (fun i => VInt w (t i)) (seq 0 r)) lin index_type)
  = g (MkIndex
         (map (fun i => VInt w (if existsb (Nat.eqb i) ds
                                then mirrored i else t i)) (seq 0 r))
         (match ds with [] => lin | _ => None end) index_type) /\
  forall i, (i < r)%nat ->
    0 <= mirrored i < extent i /\ extent i - 1 - mirrored i = t i.
Proof.
  intros Hw Hop Hg Hextent Hdims Hds Hrange mirrored. split.
  - unfold reverse_generator. rewrite Hop, bind_Ok. cbv beta.
    rewrite Hdims.
    rewrite (reverse_loop hlo w r t extent lin index_type Hextent ds Hds).
    rewrite bind_Ok. cbv beta. rewrite Hg, bind_Ok. cbv beta.
    f_equal. f_equal. apply map_ext_in. intros i Hi.
    apply in_seq in Hi. destruct (Hrange i ltac:(lia)) as [Ht He].
    destruct (existsb (Nat.eqb i) ds); [|reflexivity].
    f_equal. subst mirrored. cbv beta.
    rewrite (wrap_small w (extent i - 1)) by lia.
    apply wrap_small. lia.
  - intros i Hi. destruct (Hrange i Hi). subst mirrored. cbv beta. lia.
Qed.

(** The reversal of [10, 11, 12] has [12] at coordinate [0]. *)
Lemma reverse_element_example :
  reverse_generator example_reverse
      example_reverse_generators (example_index [0])
    = Ok (VInt 32 12) /\
  map (fun i =>
         reverse_generator example_reverse
           example_reverse_generators (example_index [i])) [0; 1; 2]
  = map (fun v => Ok (VInt 32 v)) [12; 11; 10].
Proof.
  split; [|vm_compute; reflexivity].
  destruct (reverse_element example_reverse
              (example_instruction 1 kCopy (MkShape S32 [3] [0]) [])
              example_reverse_generators
              (checked_buffer_generator 32 [10; 11; 12])
              64 1 (fun _ => 0) (fun _ => 3) [0%nat] None (IntegerTy 64)
              ltac:(lia) eq_refl eq_refl eq_refl eq_refl
              ltac:(repeat constructor) ltac:(intros; cbv beta; lia))
    as [Hrev _].
  exact Hrev.
Defined.

(** ** Implicit broadcast of elementwise operands *)

Section ElementwiseIndex.

Context `{Collaborators}.

Variables (target : Index) (hlo_shape operand_shape : Shape) (w : Z) (r : nat)
  (hlo_extent operand_extent : nat -> Z) (coordinate : nat -> Value).

Hypothesis Htype : GetType target = IntegerTy w.
Hypothesis Hhlo : dimensions hlo_shape = map hlo_extent (seq 0 r).
Hypothesis Hoperand : dimensions operand_shape = map operand_extent (seq 0 r).
Hypothesis Htarget : multidim target = map coordinate (seq 0 r).
Hypothesis Hbroadcast : forall i, (i < r)%nat ->
  operand_extent i = hlo_extent i \/ operand_extent i = 1.

Lemma broadcast_loop (n : nat) :
  (n <= r)%nat ->
  foldl
    (fun (acc : Outcome Index) (i : nat) =>
       source_index ← acc;
       hlo_dim ← at_index (dimensions hlo_shape) (Z.of_nat i);
       operand_dim ← at_index (dimensions operand_shape) (Z.of_nat i);
       if hlo_dim =? operand_dim then
         v ← IrArray.get target (Z.of_nat i);
         Ok (IrArray.push_back source_index v)
       else if negb (1 =? operand_dim) then Aborts
       else
         zero ← IrArray.GetConstantWithIndexType target 0;
         Ok (IrArray.push_back source_index zero))
    (Ok (IrArray.EmptyIndex (GetType target))) (seq 0 n)
  = Ok (MkIndex
          (map (fun i => if hlo_extent i =? operand_extent i
                         then coordinate i else VInt w 0) (seq 0 n))
          None (GetType target)).
Proof.
  induction n as [|n IH]; intros Hn; [reflexivity|].
  rewrite seq_S, foldl_app, IH by lia. cbn [foldl plus].
  rewrite bind_Ok. cbv beta.
  rewrite Hhlo, Hoperand, !at_index_map_seq by lia.
  rewrite !bind_Ok. cbv beta.
  unfold IrArray.get, IrArray.GetConstantWithIndexType, IrArray.push_back.
  cbn [multidim GetType]. rewrite Htarget, at_index_map_seq by lia.
  rewrite Htype, ConstantInt_int, wrap_0, map_app. cbn [map].
  destruct (Z.eqb_spec (hlo_extent n) (operand_extent n)) as [Heq|Hne].
  - reflexivity.
  - destruct (Hbroadcast n ltac:(lia)) as [Hsame|Hone]; [lia|].
    rewrite Hone. reflexivity.
Qed.

End ElementwiseIndex.

(** The index at which an operand of an elementwise instruction is read.
    A scalar operand is read at the empty index.  An operand of the shape
    and layout of the instruction is read at the index of the element,
    linear form included.  Otherwise the operand is broadcast: it is read
    at coordinate [0] in every dimension in which its extent is [1] and
    differs from the extent of the instruction, and at the coordinate of
    the element in the other dimensions. *)
Theorem elementwise_source_index `{Collaborators} (target : Index)
    (hlo op : HloInstruction) (operand_no w : Z) (r : nat)
    (hlo_extent operand_extent : nat -> Z) (coordinate : nat -> Value) :
  IsElementwise hlo = true -> operand hlo operand_no = Ok op ->
  (ShapeUtil.IsScalar (shape op) = true ->
   ElementwiseSourceIndex target hlo operand_no
   = Ok (IrArray.EmptyIndex (GetType target))) /\
  (ShapeUtil.IsScalar (shape op) = false ->
   CompatibleIgnoringElementType (shape op) (shape hlo)
     && LayoutUtil_Equal (shape op) (shape hlo) = true ->
   ElementwiseSourceIndex target hlo operand_no = Ok target) /\
  (ShapeUtil.IsScalar (shape op) = false ->
   CompatibleIgnoringElementType (shape op) (shape hlo)
     && LayoutUtil_Equal (shape op) (shape hlo) = false ->
   GetType target = IntegerTy w ->
   dimensions (shape hlo) = map hlo_extent (seq 0 r) ->
   dimensions (shape op) = map operand_extent (seq 0 r) ->
   multidim target = map coordinate (seq 0 r) ->
   (forall i, (i < r)%nat ->
      operand_extent i = hlo_extent i \/ operand_extent i = 1) ->
   ElementwiseSourceIndex target hlo operand_no
   = Ok (MkIndex
           (map (fun i => if hlo_extent i =? operand_extent i
                          then coordinate i else VInt w 0) (seq 0 r))
           None (IntegerTy w))).
Proof.
  intros Helementwise Hop. unfold ElementwiseSourceIndex.
  rewrite Helementwise, Hop. cbn [negb]. rewrite bind_Ok. cbv beta zeta.
  repeat apply conj.
  - intros ->. reflexivity.
  - intros -> ->. reflexivity.
  - intros -> -> Htype Hhlo Hoperand Htarget Hbroadcast.
    unfold ShapeUtil.Rank. rewrite Hhlo, Hoperand, !length_map, !length_seq.
    rewrite Z.eqb_refl. cbn [negb]. rewrite Nat2Z.id.
    rewrite <- Hhlo, <- Hoperand.
    rewrite (broadcast_loop target (shape hlo) (shape op) w r hlo_extent
               operand_extent coordinate Htype Hhlo Hoperand Htarget
               Hbroadcast r (le_n r)).
    rewrite Htype. reflexivity.
Qed.

(** A row vector of shape [1, 3] added to a matrix of shape [2, 3]: the
    element at [1, 2] reads the vector at [0, 2]. *)
Lemma elementwise_source_index_example :
  ElementwiseSourceIndex (H := example_collaborators) (example_index [1; 2])
      (example_instruction 3 kAdd (MkShape S32 [2; 3] [1; 0])
         [example_instruction 1 kCopy (MkShape S32 [2; 3] [1; 0]) [];
          example_instruction 2 kCopy (MkShape S32 [1; 3] [1; 0]) []]) 1
  = Ok (MkIndex [VInt 64 0; VInt 64 2] None (IntegerTy 64)).
Proof.
  refine (proj2 (proj2 (elementwise_source_index (H := example_collaborators)
            (example_index [1; 2])
            (example_instruction 3 kAdd (MkShape S32 [2; 3] [1; 0])
               [example_instruction 1 kCopy (MkShape S32 [2; 3] [1; 0]) [];
                example_instruction 2 kCopy (MkShape S32 [1; 3] [1; 0]) []])
            (example_instruction 2 kCopy (MkShape S32 [1; 3] [1; 0]) [])
            1 64 2
            (fun i => match i with O => 2 | _ => 3 end)
            (fun i => match i with O => 1 | _ => 3 end)
            (fun i => match i with O => VInt 64 1 | _ => VInt 64 2 end)
            eq_refl eq_refl))
          eq_refl eq_refl eq_refl eq_refl eq_refl eq_refl _).
  intros i Hi. destruct i as [|[|i]]; [right; reflexivity|left; reflexivity|lia].
Defined.

(** ** Bitcast conversion of integers *)

(** [kBitcastConvert] of an integer keeps the bits and changes the type,
    to an integer or to a float of the same width.  Between types of
    unequal width it reports InvalidArgument, whatever the operand. *)
Theorem integer_bitcast_convert
    {collaborators : Collaborators} {tables : TypeTables} (no_nans : bool)
    (op op0 : HloInstruction) (w x : Z) (operand_value : Value) :
  opcode op = kBitcastConvert -> operand op 0 = Ok op0 ->
  let from_type := element_type (shape op0) in
  let to_type := element_type (shape op) in
  primitive_util.IsIntegralType from_type = true ->
  from_type <> to_type ->
  (BitWidth from_type = BitWidth to_type ->
   (PrimitiveTypeToIrType to_type = Ok (IntegerTy w) ->
    ElementalIrEmitter.EmitIntegerUnaryOp no_nans op (VInt w x)
    = Ok (VInt w x)) /\
   (forall k, PrimitiveTypeToIrType to_type = Ok (FPTy k) -> w = FP.width k ->
    ElementalIrEmitter.EmitIntegerUnaryOp no_nans op (VInt w x)
    = Ok (VFP k x))) /\
  (BitWidth from_type <> BitWidth to_type ->
   ElementalIrEmitter.EmitIntegerUnaryOp no_nans op operand_value
   = Fails (InvalidArgument
              (String.append "bitcast conversion from primitive type "
                 (String.append (PrimitiveType_Name from_type)
                    (String.append " to "
                       (String.append (PrimitiveType_Name to_type)
                          (String.append " with unequal bit-widths ("
                             (String.append (decimal (BitWidth from_type))
                                (String.append " versus "
                                   (String.append
                                      (decimal (BitWidth to_type))
                                      ") ")))))))))).
Proof.
  intros Hop H0 from_type to_type Hfrom Hne.
  assert (Hneq : PrimitiveType_eqb from_type to_type = false)
    by (destruct from_type, to_type; try reflexivity; contradiction Hne;
        reflexivity).
  split.
  - intros Hwidth. split.
    + intros Hty. unfold ElementalIrEmitter.EmitIntegerUnaryOp.
      rewrite Hop, H0, bind_Ok. cbv beta zeta. fold from_type to_type.
      rewrite Hfrom, Hneq, Hwidth, Z.eqb_refl, Hty, bind_Ok. cbv beta.
      cbn [negb]. unfold CreateBitCast. rewrite Z.eqb_refl. reflexivity.
    + intros k Hty ->. unfold ElementalIrEmitter.EmitIntegerUnaryOp.
      rewrite Hop, H0, bind_Ok. cbv beta zeta. fold from_type to_type.
      rewrite Hfrom, Hneq, Hwidth, Z.eqb_refl, Hty, bind_Ok. cbv beta.
      cbn [negb]. unfold CreateBitCast. rewrite Z.eqb_refl. reflexivity.
  - intros Hwidth. unfold ElementalIrEmitter.EmitIntegerUnaryOp.
    rewrite Hop, H0, bind_Ok. cbv beta zeta. fold from_type to_type.
    rewrite Hfrom, Hneq. cbn [negb].
    destruct (Z.eqb_spec (BitWidth from_type) (BitWidth to_type));
      [contradiction|reflexivity].
Qed.

(** The bits [0x3f800000] of a 32-bit integer are the float [1.0]; a
    32-bit integer cannot be reinterpreted as a 64-bit one. *)
Lemma integer_bitcast_convert_example :
  ElementalIrEmitter.EmitIntegerUnaryOp (collaborators := example_collaborators)
      (tables := example_type_tables) false (example_bitcast_convert U32 F32)
      (VInt 32 1065353216)
    = Ok (VFP FloatTy 1065353216) /\
  ElementalIrEmitter.EmitIntegerUnaryOp (collaborators := example_collaborators)
      (tables := example_type_tables) false (example_bitcast_convert S32 S64)
      (VInt 32 1)
    = Fails (InvalidArgument
               "bitcast conversion from primitive type S32 to S64 with unequal bit-widths (32 versus 64) ").
Proof.
  split.
  - exact (proj2 (proj1 (integer_bitcast_convert
                           (collaborators := example_collaborators)
                           (tables := example_type_tables) false
                           (example_bitcast_convert U32 F32)
                           (example_instruction 1 kCopy (MkShape U32 [] []) [])
                           32 1065353216 (VInt 32 1065353216)
                           eq_refl eq_refl eq_refl ltac:(discriminate))
                    eq_refl) FloatTy eq_refl eq_refl).
  - exact (proj2 (integer_bitcast_convert
                    (collaborators := example_collaborators)
                    (tables := example_type_tables) false
                    (example_bitcast_convert S32 S64)
                    (example_instruction 1 kCopy (MkShape S32 [] []) [])
                    32 1 (VInt 32 1)
                    eq_refl eq_refl eq_refl ltac:(discriminate))
             ltac:(discriminate)).
Defined.
